(** * Baseline web-features checker: a shallow embedding

  The extension has three components, each a single-threaded event-driven
  script:

  - the Coordinator ([background.js]): badge, session storage, context menu;
  - the Page Scanner ([content.js]): feature detection and highlighting;
  - the Lookup Panel ([popup.js]): pending search, catalog search, cards.

  JavaScript strings are modelled by [string], read as sequences of code
  units below 256.  Browser built-ins whose result the scripts only pass
  along (locale date formatting, URL parsing, the clock) are arguments of
  the functions that use them; [Math.random] is an oracle that supplies
  the drawn indices.

  What the browser derives from the page (style sheets, computed styles,
  the answers to selectors) is data of the document; the class list of an
  element is read from, and written to, its [class] attribute.  The markup
  of the panel is not among the sources: its search field is a text field
  and its result container a block element, as the spec describes them,
  and the markup the panel assigns to [innerHTML] is read by the part of
  HTML's tokenizer that module [HTML] follows.  An [async] method is
  cut at each [await]: the part before runs in the caller's turn, the part
  after in a later turn of the event loop.  The mutation observer and its
  debounce timer, which only decide when the full pass runs again, are
  outside the model. *)

From Stdlib Require Import Ascii String List ZArith Lia Bool.
From stdpp Require Import base strings list gmap pretty.

Local Open Scope string_scope.
Local Open Scope list_scope.

Set Warnings "-register-all".

(** ** JavaScript text primitives *)

Module JS.

(** WhiteSpace and LineTerminator code units below 256:
    TAB, LF, VT, FF, CR, SPACE and NBSP. *)
Definition is_space (c : ascii) : bool :=
  match nat_of_ascii c with
  | 9 | 10 | 11 | 12 | 13 | 32 | 160 => true
  | _ => false
  end.

Fixpoint trimStart (s : string) : string :=
  match s with
  | EmptyString => EmptyString
  | String c s' => if is_space c then trimStart s' else s
  end.

Fixpoint trimEnd (s : string) : string :=
  match s with
  | EmptyString => EmptyString
  | String c s' =>
      match trimEnd s' with
      | EmptyString => if is_space c then EmptyString else String c EmptyString
      | t => String c t
      end
  end.

(** [String.prototype.trim]. *)
Definition trim (s : string) : string := trimEnd (trimStart s).

(** Truthiness of a string value: only the empty string is falsy. *)
Definition truthy (s : string) : bool :=
  match s with EmptyString => false | _ => true end.

(** Truthiness of a possibly [undefined] string ([x || default], [if (x)]). *)
Definition truthy_opt (o : option string) : bool :=
  match o with Some s => truthy s | None => false end.

(** [x || d] on a possibly [undefined] string. *)
Definition or_default (o : option string) (d : string) : string :=
  match o with
  | Some s => if truthy s then s else d
  | None => d
  end.

(** [Number.prototype.toString] on a non-negative integer. *)
Definition toString (n : nat) : string := pretty n.

(** Every character of [s] is white space. *)
Fixpoint all_space (s : string) : bool :=
  match s with
  | EmptyString => true
  | String c s' => is_space c && all_space s'
  end.

Definition is_upper (c : ascii) : bool :=
  (65 <=? nat_of_ascii c)%nat && (nat_of_ascii c <=? 90)%nat.

Definition lower_char (c : ascii) : ascii :=
  if is_upper c then ascii_of_nat (nat_of_ascii c + 32) else c.

(** [String.prototype.toLowerCase] on the ASCII letters. *)
Fixpoint toLowerCase (s : string) : string :=
  match s with
  | EmptyString => EmptyString
  | String c s' => String (lower_char c) (toLowerCase s')
  end.

(** [Array.prototype.join] with a separator. *)
Fixpoint join (sep : string) (l : list string) : string :=
  match l with
  | [] => ""
  | [x] => x
  | x :: rest => x +:+ sep +:+ join sep rest
  end.

(** [s] neither starts nor ends with white space. *)
Definition trimmed (s : string) : Prop := trim s = s.

End JS.

(** ** The Coordinator ([background.js]) *)

Module Coordinator.

(** The [baseline] sub-object of a feature record. *)
Record Baseline := mkBaseline {
  status : option string;
  low_date : option string;
  high_date : option string
}.

(** A feature as it arrives in a [FEATURES_DETECTED] message.  The Scanner
    sends [id], [name], [type] and [evidence]; [updateBadge] also reads an
    optional [baseline]. *)
Record Feature := mkFeature {
  id : string;
  name : string;
  type : string;
  evidence : string;
  baseline : option Baseline
}.

(** Calls on [chrome.action]; [tabId] is [None] when [sender.tab] is absent. *)
Inductive ActionCall :=
| setBadgeText (text : string) (tabId : option Z)
| setBadgeBackgroundColor (color : string) (tabId : option Z).

(** [!tabId] is false exactly for a number other than 0. *)
Definition tab_truthy (tabId : option Z) : bool :=
  match tabId with
  | Some n => negb (n =? 0)%Z
  | None => false
  end.

(** [f.baseline?.status === 'limited'] *)
Definition is_limited (f : Feature) : bool :=
  match baseline f with
  | Some b => match status b with
              | Some s => String.eqb s "limited"
              | None => false
              end
  | None => false
  end.

Definition red : string := "#dc3545".
Definition green : string := "#28a745".

(** [updateBadge(tabId, features)]; [features] is [None] for a missing
    ([undefined] or [null]) list.  The result lists the [chrome.action]
    calls in the order they are made. *)
Definition updateBadge (tabId : option Z) (features : option (list Feature))
  : list ActionCall :=
  match features with
  | None => [setBadgeText "" tabId]
  | Some fs =>
      if negb (tab_truthy tabId) || (length fs =? 0)%nat then
        [setBadgeText "" tabId]
      else
        let limitedFeatures := List.filter is_limited fs in
        if (0 <? length limitedFeatures)%nat then
          [setBadgeText (JS.toString (length limitedFeatures)) tabId;
           setBadgeBackgroundColor red tabId]
        else
          let count := Nat.min (length fs) 99 in
          [setBadgeText (JS.toString count) tabId;
           setBadgeBackgroundColor green tabId]
  end.

(** The text of the badge after a sequence of calls: the last text set. *)
Fixpoint badge_text (calls : list ActionCall) : option string :=
  match calls with
  | [] => None
  | setBadgeText t _ :: rest =>
      match badge_text rest with Some t' => Some t' | None => Some t end
  | _ :: rest => badge_text rest
  end.

Fixpoint badge_color (calls : list ActionCall) : option string :=
  match calls with
  | [] => None
  | setBadgeBackgroundColor c _ :: rest =>
      match badge_color rest with Some c' => Some c' | None => Some c end
  | _ :: rest => badge_color rest
  end.

(** Values kept in [chrome.storage.session]. *)
Inductive StorageValue :=
| SVString (s : string)
| SVSnapshot (features : option (list Feature)) (url title : string)
             (timestamp : Z).

Inductive Message :=
| FEATURES_DETECTED (features : option (list Feature)) (url title : string)
| OtherMessage (type : string).

Record State := mkState {
  storage : gmap string StorageValue;
  actions : list ActionCall
}.

(** Template literal [`features_${tabId}`]. *)
Definition features_key (tabId : Z) : string := "features_" +:+ pretty tabId.

(** The [chrome.runtime.onMessage] listener; [now] is [Date.now()]. *)
Definition onMessage (now : Z) (message : Message) (sender_tab : option Z)
           (st : State) : State :=
  match message with
  | FEATURES_DETECTED features url title =>
      let acts := actions st ++ updateBadge sender_tab features in
      if tab_truthy sender_tab then
        match sender_tab with
        | Some tid =>
            {| storage := <[features_key tid :=
                              SVSnapshot features url title now]> (storage st);
               actions := acts |}
        | None => {| storage := storage st; actions := acts |}
        end
      else {| storage := storage st; actions := acts |}
  | OtherMessage _ => st
  end.

(** The [chrome.tabs.onRemoved] listener. *)
Definition onRemoved (tabId : Z) (st : State) : State :=
  {| storage := delete (features_key tabId) (storage st);
     actions := actions st |}.

(** The [chrome.contextMenus.onClicked] listener; [selectionText] is
    [None] when the click carries no selection. *)
Definition onClicked (menuItemId : string) (selectionText : option string)
           (st : State) : State :=
  if String.eqb menuItemId "checkBaseline" && JS.truthy_opt selectionText then
    match selectionText with
    | Some sel =>
        {| storage := <["pendingSearch" := SVString (JS.trim sel)]> (storage st);
           actions := actions st |}
    | None => st
    end
  else st.

(** The number of features whose baseline status is ['limited']. *)
Fixpoint count_limited (fs : list Feature) : nat :=
  match fs with
  | [] => 0
  | f :: rest => (if is_limited f then 1 else 0) + count_limited rest
  end.

(** A feature as the spec's examples write it: only a baseline status. *)
Definition with_status (s : string) : Feature :=
  mkFeature "" "" "" "" (Some (mkBaseline (Some s) None None)).


(** The rule of claim C2, read for every call of the badge update. *)
Definition badge_rule (tabId : option Z) (fs : list Feature) : Prop :=
  let calls := updateBadge tabId (Some fs) in
  (fs = [] -> badge_text calls = Some "" /\ badge_color calls = None) /\
  (fs <> [] -> (exists f, f ∈ fs /\ is_limited f = true) ->
   badge_text calls = Some (JS.toString (count_limited fs)) /\
   badge_color calls = Some red) /\
  (fs <> [] -> (forall f, f ∈ fs -> is_limited f = false) ->
   badge_text calls = Some (JS.toString (Nat.min (length fs) 99)) /\
   badge_color calls = Some green).

End Coordinator.

(** ** Regular expressions

  The patterns of the Scanner use literals, classes, the dot, alternation
  and the [*] and [+] quantifiers, without flags, anchors, groups that are
  referred to, or look-around; [RegExp.prototype.test] on such a pattern is
  a search for a substring in the pattern's language. *)

Module RegExp.

Inductive item :=
| One (c : ascii)
| Range (lo hi : ascii)
| WordChar          (* \w *)
| SpaceChar.        (* \s *)

Definition in_range (lo hi c : ascii) : bool :=
  (nat_of_ascii lo <=? nat_of_ascii c)%nat && (nat_of_ascii c <=? nat_of_ascii hi)%nat.

Definition is_word (c : ascii) : bool :=
  in_range "a" "z" c || in_range "A" "Z" c || in_range "0" "9" c
  || Ascii.eqb c "_".

Definition item_matches (i : item) (c : ascii) : bool :=
  match i with
  | One c' => Ascii.eqb c c'
  | Range lo hi => in_range lo hi c
  | WordChar => is_word c
  | SpaceChar => JS.is_space c
  end.

Inductive regex :=
| Empty                                  (* matches nothing *)
| Eps                                    (* matches the empty string *)
| Chr (c : ascii)
| Dot                                    (* any character but LF and CR *)
| Class (negated : bool) (items : list item)
| Seq (r1 r2 : regex)
| Alt (r1 r2 : regex)
| Star (r : regex).

Definition Plus (r : regex) : regex := Seq r (Star r).

Fixpoint Lit (s : string) : regex :=
  match s with
  | EmptyString => Eps
  | String c EmptyString => Chr c
  | String c s' => Seq (Chr c) (Lit s')
  end.

(** Concatenation and alternation of several parts. *)
Fixpoint cat (l : list regex) : regex :=
  match l with
  | [] => Eps
  | [r] => r
  | r :: rest => Seq r (cat rest)
  end.

Fixpoint any_of (l : list regex) : regex :=
  match l with
  | [] => Empty
  | [r] => r
  | r :: rest => Alt r (any_of rest)
  end.

Definition ws : regex := Class false [SpaceChar].        (* \s *)
Definition word : regex := Class false [WordChar].       (* \w *)

Definition step_char (r_neg : bool) (items : list item) (c : ascii) : bool :=
  xorb r_neg (existsb (fun i => item_matches i c) items).

Definition dot_matches (c : ascii) : bool :=
  negb (Ascii.eqb c "010" || Ascii.eqb c "013").

Fixpoint nullable (r : regex) : bool :=
  match r with
  | Empty => false
  | Eps => true
  | Chr _ => false
  | Dot => false
  | Class _ _ => false
  | Seq r1 r2 => nullable r1 && nullable r2
  | Alt r1 r2 => nullable r1 || nullable r2
  | Star _ => true
  end.

Definition mkSeq (r1 r2 : regex) : regex :=
  match r1 with
  | Empty => Empty
  | Eps => r2
  | _ => Seq r1 r2
  end.

Definition mkAlt (r1 r2 : regex) : regex :=
  match r1, r2 with
  | Empty, _ => r2
  | _, Empty => r1
  | _, _ => Alt r1 r2
  end.

(** The residual of [r] after reading [c]. *)
Fixpoint deriv (c : ascii) (r : regex) : regex :=
  match r with
  | Empty => Empty
  | Eps => Empty
  | Chr c' => if Ascii.eqb c c' then Eps else Empty
  | Dot => if dot_matches c then Eps else Empty
  | Class negated items => if step_char negated items c then Eps else Empty
  | Seq r1 r2 =>
      mkAlt (mkSeq (deriv c r1) r2)
            (if nullable r1 then deriv c r2 else Empty)
  | Alt r1 r2 => mkAlt (deriv c r1) (deriv c r2)
  | Star r1 => mkSeq (deriv c r1) (Star r1)
  end.

(** Some prefix of [s] is in the language of [r]. *)
Fixpoint prefix_match (r : regex) (s : string) : bool :=
  nullable r ||
  match s with
  | EmptyString => false
  | String c s' => prefix_match (deriv c r) s'
  end.

(** [pattern.test(s)]: some substring of [s] is in the language of [r]. *)
Fixpoint test (r : regex) (s : string) : bool :=
  prefix_match r s ||
  match s with
  | EmptyString => false
  | String _ s' => test r s'
  end.

(** The language of a pattern. *)
Inductive matches : regex -> string -> Prop :=
| m_eps : matches Eps ""
| m_chr c : matches (Chr c) (String c "")
| m_dot c : dot_matches c = true -> matches Dot (String c "")
| m_class negated items c :
    step_char negated items c = true ->
    matches (Class negated items) (String c "")
| m_seq r1 r2 s1 s2 :
    matches r1 s1 -> matches r2 s2 -> matches (Seq r1 r2) (s1 +:+ s2)
| m_alt_l r1 r2 s : matches r1 s -> matches (Alt r1 r2) s
| m_alt_r r1 r2 s : matches r2 s -> matches (Alt r1 r2) s
| m_star_nil r : matches (Star r) ""
| m_star_cons r s1 s2 :
    matches r s1 -> matches (Star r) s2 -> matches (Star r) (s1 +:+ s2).

End RegExp.

(** ** The page: elements, style sheets and the window *)

Module DOM.

(** The resolved values [getComputedStyle] gives for the three properties
    the Scanner inspects. *)
Record ComputedStyle := mkComputedStyle {
  css_display : string;
  css_transform : string;
  css_filter : string
}.

(** An element's own properties.  [attributes] holds every content
    attribute, [class] and [style] included, under the name the DOM keeps
    it (lower case in an HTML document).  [style] is [el.style.cssText],
    the serialization of the parsed declarations; it is [None] for an
    element that has no [style] property (an element outside the HTML, SVG
    and MathML namespaces), where reading [el.style.cssText] throws. *)
Record Element := mkElement {
  tagName : string;
  attributes : list (string * string);
  style : option string;             (* el.style.cssText *)
  computedStyle : ComputedStyle;     (* getComputedStyle(el) *)
  textContent : string
}.

(** An element with the elements below it. *)
Inductive Tree := Node (element : Element) (children : list Tree).

Definition root (t : Tree) : Element := match t with Node e _ => e end.
Definition child_nodes (t : Tree) : list Tree := match t with Node _ ch => ch end.

(** A style sheet: its rules' [cssText], or [None] when reading
    [cssRules] throws (a cross-origin sheet). *)
Definition StyleSheet := option (list string).

Record Document := mkDocument {
  documentElement : Tree;
  styleSheets : list StyleSheet;
  URL : string;
  title : string
}.

(** What the execution environment offers: the outcome of the existence
    checks the Scanner makes on globals. *)
Record Window := mkWindow {
  has_Promise_allSettled : bool;
  has_Promise_any : bool;
  has_Promise_try : bool;
  has_fetch : bool;
  has_IntersectionObserver : bool;
  has_ResizeObserver : bool;
  has_Worker : bool;
  has_serviceWorker : bool;
  has_PaymentRequest : bool;
  has_share : bool;
  has_clipboard : bool;
  has_geolocation : bool;
  (** [customElements.getNames()], or [None] where the call throws. *)
  customElements_getNames : option (list string)
}.

Definition getAttribute (n : string) (e : Element) : option string :=
  match List.find (fun kv => String.eqb (fst kv) n) (attributes e) with
  | Some kv => Some (snd kv)
  | None => None
  end.

Definition hasAttribute (n : string) (e : Element) : bool :=
  match getAttribute n e with Some _ => true | None => false end.

Definition attr_is (n v : string) (e : Element) : bool :=
  match getAttribute n e with
  | Some v' => String.eqb v' v
  | None => false
  end.

(** The value compared as the selector [[n="v"]] compares it for the
    attributes HTML matches without regard to case ([type] is one). *)
Definition attr_is_ci (n v : string) (e : Element) : bool :=
  match getAttribute n e with
  | Some v' => String.eqb (JS.toLowerCase v') v
  | None => false
  end.

(** ASCII white space, as the DOM splits token lists on it. *)
Definition is_ascii_whitespace (c : ascii) : bool :=
  match nat_of_ascii c with
  | 9 | 10 | 12 | 13 | 32 => true
  | _ => false
  end.

(** Split a string on ASCII white space; the pieces are not empty. *)
Fixpoint split_ascii_whitespace (s : string) : list string :=
  match s with
  | EmptyString => []
  | String c s' =>
      if is_ascii_whitespace c then split_ascii_whitespace s'
      else
        match s' with
        | EmptyString => [String c ""]
        | String c' _ =>
            if is_ascii_whitespace c' then String c "" :: split_ascii_whitespace s'
            else match split_ascii_whitespace s' with
                 | t :: ts => String c t :: ts
                 | [] => [String c ""]
                 end
        end
  end.

Fixpoint no_whitespace (s : string) : bool :=
  match s with
  | EmptyString => true
  | String c s' => negb (is_ascii_whitespace c) && no_whitespace s'
  end.

(** A token: not empty, without white space. *)
Definition is_token (t : string) : bool :=
  negb (String.eqb t "") && no_whitespace t.

(** An ordered set: every item once, at its first place. *)
Fixpoint ordered_set (l : list string) : list string :=
  match l with
  | [] => []
  | x :: rest =>
      x :: List.filter (fun y => negb (String.eqb y x)) (ordered_set rest)
  end.

(** [el.classList]: the token set of the [class] attribute. *)
Definition classList (e : Element) : list string :=
  match getAttribute "class" e with
  | Some v => ordered_set (split_ascii_whitespace v)
  | None => []
  end.

(** The selector [.c] (in a document that is not in quirks mode, where
    class names are compared as they are written). *)
Definition has_class (c : string) (e : Element) : bool :=
  existsb (String.eqb c) (classList e).

(** Type selector: the element's name, compared in lower case. *)
Definition is_tag (t : string) (e : Element) : bool :=
  String.eqb (JS.toLowerCase (tagName e)) t.

(** The element and its descendants in document order. *)
Fixpoint subtree (t : Tree) : list Element :=
  match t with
  | Node e ch => e :: flat_map subtree ch
  end.

(** The elements of the subtree that have no ancestor in it carrying the
    attribute [a]. *)
Fixpoint subtree_outside (a : string) (t : Tree) : list Element :=
  match t with
  | Node e ch =>
      e :: (if hasAttribute a e then [] else flat_map (subtree_outside a) ch)
  end.

(** [document.querySelectorAll('*')] *)
Definition all_elements (d : Document) : list Element :=
  subtree (documentElement d).

(** [document.querySelectorAll(sel)] for a selector on the element alone. *)
Definition querySelectorAll (sel : Element -> bool) (d : Document) : list Element :=
  List.filter sel (all_elements d).

(** [document.querySelectorAll] for the selector that excludes every
    descendant of a [[shadowroot]] element. *)
Definition not_below_shadowroot (d : Document) : list Element :=
  subtree_outside "shadowroot" (documentElement d).

Definition getElementById (i : string) (d : Document) : option Element :=
  List.find (attr_is "id" i) (all_elements d).

(** Apply [f] to every element of the tree; the shape of the tree is
    kept. *)
Fixpoint forEach (f : Element -> Element) (t : Tree) : Tree :=
  match t with
  | Node e ch => Node (f e) (List.map (forEach f) ch)
  end.

End DOM.

(** ** The Page Scanner ([content.js], class [BaselineFeatureDetector]) *)

Module Scanner.

Import RegExp DOM.

Record Feature := mkFeature {
  id : string;
  name : string;
  type : string;
  evidence : string
}.

(** [this.detectedFeatures]: a [Set] of objects, each created by one
    [add]; its iteration order is the order of insertion. *)
Definition Features := list Feature.

Definition has_id (i : string) (f : Feature) : bool := String.eqb (id f) i.

(** [existing.evidence = evidence] on the first object whose id is [i]. *)
Fixpoint set_evidence (i ev : string) (s : Features) : Features :=
  match s with
  | [] => []
  | f :: rest =>
      if has_id i f
      then mkFeature (id f) (name f) (type f) ev :: rest
      else f :: set_evidence i ev rest
  end.

Definition addFeature (i n t ev : string) (s : Features) : Features :=
  match List.find (has_id i) s with
  | Some _ => set_evidence i ev s
  | None => s ++ [mkFeature i n t ev]
  end.

(** A detection step acts on the feature set. *)
Definition Step := Features -> Features.

Definition when (b : bool) (k : Step) : Step :=
  fun s => if b then k s else s.

Definition then_ (a b : Step) : Step := fun s => b (a s).
Infix ">>" := then_ (at level 61, left associativity).

Definition skip : Step := fun s => s.

(** *** Style pass *)

Definition with_space (l : list string) : string :=
  fold_right (fun x acc => x +:+ " " +:+ acc) "" l.

Definition sheet_rules (sh : StyleSheet) : list string :=
  match sh with
  | Some rules => rules
  | None => []          (* cross-origin: skipped *)
  end.

(** The inline styles the loop over [[style]] elements reads: the loop
    runs inside the method's outer [try], so the first element without a
    [style] property ends it, and what was read before is kept. *)
Fixpoint inline_styles (l : list Element) : list string :=
  match l with
  | [] => []
  | e :: rest =>
      match style e with
      | Some text => text :: inline_styles rest
      | None => []        (* [el.style.cssText] throws: caught outside the loop *)
      end
  end.

Definition getAllCSSText (d : Document) : string :=
  with_space (flat_map sheet_rules (styleSheets d))
  +:+ with_space (inline_styles (querySelectorAll (hasAttribute "style") d)).

Definition ws_star : regex := Star ws.
Definition ws_plus : regex := Plus ws.

Definition re_grid : regex :=
  any_of [cat [Lit "display:"; ws_star; Lit "grid"];
          cat [Lit "display:"; ws_star; Lit "inline-grid"];
          Lit "grid-template"; Lit "grid-area"; Lit "grid-column";
          Lit "grid-row"].
Definition re_flexbox : regex :=
  any_of [cat [Lit "display:"; ws_star; Lit "flex"];
          cat [Lit "display:"; ws_star; Lit "inline-flex"];
          Lit "flex-direction"; Lit "flex-wrap"; Lit "justify-content";
          Lit "align-items"].
Definition re_container : regex :=
  any_of [Lit "@container"; Lit "container-type"; Lit "container-name"].
Definition re_subgrid : regex :=
  any_of [cat [Lit "grid-template"; Star Dot; Lit "subgrid"]; Lit "subgrid"].
Definition re_layer : regex := Lit "@layer".
Definition re_aspect_ratio : regex := cat [Lit "aspect-ratio"; ws_star; Lit ":"].
Definition re_gap : regex :=
  any_of [cat [Lit "gap"; ws_star; Lit ":"];
          cat [Lit "column-gap"; ws_star; Lit ":"];
          cat [Lit "row-gap"; ws_star; Lit ":"]].
Definition re_transforms : regex :=
  any_of [cat [Lit "transform"; ws_star; Lit ":"]; Lit "transform3d";
          Lit "translateX"; Lit "translateY"; Lit "translateZ";
          Lit "rotate"; Lit "scale"; Lit "skew"].
Definition re_animations : regex :=
  any_of [Lit "@keyframes"; cat [Lit "animation"; ws_star; Lit ":"];
          Lit "animation-name"].
Definition re_transitions : regex :=
  any_of [cat [Lit "transition"; ws_star; Lit ":"];
          Lit "transition-property"; Lit "transition-duration"].
Definition re_backdrop_filter : regex :=
  cat [Lit "backdrop-filter"; ws_star; Lit ":"].
Definition re_masks : regex :=
  any_of [cat [Lit "mask"; ws_star; Lit ":"]; Lit "mask-image";
          Lit "mask-position"].
Definition re_clamp : regex := cat [Lit "clamp"; ws_star; Lit "("].
Definition re_logical : regex :=
  any_of [Lit "margin-inline"; Lit "padding-inline"; Lit "border-inline";
          Lit "margin-block"; Lit "padding-block"].

Definition analyzeStyleSheets (d : Document) : Step :=
  let cssText := getAllCSSText d in
  when (test re_grid cssText)
    (addFeature "css-grid" "CSS Grid Layout" "css" "Found in stylesheets") >>
  when (test re_flexbox cssText)
    (addFeature "flexbox" "CSS Flexible Box Layout" "css" "Found in stylesheets") >>
  when (test re_container cssText)
    (addFeature "css-container-queries" "CSS Container Queries" "css"
       "Found in stylesheets") >>
  when (test re_subgrid cssText)
    (addFeature "css-subgrid" "CSS Subgrid" "css" "Found in stylesheets") >>
  when (test re_layer cssText)
    (addFeature "css-cascade-layers" "CSS Cascade Layers" "css"
       "Found in stylesheets") >>
  when (test re_aspect_ratio cssText)
    (addFeature "css-aspect-ratio" "CSS aspect-ratio" "css" "Found in stylesheets") >>
  when (test re_gap cssText)
    (addFeature "flexbox-gap" "CSS Gap" "css" "Found gap property") >>
  when (test re_transforms cssText)
    (addFeature "css-transforms" "CSS Transforms" "css" "Found in stylesheets") >>
  when (test re_animations cssText)
    (addFeature "css-animations" "CSS Animations" "css" "Found animations") >>
  when (test re_transitions cssText)
    (addFeature "css-transitions" "CSS Transitions" "css" "Found transitions") >>
  when (test re_backdrop_filter cssText)
    (addFeature "css-backdrop-filter" "CSS backdrop-filter" "css"
       "Found in stylesheets") >>
  when (test re_masks cssText)
    (addFeature "css-masks" "CSS Masks" "css" "Found in stylesheets") >>
  when (test re_clamp cssText)
    (addFeature "css-math-functions" "CSS Math Functions" "css"
       "Found clamp() function") >>
  when (test re_logical cssText)
    (addFeature "css-logical-props" "CSS Logical Properties" "css"
       "Found logical properties").

(** Template literal [`Active on ${element.tagName.toLowerCase()}`]. *)
Definition active_on (e : Element) : string :=
  "Active on " +:+ JS.toLowerCase (tagName e).

Definition display_is (v : string) (e : Element) : bool :=
  String.eqb (css_display (computedStyle e)) v.

(** [v && v !== 'none'] *)
Definition set_and_not_none (v : string) : bool :=
  JS.truthy v && negb (String.eqb v "none").

Definition is_grid (e : Element) : bool :=
  display_is "grid" e || display_is "inline-grid" e.
Definition is_flex (e : Element) : bool :=
  display_is "flex" e || display_is "inline-flex" e.
Definition is_transformed (e : Element) : bool :=
  set_and_not_none (css_transform (computedStyle e)).
Definition is_filtered (e : Element) : bool :=
  set_and_not_none (css_filter (computedStyle e)).

(** The body of the sampling loop, for the element drawn. *)
Definition inspect (e : Element) : Step :=
  when (is_grid e)
    (addFeature "css-grid" "CSS Grid Layout" "css" (active_on e)) >>
  when (is_flex e)
    (addFeature "flexbox" "CSS Flexible Box Layout" "css" (active_on e)) >>
  when (is_transformed e)
    (addFeature "css-transforms" "CSS Transforms" "css" (active_on e)) >>
  when (is_filtered e)
    (addFeature "css-filters" "CSS Filters" "css" (active_on e)).

(** [Math.floor(Math.random() * n)] is an index below [n]; the [k]-th draw
    of a pass is given by [draws k], reduced into the range. *)
Definition random_index (draws : nat -> nat) (k n : nat) : nat :=
  draws k mod n.

Definition analyzeComputedStyles (draws : nat -> nat) (d : Document) : Step :=
  let elements := all_elements d in
  let sampleSize := Nat.min (length elements) 50 in
  fun s =>
    fold_left
      (fun acc i =>
         match nth_error elements (random_index draws i (length elements)) with
         | Some element => inspect element acc
         | None => acc
         end)
      (seq 0 sampleSize) s.

Definition re_custom_def : regex :=
  cat [Lit "--"; Plus (Class false [WordChar; One "-"]); ws_star; Lit ":"].
Definition re_custom_use : regex :=
  cat [Lit "var(--"; Plus (Class false [WordChar; One "-"]); Lit ")"].

Definition detectCSSCustomProperties (d : Document) : Step :=
  let cssText := getAllCSSText d in
  when (test re_custom_def cssText)
    (addFeature "css-custom-properties" "CSS Custom Properties" "css"
       "Found custom property definitions") >>
  when (test re_custom_use cssText)
    (addFeature "css-custom-properties" "CSS Custom Properties" "css"
       "Found var() usage").

Definition re_has : regex := cat [Lit ":has"; ws_star; Lit "("].
Definition re_is : regex := cat [Lit ":is"; ws_star; Lit "("].
Definition re_where : regex := cat [Lit ":where"; ws_star; Lit "("].
Definition re_nesting : regex :=
  any_of [cat [Lit "&"; ws_star; Lit "{"]; cat [Lit "&"; ws_star; Lit ":"]].

Definition detectModernCSSFeatures (d : Document) : Step :=
  let cssText := getAllCSSText d in
  when (test re_has cssText)
    (addFeature "css-has" "CSS :has() selector" "css" "Found :has() selector") >>
  when (test re_is cssText)
    (addFeature "css-is" "CSS :is() selector" "css" "Found :is() selector") >>
  when (test re_where cssText)
    (addFeature "css-where" "CSS :where() selector" "css" "Found :where() selector") >>
  when (test re_nesting cssText)
    (addFeature "css-nesting" "CSS Nesting" "css" "Found nesting syntax").

Definition detectCSSFeatures (draws : nat -> nat) (d : Document) : Step :=
  analyzeStyleSheets d >>
  analyzeComputedStyles draws d >>
  detectCSSCustomProperties d >>
  detectModernCSSFeatures d.

(** *** Script pass *)

Definition inline_script (e : Element) : bool :=
  is_tag "script" e && negb (hasAttribute "src" e).

Definition getAllScriptText (d : Document) : string :=
  with_space (List.map textContent (querySelectorAll inline_script d)).

Definition re_allSettled : regex := Lit "Promise.allSettled".
Definition re_promise_any : regex := Lit "Promise.any".
Definition re_promise_try : regex := Lit "Promise.try".

Definition detectPromiseFeatures (w : Window) (d : Document) : Step :=
  let scripts := getAllScriptText d in
  when (has_Promise_allSettled w && test re_allSettled scripts)
    (addFeature "promise-allsettled" "Promise.allSettled()" "javascript"
       "Found in scripts") >>
  when (has_Promise_any w && test re_promise_any scripts)
    (addFeature "promise-any" "Promise.any()" "javascript" "Found in scripts") >>
  when (has_Promise_try w && test re_promise_try scripts)
    (addFeature "promise-try" "Promise.try()" "javascript" "Found in scripts").

Definition re_optional_chaining : regex :=
  cat [Lit "?."; Class false [Range "a" "z"; Range "A" "Z"; One "_"; One "$"]].
Definition re_nullish : regex := Lit "??".
Definition re_async : regex :=
  any_of [cat [Lit "async"; ws_plus; Lit "function"]; cat [Lit "await"; ws]].
Definition re_arrow : regex :=
  any_of [cat [Lit "=>"; ws_star; Lit "{"];
          cat [Lit "=>"; ws_star; Class true [One "{"]]].
Definition re_template : regex :=
  cat [Lit "`"; Star (Class true [One "`"]); Lit "`"].
Definition re_destructuring : regex :=
  any_of [cat [Lit "{"; ws_star; Plus (Class false [WordChar; One ","; SpaceChar]);
               Lit "}"; ws_star; Lit "="];
          cat [Lit "["; ws_star; Plus (Class false [WordChar; One ","; SpaceChar]);
               Lit "]"; ws_star; Lit "="]].
Definition re_spread : regex :=
  cat [Lit "..."; Class false [WordChar; One "$"]].

Definition detectModernSyntax (d : Document) : Step :=
  let scripts := getAllScriptText d in
  when (test re_optional_chaining scripts)
    (addFeature "optional-chaining" "Optional Chaining" "javascript"
       "Found ?. syntax") >>
  when (test re_nullish scripts)
    (addFeature "nullish-coalescing" "Nullish Coalescing" "javascript"
       "Found ?? syntax") >>
  when (test re_async scripts)
    (addFeature "async-await" "Async/Await" "javascript"
       "Found async/await syntax") >>
  when (test re_arrow scripts)
    (addFeature "arrow-functions" "Arrow Functions" "javascript"
       "Found => syntax") >>
  when (test re_template scripts)
    (addFeature "template-literals" "Template Literals" "javascript"
       "Found backtick syntax") >>
  when (test re_destructuring scripts)
    (addFeature "destructuring" "Destructuring Assignment" "javascript"
       "Found destructuring syntax") >>
  when (test re_spread scripts)
    (addFeature "spread-operator" "Spread Operator" "javascript"
       "Found ... syntax").

Definition re_fetch : regex := cat [Lit "fetch"; ws_star; Lit "("].
Definition re_new_worker : regex := cat [Lit "new"; ws_plus; Lit "Worker"].

Definition detectWebAPIs (w : Window) (d : Document) : Step :=
  let scripts := getAllScriptText d in
  when (has_fetch w && test re_fetch scripts)
    (addFeature "fetch" "Fetch API" "web-api" "Found fetch() usage") >>
  when (has_IntersectionObserver w && test (Lit "IntersectionObserver") scripts)
    (addFeature "intersection-observer" "Intersection Observer" "web-api"
       "Found usage") >>
  when (has_ResizeObserver w && test (Lit "ResizeObserver") scripts)
    (addFeature "resize-observer" "Resize Observer" "web-api" "Found usage") >>
  when (has_Worker w && test re_new_worker scripts)
    (addFeature "web-workers" "Web Workers" "web-api" "Found Worker usage") >>
  when (has_serviceWorker w && test (Lit "serviceWorker") scripts)
    (addFeature "service-workers" "Service Workers" "web-api"
       "Found serviceWorker usage") >>
  when (has_PaymentRequest w && test (Lit "PaymentRequest") scripts)
    (addFeature "payment-request" "Payment Request API" "web-api" "Found usage") >>
  when (has_share w && test (Lit "navigator.share") scripts)
    (addFeature "web-share" "Web Share API" "web-api"
       "Found navigator.share usage") >>
  when (has_clipboard w && test (Lit "navigator.clipboard") scripts)
    (addFeature "clipboard-api" "Clipboard API" "web-api"
       "Found clipboard usage") >>
  when (has_geolocation w && test (Lit "navigator.geolocation") scripts)
    (addFeature "geolocation" "Geolocation API" "web-api"
       "Found geolocation usage").

Definition module_script (e : Element) : bool :=
  is_tag "script" e && attr_is_ci "type" "module" e.

Definition re_dynamic_import : regex := cat [Lit "import"; ws_star; Lit "("].

Definition detectESModules (d : Document) : Step :=
  let moduleScripts := querySelectorAll module_script d in
  when (0 <? length moduleScripts)%nat
    (addFeature "es-modules" "ES Modules" "javascript"
       ("Found " +:+ JS.toString (length moduleScripts) +:+ " module script(s)")) >>
  (let scripts := getAllScriptText d in
   when (test re_dynamic_import scripts)
     (addFeature "dynamic-import" "Dynamic Import" "javascript"
        "Found import() usage")).

Definition detectJavaScriptFeatures (w : Window) (d : Document) : Step :=
  detectPromiseFeatures w d >>
  detectModernSyntax d >>
  detectWebAPIs w d >>
  detectESModules d.

(** *** Markup pass *)

Inductive Completion := Normal | Throw.

Definition modern_input (e : Element) : bool :=
  is_tag "input" e &&
  (attr_is_ci "type" "date" e || attr_is_ci "type" "color" e ||
   attr_is_ci "type" "range" e || attr_is_ci "type" "time" e ||
   attr_is_ci "type" "datetime-local" e).

Definition uses_shadow_dom (d : Document) : bool :=
  match List.find (hasAttribute "shadowroot") (all_elements d) with
  | Some _ => true
  | None =>
      negb (length (all_elements d) =? length (not_below_shadowroot d))%nat
  end.

Definition html_steps (names : list string) (d : Document) : Step :=
  when (0 <? length names)%nat
    (addFeature "custom-elements" "Custom Elements" "html"
       "Found registered custom elements") >>
  when (uses_shadow_dom d)
    (addFeature "shadow-dom" "Shadow DOM" "html" "Found shadow DOM usage") >>
  (let modernInputs := querySelectorAll modern_input d in
   when (0 <? length modernInputs)%nat
     (addFeature "html5-forms" "HTML5 Form Controls" "html"
        ("Found " +:+ JS.toString (length modernInputs) +:+ " modern input types"))) >>
  (let detailsElements := querySelectorAll (is_tag "details") d in
   when (0 <? length detailsElements)%nat
     (addFeature "details-summary" "Details/Summary Elements" "html"
        ("Found " +:+ JS.toString (length detailsElements) +:+ " details elements"))) >>
  (let pictureElements := querySelectorAll (is_tag "picture") d in
   when (0 <? length pictureElements)%nat
     (addFeature "picture-element" "Picture Element" "html"
        ("Found " +:+ JS.toString (length pictureElements) +:+ " picture elements"))) >>
  (let dialogElements := querySelectorAll (is_tag "dialog") d in
   when (0 <? length dialogElements)%nat
     (addFeature "dialog-element" "Dialog Element" "html"
        ("Found " +:+ JS.toString (length dialogElements) +:+ " dialog elements"))).

(** This pass is not guarded by a [try]: where [customElements.getNames]
    cannot be called, it throws before any check is made. *)
Definition detectHTMLFeatures (w : Window) (d : Document) (s : Features)
  : Features * Completion :=
  match customElements_getNames w with
  | None => (s, Throw)
  | Some names => (html_steps names d s, Normal)
  end.

(** *** The full pass *)

(** The [FEATURES_DETECTED] message. *)
Record Report := mkReport {
  features : list Feature;
  url : string;
  page_title : string
}.

Definition sendResultsToBackground (d : Document) (s : Features) : Report :=
  mkReport s (URL d) (title d).

(** [analyzeDocument()]: the feature set it leaves behind, and the report
    sent (none when the markup pass threw).  [prev] is the feature set
    before the call. *)
Definition analyzeDocument (w : Window) (draws : nat -> nat) (d : Document)
           (prev : Features) : Features * option Report :=
  let cleared : Features := [] in
  let s1 := detectCSSFeatures draws d cleared in
  let s2 := detectJavaScriptFeatures w d s1 in
  match detectHTMLFeatures w d s2 with
  | (s3, Normal) => (s3, Some (sendResultsToBackground d s3))
  | (s3, Throw) => (s3, None)
  end.

(** The ids of a feature set. *)
Definition ids (s : Features) : list string := List.map id s.

(** *** Visual highlighting *)

Definition marker_class : string := "baseline-highlight".
Definition marker_attr : string := "data-baseline-feature".
Definition styles_id : string := "baseline-highlight-styles".

Definition set_attributes (a : list (string * string)) (e : Element) : Element :=
  mkElement (tagName e) a (style e) (computedStyle e) (textContent e).

(** [el.removeAttribute(n)] *)
Definition removeAttribute (n : string) (e : Element) : Element :=
  set_attributes (List.filter (fun kv => negb (String.eqb (fst kv) n)) (attributes e)) e.

Fixpoint replace_attr (n v : string) (a : list (string * string))
  : list (string * string) :=
  match a with
  | [] => []
  | kv :: rest =>
      if String.eqb (fst kv) n then (n, v) :: rest
      else kv :: replace_attr n v rest
  end.

(** [el.setAttribute(n, v)] *)
Definition setAttribute (n v : string) (e : Element) : Element :=
  if hasAttribute n e
  then set_attributes (replace_attr n v (attributes e)) e
  else set_attributes (attributes e ++ [(n, v)]) e.

(** The update steps of a token list: the [class] attribute is set to the
    tokens joined by single spaces, unless the element has no such attribute
    and no token is left. *)
Definition classList_update (tokens : list string) (e : Element) : Element :=
  if negb (hasAttribute "class" e) && (length tokens =? 0)%nat then e
  else setAttribute "class" (JS.join " " tokens) e.

(** [el.classList.remove(c)], for a token [c] that is not empty and holds
    no white space. *)
Definition classList_remove (c : string) (e : Element) : Element :=
  classList_update (List.filter (fun x => negb (String.eqb c x)) (classList e)) e.

(** [el.classList.add(c)], for a token [c] that is not empty and holds no
    white space. *)
Definition classList_add (c : string) (e : Element) : Element :=
  classList_update
    (if has_class c e then classList e else classList e ++ [c]) e.

Definition on_document (f : Element -> Element) (d : Document) : Document :=
  mkDocument (forEach f (documentElement d)) (styleSheets d) (URL d) (title d).

(** The callback run on every element matching [.baseline-highlight]. *)
Definition clear_marker (e : Element) : Element :=
  if has_class marker_class e
  then removeAttribute marker_attr (classList_remove marker_class e)
  else e.

(** The callback run on every element by a recognized feature's case.  The
    shared rule sets only [outline] and [position]; the computed display,
    transform and filter of an element are taken not to depend on the
    marker (the sheets of the page are taken not to select on it), so
    tagging an element leaves the values the rules read as they are. *)
Definition mark (rule : Element -> bool) (label : string) (e : Element) : Element :=
  if rule e
  then setAttribute marker_attr label (classList_add marker_class e)
  else e.

Definition highlight_styles : string :=
"
        .baseline-highlight {
          outline: 2px solid #ff6b00 !important;
          outline-offset: 2px !important;
          position: relative !important;
        }
        .baseline-highlight::after {
          content: 'Baseline: ' attr(data-baseline-feature);
          position: absolute;
          top: -25px;
          left: 0;
          background: #ff6b00;
          color: white;
          padding: 2px 6px;
          font-size: 12px;
          border-radius: 3px;
          z-index: 10000;
          pointer-events: none;
        }
      ".

(** The [<style>] element the Scanner creates; [cs] is the style the page
    resolves for it. *)
Definition style_element (cs : ComputedStyle) : Element :=
  mkElement "STYLE" [("id", styles_id)] (Some "") cs highlight_styles.

(** Append [new] as the last child of the first tree whose root
    satisfies [p]. *)
Fixpoint append_to_first (p : Element -> bool) (new : Tree)
         (l : list Tree) : option (list Tree) :=
  match l with
  | [] => None
  | t :: rest =>
      if p (root t) then Some (Node (root t) (child_nodes t ++ [new]) :: rest)
      else match append_to_first p new rest with
           | Some rest' => Some (t :: rest')
           | None => None
           end
  end.

(** [document.head.appendChild(new)]; [document.head] is the first [head]
    child of the [html] root, and the call throws when there is none. *)
Definition append_to_head (new : Element) (d : Document) : option Document :=
  if is_tag "html" (root (documentElement d)) then
    match append_to_first (is_tag "head") (Node new [])
                          (child_nodes (documentElement d)) with
    | Some ch =>
        Some (mkDocument (Node (root (documentElement d)) ch)
                         (styleSheets d) (URL d) (title d))
    | None => None
    end
  else None.

Definition highlightSpecificFeature (featureId : string) (d : Document) : Document :=
  if String.eqb featureId "css-grid" then on_document (mark is_grid "CSS Grid") d
  else if String.eqb featureId "flexbox" then on_document (mark is_flex "Flexbox") d
  else if String.eqb featureId "css-transforms"
  then on_document (mark is_transformed "CSS Transform") d
  else d.   (* only logged *)

Definition highlightFeatureUsage (cs : ComputedStyle) (featureId : string)
           (d : Document) : Document * Completion :=
  let d1 := on_document clear_marker d in
  match getElementById styles_id d1 with
  | Some _ => (highlightSpecificFeature featureId d1, Normal)
  | None =>
      match append_to_head (style_element cs) d1 with
      | Some d2 => (highlightSpecificFeature featureId d2, Normal)
      | None => (d1, Throw)
      end
  end.

(** An element carries the highlight marker. *)
Definition marked (e : Element) : bool := has_class marker_class e.

(** The detection rule and display name of a recognized feature id. *)
Definition recognized (featureId : string) : option ((Element -> bool) * string) :=
  if String.eqb featureId "css-grid" then Some (is_grid, "CSS Grid")
  else if String.eqb featureId "flexbox" then Some (is_flex, "Flexbox")
  else if String.eqb featureId "css-transforms"
  then Some (is_transformed, "CSS Transform")
  else None.

(** *** Message handling *)

Inductive Request :=
| GET_DETECTED_FEATURES
| REANALYZE_PAGE
| HIGHLIGHT_FEATURE (featureId : string)
| OtherRequest.

Inductive Response :=
| FeaturesResponse (r : Report)
| StatusResponse (status : string).

Record Page := mkPage {
  detectedFeatures : Features;
  document : Document
}.

(** [handleMessage]: the page afterwards, the response passed to
    [sendResponse] (none when the handler threw before it, or for another
    message type) and the report sent to the Coordinator. *)
Definition handleMessage (w : Window) (draws : nat -> nat) (cs : ComputedStyle)
           (message : Request) (p : Page)
  : Page * option Response * option Report :=
  match message with
  | GET_DETECTED_FEATURES =>
      (p, Some (FeaturesResponse
                  (mkReport (detectedFeatures p) (URL (document p))
                            (title (document p)))), None)
  | REANALYZE_PAGE =>
      match analyzeDocument w draws (document p) (detectedFeatures p) with
      | (s, Some r) => (mkPage s (document p), Some (StatusResponse "reanalyzed"), Some r)
      | (s, None) => (mkPage s (document p), None, None)
      end
  | HIGHLIGHT_FEATURE featureId =>
      match highlightFeatureUsage cs featureId (document p) with
      | (d, Normal) =>
          (mkPage (detectedFeatures p) d, Some (StatusResponse "highlighted"), None)
      | (d, Throw) => (mkPage (detectedFeatures p) d, None, None)
      end
  | OtherRequest => (p, None, None)
  end.

(** *** Sequences of [addFeature] calls *)

Record AddCall := mkCall {
  call_id : string;
  call_name : string;
  call_type : string;
  call_evidence : string
}.

Definition apply_call (s : Features) (c : AddCall) : Features :=
  addFeature (call_id c) (call_name c) (call_type c) (call_evidence c) s.

Definition add_all (calls : list AddCall) (s : Features) : Features :=
  fold_left apply_call calls s.

(** The calls made with id [i], in the order they were made. *)
Definition calls_for (i : string) (calls : list AddCall) : list AddCall :=
  List.filter (fun c => String.eqb (call_id c) i) calls.

(** *** Vocabulary for the properties *)

(** The invariant behind claim C1, for a run started on the empty set. *)
Definition reflects (calls : list AddCall) (s : Features) : Prop :=
  NoDup (ids s) /\
  (forall i, i ∈ ids s <-> i ∈ List.map call_id calls) /\
  (forall f, f ∈ s ->
     exists c1 cn,
       head (calls_for (id f) calls) = Some c1 /\
       last (calls_for (id f) calls) = Some cn /\
       name f = call_name c1 /\ type f = call_type c1 /\
       evidence f = call_evidence cn).

(** The ids that the computed-style sampling can add. *)
Definition sampled_ids : list string :=
  ["css-grid"; "flexbox"; "css-transforms"; "css-filters"].

Definition same_ids (s1 s2 : Features) : Prop :=
  forall i, i ∈ ids s1 <-> i ∈ ids s2.

(** Claim C3 as stated: on an unchanged document, a second run finds the
    ids of the first, whatever elements the two runs sample. *)
Definition rerun_same_ids (w : Window) (d : Document) : Prop :=
  forall draws1 draws2 prev,
    let r1 := fst (analyzeDocument w draws1 d prev) in
    let r2 := fst (analyzeDocument w draws2 d r1) in
    same_ids r1 r2.

(** Two feature sets agree on the ids that sampling cannot add. *)
Definition agree (s1 s2 : Features) : Prop :=
  forall i, i ∉ sampled_ids -> (i ∈ ids s1 <-> i ∈ ids s2).

(** Two steps keep the agreement. *)
Definition Agree (a a' : Step) : Prop :=
  forall s1 s2, agree s1 s2 -> agree (a s1) (a' s2).

(** A step that only adds sampled ids. *)
Definition Sampling (a : Step) : Prop :=
  forall s i, i ∉ sampled_ids -> (i ∈ ids (a s) <-> i ∈ ids s).






(** *** Vocabulary for the properties of the full pass *)

(** The ids the three passes can report. *)
Definition catalogue : list string :=
  ["css-grid"; "flexbox"; "css-container-queries"; "css-subgrid";
   "css-cascade-layers"; "css-aspect-ratio"; "flexbox-gap"; "css-transforms";
   "css-animations"; "css-transitions"; "css-backdrop-filter"; "css-masks";
   "css-math-functions"; "css-logical-props"; "css-filters";
   "css-custom-properties"; "css-has"; "css-is"; "css-where"; "css-nesting";
   "promise-allsettled"; "promise-any"; "promise-try"; "optional-chaining";
   "nullish-coalescing"; "async-await"; "arrow-functions"; "template-literals";
   "destructuring"; "spread-operator"; "fetch"; "intersection-observer";
   "resize-observer"; "web-workers"; "service-workers"; "payment-request";
   "web-share"; "clipboard-api"; "geolocation"; "es-modules"; "dynamic-import";
   "custom-elements"; "shadow-dom"; "html5-forms"; "details-summary";
   "picture-element"; "dialog-element"].

(** The category tags. *)
Definition categories : list string := ["css"; "javascript"; "web-api"; "html"].

Definition known (f : Feature) : bool :=
  existsb (String.eqb (id f)) catalogue && existsb (String.eqb (type f)) categories.

(** Distinct ids, each from the catalogue, each entry with a category tag. *)
Definition well_formed (s : Features) : Prop :=
  NoDup (ids s) /\ Forall (fun f => known f = true) s.

Definition Keeps (a : Step) : Prop :=
  forall s, well_formed s -> well_formed (a s).

(** A step that removes no id. *)
Definition Grows (a : Step) : Prop :=
  forall s i, i ∈ ids s -> i ∈ ids (a s).

(** A step that does not add the id [i]. *)
Definition Avoids (i : string) (a : Step) : Prop :=
  forall s, i ∈ ids (a s) -> i ∈ ids s.

(** A step after which the id [i] is in the set. *)
Definition Adds (i : string) (a : Step) : Prop :=
  forall s, i ∈ ids (a s).

(** The texts the style pass reads: the rules of the readable sheets and
    the inline styles the loop gets to. *)
Definition readable_css (d : Document) : list string :=
  flat_map sheet_rules (styleSheets d)
  ++ inline_styles (querySelectorAll (hasAttribute "style") d).

(** [text] is the inline style of an element with a [style] attribute, and
    every such element before it in document order has a [style]
    property, so that the loop reaches it. *)
Definition inline_style_read (d : Document) (text : string) : Prop :=
  exists before e after,
    querySelectorAll (hasAttribute "style") d = before ++ e :: after /\
    Forall (fun x => style x <> None) before /\
    style e = Some text.

(** The texts the script pass reads. *)
Definition inline_scripts (d : Document) : list string :=
  List.map textContent (querySelectorAll inline_script d).

(** The patterns of the style pass with the id each reports. *)
Definition css_patterns : list (regex * string) :=
  [(re_grid, "css-grid"); (re_flexbox, "flexbox");
   (re_container, "css-container-queries"); (re_subgrid, "css-subgrid");
   (re_layer, "css-cascade-layers"); (re_aspect_ratio, "css-aspect-ratio");
   (re_gap, "flexbox-gap"); (re_transforms, "css-transforms");
   (re_animations, "css-animations"); (re_transitions, "css-transitions");
   (re_backdrop_filter, "css-backdrop-filter"); (re_masks, "css-masks");
   (re_clamp, "css-math-functions"); (re_logical, "css-logical-props");
   (re_custom_def, "css-custom-properties");
   (re_custom_use, "css-custom-properties");
   (re_has, "css-has"); (re_is, "css-is"); (re_where, "css-where");
   (re_nesting, "css-nesting")].

Definition always : Window -> bool := fun _ => true.

(** The patterns of the script pass with the existence check that guards
    each ([always] where there is none) and the id it reports. *)
Definition script_patterns : list ((Window -> bool) * regex * string) :=
  [(has_Promise_allSettled, re_allSettled, "promise-allsettled");
   (has_Promise_any, re_promise_any, "promise-any");
   (has_Promise_try, re_promise_try, "promise-try");
   (always, re_optional_chaining, "optional-chaining");
   (always, re_nullish, "nullish-coalescing");
   (always, re_async, "async-await");
   (always, re_arrow, "arrow-functions");
   (always, re_template, "template-literals");
   (always, re_destructuring, "destructuring");
   (always, re_spread, "spread-operator");
   (has_fetch, re_fetch, "fetch");
   (has_IntersectionObserver, Lit "IntersectionObserver", "intersection-observer");
   (has_ResizeObserver, Lit "ResizeObserver", "resize-observer");
   (has_Worker, re_new_worker, "web-workers");
   (has_serviceWorker, Lit "serviceWorker", "service-workers");
   (has_PaymentRequest, Lit "PaymentRequest", "payment-request");
   (has_share, Lit "navigator.share", "web-share");
   (has_clipboard, Lit "navigator.clipboard", "clipboard-api");
   (has_geolocation, Lit "navigator.geolocation", "geolocation");
   (always, re_dynamic_import, "dynamic-import")].

(** [e'] is [e] up to the highlight marker: same tag, inline style and
    text, same attributes apart from the marker attribute and [class], same
    classes apart from the marker class. *)
Definition same_but_marker (e e' : Element) : Prop :=
  tagName e' = tagName e /\
  style e' = style e /\
  textContent e' = textContent e /\
  (forall n, n <> marker_attr -> n <> "class" ->
             getAttribute n e' = getAttribute n e) /\
  (forall c, c <> marker_class -> has_class c e' = has_class c e).

(** The element checks of the markup pass: the tag looked for and the id
    reported. *)
Definition html_elements : list (string * string) :=
  [("details", "details-summary"); ("picture", "picture-element");
   ("dialog", "dialog-element")].

(** The ids of the markup pass. *)
Definition html_ids : list string :=
  ["custom-elements"; "shadow-dom"; "html5-forms"; "details-summary";
   "picture-element"; "dialog-element"].

(** The entries of a set whose id is not [i], in their order. *)
Definition others (i : string) (s : Features) : Features :=
  List.filter (fun f => negb (has_id i f)) s.

End Scanner.

(** ** Markup assigned to [innerHTML]

    The Lookup Panel builds its result cards as a string and assigns it to
    the [innerHTML] of the result container, so which elements the
    container holds is decided by the browser's HTML parser.  This module
    follows HTML's tokenizer (data, tag and attribute states) and the
    tree builder's rules for the tags the card template uses: a start tag
    [div] or [h3] inserts one element; an [a] element is followed only when
    it is closed before any other tag; anything else (another tag name, a
    comment, a character reference inside a [class] value) is outside the
    fragment and makes the count [None]. *)

Module HTML.

Import DOM.

(** A tag token under construction: the [class] attribute it has got, and
    the attribute being read. *)
Record Tag := mkTag {
  closing : bool;
  tag_name : string;
  class_value : option string;
  attribute : option (string * string)
}.

Inductive Mode :=
| Data
| TagOpen
| EndTagOpen
| TagName (t : Tag)
| BeforeAttributeName (t : Tag)
| AttributeName (t : Tag)
| AfterAttributeName (t : Tag)
| BeforeAttributeValue (t : Tag)
| ValueDoubleQuoted (t : Tag)
| ValueSingleQuoted (t : Tag)
| ValueUnquoted (t : Tag)
| AfterValueQuoted (t : Tag)
| SelfClosingStartTag (t : Tag)
| Unsupported.

(** The tokenizer's state, the number of elements of the class inserted so
    far, and whether an [a] element is open. *)
Record State := mkState {
  mode : Mode;
  found : nat;
  in_a : bool
}.

Definition snoc (s : string) (c : ascii) : string := s +:+ String c "".

Definition is_alpha (c : ascii) : bool :=
  JS.is_upper c ||
  ((97 <=? nat_of_ascii c)%nat && (nat_of_ascii c <=? 122)%nat).

Definition is_char (n : nat) (c : ascii) : bool := (nat_of_ascii c =? n)%nat.

(** The attribute being read is finished: a [class] attribute is kept
    unless the tag has one already. *)
Definition commit (t : Tag) : Tag :=
  match attribute t with
  | Some (n, v) =>
      mkTag (closing t) (tag_name t)
            (match class_value t with
             | Some v0 => Some v0
             | None => if String.eqb n "class" then Some v else None
             end)
            None
  | None => t
  end.

Definition start_attribute (t : Tag) (c : ascii) : Tag :=
  mkTag (closing t) (tag_name t) (class_value (commit t))
        (Some (String (JS.lower_char c) "", "")).

Definition push_name (t : Tag) (c : ascii) : Tag :=
  mkTag (closing t) (snoc (tag_name t) (JS.lower_char c)) (class_value t)
        (attribute t).

Definition push_attribute_name (t : Tag) (c : ascii) : Tag :=
  match attribute t with
  | Some (n, v) =>
      mkTag (closing t) (tag_name t) (class_value t)
            (Some (snoc n (JS.lower_char c), v))
  | None => t
  end.

Definition push_value (t : Tag) (c : ascii) : Tag :=
  match attribute t with
  | Some (n, v) =>
      mkTag (closing t) (tag_name t) (class_value t) (Some (n, snoc v c))
  | None => t
  end.

Definition reads_class (t : Tag) : bool :=
  match attribute t with
  | Some (n, _) => String.eqb n "class"
  | None => false
  end.

Definition set_mode (st : State) (m : Mode) : State :=
  mkState m (found st) (in_a st).

Definition block_tag (n : string) : bool :=
  String.eqb n "div" || String.eqb n "h3".

Section Counting.

(** The class whose elements are counted. *)
Variable cls : string.

Definition has_class_token (t : Tag) : bool :=
  match class_value t with
  | Some v => existsb (String.eqb cls) (split_ascii_whitespace v)
  | None => false
  end.

(** The tag token is emitted and the tree builder acts on it. *)
Definition emit (st : State) (t0 : Tag) : State :=
  let t := commit t0 in
  if closing t then
    if String.eqb (tag_name t) "a" then
      if in_a st then mkState Data (found st) false
      else set_mode st Unsupported
    else if block_tag (tag_name t) then
      if in_a st then set_mode st Unsupported else set_mode st Data
    else set_mode st Unsupported
  else if in_a st then set_mode st Unsupported
  else if block_tag (tag_name t) || String.eqb (tag_name t) "a" then
    mkState Data
            (if has_class_token t then S (found st) else found st)
            (String.eqb (tag_name t) "a")
  else set_mode st Unsupported.

Definition after_attribute_name (st : State) (t : Tag) (c : ascii) : State :=
  if is_ascii_whitespace c then set_mode st (AfterAttributeName t)
  else if is_char 47 c then set_mode st (SelfClosingStartTag t)
  else if is_char 61 c then set_mode st (BeforeAttributeValue t)
  else if is_char 62 c then emit st t
  else set_mode st (AttributeName (start_attribute t c)).

Definition before_attribute_name (st : State) (t : Tag) (c : ascii) : State :=
  if is_ascii_whitespace c then set_mode st (BeforeAttributeName t)
  else if is_char 47 c || is_char 62 c then after_attribute_name st t c
  else set_mode st (AttributeName (start_attribute t c)).

Definition attribute_name (st : State) (t : Tag) (c : ascii) : State :=
  if is_ascii_whitespace c || is_char 47 c || is_char 62 c
  then after_attribute_name st t c
  else if is_char 61 c then set_mode st (BeforeAttributeValue t)
  else set_mode st (AttributeName (push_attribute_name t c)).

(** A character of an attribute value; a character reference in a
    [class] value is not followed. *)
Definition value_char (st : State) (m : Tag -> Mode) (t : Tag) (c : ascii)
  : State :=
  if is_char 38 c && reads_class t then set_mode st Unsupported
  else set_mode st (m (push_value t c)).

Definition value_unquoted (st : State) (t : Tag) (c : ascii) : State :=
  if is_ascii_whitespace c then set_mode st (BeforeAttributeName t)
  else if is_char 62 c then emit st t
  else value_char st ValueUnquoted t c.

Definition step (st : State) (c : ascii) : State :=
  match mode st with
  | Unsupported => st
  | Data => if is_char 60 c then set_mode st TagOpen else st
  | TagOpen =>
      if is_char 33 c || is_char 63 c then set_mode st Unsupported
      else if is_char 47 c then set_mode st EndTagOpen
      else if is_alpha c
      then set_mode st (TagName (mkTag false (String (JS.lower_char c) "") None None))
      else if is_char 60 c then set_mode st TagOpen
      else set_mode st Data
  | EndTagOpen =>
      if is_alpha c
      then set_mode st (TagName (mkTag true (String (JS.lower_char c) "") None None))
      else if is_char 62 c then set_mode st Data
      else set_mode st Unsupported
  | TagName t =>
      if is_ascii_whitespace c then set_mode st (BeforeAttributeName t)
      else if is_char 47 c then set_mode st (SelfClosingStartTag t)
      else if is_char 62 c then emit st t
      else set_mode st (TagName (push_name t c))
  | BeforeAttributeName t => before_attribute_name st t c
  | AttributeName t => attribute_name st t c
  | AfterAttributeName t => after_attribute_name st t c
  | BeforeAttributeValue t =>
      if is_ascii_whitespace c then set_mode st (BeforeAttributeValue t)
      else if is_char 34 c then set_mode st (ValueDoubleQuoted t)
      else if is_char 39 c then set_mode st (ValueSingleQuoted t)
      else if is_char 62 c then emit st t
      else value_unquoted st t c
  | ValueDoubleQuoted t =>
      if is_char 34 c then set_mode st (AfterValueQuoted t)
      else value_char st ValueDoubleQuoted t c
  | ValueSingleQuoted t =>
      if is_char 39 c then set_mode st (AfterValueQuoted t)
      else value_char st ValueSingleQuoted t c
  | ValueUnquoted t => value_unquoted st t c
  | AfterValueQuoted t =>
      if is_ascii_whitespace c then set_mode st (BeforeAttributeName t)
      else if is_char 47 c then set_mode st (SelfClosingStartTag t)
      else if is_char 62 c then emit st t
      else before_attribute_name st t c
  | SelfClosingStartTag t =>
      if is_char 62 c then emit st t
      else before_attribute_name st t c
  end.

Fixpoint run (st : State) (s : string) : State :=
  match s with
  | EmptyString => st
  | String c s' => run (step st c) s'
  end.

(** The number of elements of the class that a block element of the body
    holds after the markup is assigned to its [innerHTML]; a tag cut
    off by the end of the markup is dropped. *)
Definition elements_of_class (markup : string) : option nat :=
  let st := run (mkState Data 0 false) markup in
  match mode st with
  | Unsupported => None
  | _ => Some (found st)
  end.

End Counting.

End HTML.

(** ** The Lookup Panel ([popup.js], class [BaselinePopup]) *)

Module Panel.

(** *** Catalog features and cards *)

Record Baseline := mkBaseline {
  status : option string;
  low_date : option string;
  high_date : option string
}.

Record Spec := mkSpec { links : option (list string) }.

(** An entry of the catalog's [data] array. *)
Record CatalogFeature := mkCatalogFeature {
  name : option string;
  feature_id : option string;
  baseline : option Baseline;
  spec : option Spec
}.

(** Built-ins the card only passes along: [new URL(link).hostname]
    ([None] when the constructor throws),
    [new Date(s).toLocaleDateString('en-US', ...)], and the text that a
    property inherited from [Object.prototype] takes inside a template
    (for [constructor], the source text of a function), [None] for a name
    the prototype does not have. *)
Record Builtins := mkBuiltins {
  hostname : string -> option string;
  toLocaleDateString : string -> string;
  inherited : string -> option string
}.

(** The values interpolated into the card template, in its order. *)
Record Card := mkCard {
  card_name : string;
  card_id : string;
  card_statusClass : string;
  card_statusLabel : string;
  card_description : string;
  card_newly : option string;         (* the "Baseline Newly" line *)
  card_widely : option string;        (* the "Baseline Widely" line *)
  card_links : list (string * string) (* href and hostname of each link *)
}.

(** Own keys of the object literals. *)
Definition statusLabels (k : string) : option string :=
  if String.eqb k "widely" then Some "Widely Available"
  else if String.eqb k "newly" then Some "Newly Available"
  else if String.eqb k "limited" then Some "Limited Support"
  else None.

Definition descriptions (k : string) : option string :=
  if String.eqb k "widely" then Some "Safe to use across all modern browsers"
  else if String.eqb k "newly"
  then Some "Available in latest browsers, consider polyfills"
  else if String.eqb k "limited"
  then Some "Limited browser support - use with caution"
  else None.

(** [table[k]]: the table's own key, else what the prototype has under
    the name, else [undefined]. *)
Definition property (B : Builtins) (table : string -> option string)
           (k : string) : option string :=
  match table k with
  | Some v => Some v
  | None => inherited B k
  end.

(** A possibly [undefined] value inside a template literal. *)
Definition interpolate (o : option string) : string :=
  match o with Some s => s | None => "undefined" end.

(** [feature.baseline?.f] *)
Definition baseline_field (f : Baseline -> option string) (feature : CatalogFeature)
  : option string :=
  match baseline feature with Some b => f b | None => None end.

Definition formatDate (B : Builtins) (dateString : string) : string :=
  if JS.truthy dateString then toLocaleDateString B dateString else "".

(** The [baseline] date lines: present when the date is truthy. *)
Definition date_line (B : Builtins) (d : option string) : option string :=
  match d with
  | Some s => if JS.truthy s then Some (formatDate B s) else None
  | None => None
  end.

(** [feature.spec?.links?.slice(0, 2)], mapped and filtered: the links among
    the first two that parse as a URL. *)
Definition specLinks (B : Builtins) (feature : CatalogFeature)
  : list (string * string) :=
  match spec feature with
  | Some sp =>
      match links sp with
      | Some ls =>
          flat_map (fun link => match hostname B link with
                                | Some h => [(link, h)]
                                | None => []
                                end) (firstn 2 ls)
      | None => []
      end
  | None => []
  end.

Definition createFeatureCard (B : Builtins) (feature : CatalogFeature) : Card :=
  let status := JS.or_default (baseline_field status feature) "limited" in
  let statusClass := "status-" +:+ status in
  mkCard (JS.or_default (name feature) "Unknown Feature")
         (JS.or_default (feature_id feature) "unknown")
         statusClass
         (interpolate (property B statusLabels status))
         (interpolate (property B descriptions status))
         (date_line B (baseline_field low_date feature))
         (date_line B (baseline_field high_date feature))
         (specLinks B feature).

(** *** The markup of a card *)

(** The quotation mark. *)
Definition dq : string := String (ascii_of_nat 34) "".

(** The pieces of the card template between its interpolations, in the
    template's order (a string holds the bytes of its UTF-8 encoding). *)
Definition card_head : string :=
  "
      <div class=" +:+ dq +:+ "feature-card" +:+ dq +:+ ">
        <div class=" +:+ dq +:+ "feature-header" +:+ dq +:+ ">
          <div style=" +:+ dq +:+ "flex: 1;" +:+ dq +:+ ">
            <h3 class=" +:+ dq +:+ "feature-name" +:+ dq +:+ ">".

Definition card_after_name : string :=
  "</h3>
            <div class=" +:+ dq +:+ "feature-id" +:+ dq +:+ ">".

Definition card_after_id : string :=
  "</div>
            <div class=" +:+ dq +:+ "status-badge ".

Definition card_after_class : string :=
  dq +:+ ">
              ".

Definition card_after_label : string :=
  "
            </div>
          </div>
        </div>
        
        <div style=" +:+ dq +:+ "margin-top: 12px; font-size: 12px; color: #6c757d;" +:+ dq +:+ ">
          ".

Definition card_after_description : string :=
  "
        </div>
        
        ".

Definition newly_open : string :=
  "
          <div style=" +:+ dq +:+ "margin-top: 8px; font-size: 11px; color: #6c757d;" +:+ dq +:+ ">
            📅 Baseline Newly: ".

Definition widely_open : string :=
  "
          <div style=" +:+ dq +:+ "margin-top: 4px; font-size: 11px; color: #6c757d;" +:+ dq +:+ ">
            📅 Baseline Widely: ".

Definition date_close : string :=
  "
          </div>
        ".

Definition card_gap : string :=
  "
        
        ".

Definition links_open : string :=
  "
          <div style=" +:+ dq +:+ "margin-top: 8px;" +:+ dq +:+ ">
            ".

Definition links_close : string :=
  "
          </div>
        ".

Definition card_foot : string :=
  "
      </div>
    ".

(** The pieces of a specification link. *)
Definition link_open : string :=
  "<a href=" +:+ dq.

Definition link_mid : string :=
  dq +:+ " target=" +:+ dq +:+ "_blank" +:+ dq +:+ " style=" +:+ dq +:+ "color: #667eea; text-decoration: none; font-size: 11px;" +:+ dq +:+ ">📋 ".

Definition link_close : string :=
  "</a>".

(** The pieces of the error notice. *)
Definition error_open : string :=
  "
      <div style=" +:+ dq +:+ "text-align: center; padding: 20px; color: #dc3545;" +:+ dq +:+ ">
        <div>⚠️ Error</div>
        <div style=" +:+ dq +:+ "font-size: 12px; margin-top: 8px;" +:+ dq +:+ ">".

Definition error_close : string :=
  "</div>
      </div>
    ".

(** A conditional part of the template: its markup when the value is
    there, nothing otherwise. *)
Definition option_block (before : string) (x : option string) (after : string)
  : string :=
  match x with
  | Some text => before +:+ text +:+ after
  | None => ""
  end.

Definition link_html (l : string * string) : string :=
  link_open +:+ fst l +:+ link_mid +:+ snd l +:+ link_close.

(** The links joined by a space, inside their block; nothing when no link
    is left. *)
Definition links_block (links : list (string * string)) : string :=
  match links with
  | [] => ""
  | _ => links_open +:+ JS.join " " (List.map link_html links) +:+ links_close
  end.

(** The string [createFeatureCard] returns: the template with the card's
    values interpolated as they are. *)
Definition card_html (c : Card) : string :=
  card_head +:+ card_name c +:+
  card_after_name +:+ card_id c +:+
  card_after_id +:+ card_statusClass c +:+
  card_after_class +:+ card_statusLabel c +:+
  card_after_label +:+ card_description c +:+
  card_after_description +:+
  option_block newly_open (card_newly c) date_close +:+
  card_gap +:+
  option_block widely_open (card_widely c) date_close +:+
  card_gap +:+
  links_block (card_links c) +:+
  card_foot.

Definition error_html (message : string) : string :=
  error_open +:+ message +:+ error_close.

(** *** The panel's elements *)

(** An element's inline [style.display]. *)
Inductive Display := unset | block | none.

(** Content of [detectedCount]: the count, the name chips and the
    "+n more" note. *)
Record Summary := mkSummary {
  unique_count : nat;
  chips : list string;
  more : option nat
}.

(** Modelled from the spec: the markup of the panel is not among the
    sources.  The result container is taken to be a block element of the
    body, empty when the panel loads.  Its content is the markup last
    assigned to its [innerHTML], followed by the elements appended since
    (the footers, given by their text). *)
Record View := mkView {
  searchInput_value : string;
  results_display : Display;
  results_innerHTML : string;
  results_appended : list string;
  loadingState_display : Display;
  noResults_display : Display;
  detectedFeatures_display : Display;
  detectedCount_content : option Summary
}.

(** The panel as loaded: empty search field, no inline styles set. *)
Definition fresh : View := mkView "" unset "" [] unset unset unset None.

Definition showLoading (v : View) : View :=
  mkView (searchInput_value v) none (results_innerHTML v) (results_appended v) block none
         (detectedFeatures_display v) (detectedCount_content v).

Definition hideLoading (v : View) : View :=
  mkView (searchInput_value v) (results_display v) (results_innerHTML v) (results_appended v) none
         (noResults_display v) (detectedFeatures_display v)
         (detectedCount_content v).

Definition showNoResults (v : View) : View :=
  mkView (searchInput_value v) none (results_innerHTML v) (results_appended v)
         (loadingState_display v) block
         (detectedFeatures_display v) (detectedCount_content v).

Definition showError (message : string) (v : View) : View :=
  mkView (searchInput_value v) block (error_html message) []
         (loadingState_display v) none
         (detectedFeatures_display v) (detectedCount_content v).

Definition displayResults (B : Builtins) (features : list CatalogFeature)
           (isUserSearch : bool) (v : View) : View :=
  if (length features =? 0)%nat then showNoResults v
  else
    let limitedFeatures := firstn 8 features in
    let markup :=
      JS.join "" (List.map (fun f => card_html (createFeatureCard B f))
                           limitedFeatures) in
    let moreMessage :=
      if (8 <? length features)%nat
      then ["Showing " +:+ JS.toString (length limitedFeatures)
            +:+ " of " +:+ JS.toString (length features)
            +:+ " results"]
      else [] in
    mkView (searchInput_value v) block markup moreMessage
           (loadingState_display v) none
           (detectedFeatures_display v) (detectedCount_content v).

(** [new Map(entries)]: a later entry with a key already present replaces
    the value and keeps the key's place. *)
Fixpoint map_set (k : string) (f : Scanner.Feature)
         (m : list (string * Scanner.Feature)) : list (string * Scanner.Feature) :=
  match m with
  | [] => [(k, f)]
  | kv :: rest =>
      if String.eqb (fst kv) k then (k, f) :: rest
      else kv :: map_set k f rest
  end.

Definition uniqueFeatures (features : list Scanner.Feature) : list Scanner.Feature :=
  List.map snd (fold_left (fun m f => map_set (Scanner.id f) f m) features []).

Definition chip (f : Scanner.Feature) : string :=
  if JS.truthy (Scanner.name f) then Scanner.name f else Scanner.id f.

Definition displayDetectedFeatures (features : list Scanner.Feature) (v : View) : View :=
  let u := uniqueFeatures features in
  mkView (searchInput_value v) (results_display v) (results_innerHTML v) (results_appended v)
         (loadingState_display v) (noResults_display v) block
         (Some (mkSummary (length u) (List.map chip (firstn 3 u))
                          (if (3 <? length u)%nat then Some (length u - 3) else None))).

Definition hideDetectedFeatures (v : View) : View :=
  mkView (searchInput_value v) (results_display v) (results_innerHTML v) (results_appended v)
         (loadingState_display v) (noResults_display v) none
         (detectedCount_content v).

(** Modelled from the spec: the markup of the panel is not among the
    sources, and the spec names the element a text search field.  A text
    field takes an assigned value with its line breaks (U+000A and U+000D)
    removed. *)
Definition is_newline (c : ascii) : bool :=
  match nat_of_ascii c with
  | 10 | 13 => true
  | _ => false
  end.

Fixpoint strip_newlines (s : string) : string :=
  match s with
  | EmptyString => EmptyString
  | String c s' =>
      if is_newline c then strip_newlines s' else String c (strip_newlines s')
  end.

Fixpoint has_newline (s : string) : bool :=
  match s with
  | EmptyString => false
  | String c s' => is_newline c || has_newline s'
  end.

(** [this.searchInput.value = s] *)
Definition set_searchInput (s : string) (v : View) : View :=
  mkView (strip_newlines s) (results_display v) (results_innerHTML v) (results_appended v)
         (loadingState_display v) (noResults_display v)
         (detectedFeatures_display v) (detectedCount_content v).

(** The card elements the result container holds: its elements of class
    [feature-card] (the appended footers have no class). *)
Definition card_elements (v : View) : option nat :=
  HTML.elements_of_class "feature-card" (results_innerHTML v).

(** The cards the panel shows: those of the result container, none while
    it is hidden. *)
Definition shown_cards (v : View) : option nat :=
  match results_display v with
  | none => Some 0
  | _ => card_elements v
  end.

(** No character of [s] has the code [n]. *)
Fixpoint lacks (n : nat) (s : string) : bool :=
  match s with
  | EmptyString => true
  | String c s' => negb (nat_of_ascii c =? n)%nat && lacks n s'
  end.

(** Text that holds no tag: it has no [<]. *)
Definition text_ok (s : string) : bool := lacks 60 s.

(** An address that stays inside its quoted attribute: it has no
    quotation mark. *)
Definition href_ok (s : string) : bool := lacks 34 s.

(** A status class that stays one class name: no quotation mark, no
    ampersand, no white space. *)
Definition class_ok (s : string) : bool :=
  lacks 34 s && lacks 38 s && DOM.no_whitespace s.

Definition option_ok (x : option string) : bool :=
  match x with Some s => text_ok s | None => true end.

(** The values of a card hold no markup. *)
Definition plain_card (c : Card) : bool :=
  text_ok (card_name c) && text_ok (card_id c) &&
  class_ok (card_statusClass c) &&
  text_ok (card_statusLabel c) && text_ok (card_description c) &&
  option_ok (card_newly c) && option_ok (card_widely c) &&
  forallb (fun l => href_ok (fst l) && text_ok (snd l)) (card_links c).

(** *** Asynchronous calls

    An [async] method runs synchronously up to its first [await]; what
    follows the [await] runs in a later turn, once the awaited request is
    settled.  Each [await] of the class is a constructor of [Cont]. *)

Inductive Request :=
| StorageGet (key : string)          (* chrome.storage.session.get *)
| StorageRemove (key : string)       (* chrome.storage.session.remove *)
| TabsQuery                          (* chrome.tabs.query, active tab *)
| TabsSendMessage (tabId : Z)        (* GET_DETECTED_FEATURES *)
| Fetch (url : string)
| ReadJson.                          (* response.json() *)

Inductive Answer :=
| Rejected                           (* rejection, or lastError set *)
| StorageItems (v : option Coordinator.StorageValue)
| Tabs (tab : option Z)              (* the first tab of the result *)
| MessageResponse (response : option (option (list Scanner.Feature)))
| HttpResponse (ok : bool) (status : nat)
| JsonBody (data : option (list CatalogFeature)).

Inductive Cont :=
| K_checkPendingSearch               (* after storage.session.get *)
| K_tabs                             (* after tabs.query *)
| K_message                          (* the sendMessage callback *)
| K_fetch (isUserSearch : bool)      (* after fetch *)
| K_json (isUserSearch : bool).      (* after response.json() *)

(** What a turn does besides changing the panel, in order. *)
Inductive Action :=
| Await (r : Request) (k : Cont)     (* request issued, continuation parked *)
| Fire (r : Request)                 (* request issued, result not awaited *)
| SearchFeatures (query : string) (isUserSearch : bool).  (* method entered *)

Record World := mkWorld {
  view : View;
  storage : gmap string Coordinator.StorageValue
}.

Definition Async := World -> World * list Action.

Definition ret : Async := fun w => (w, []).

Definition andThen (a b : Async) : Async :=
  fun w => let '(w1, l1) := a w in
           let '(w2, l2) := b w1 in
           (w2, l1 ++ l2).
Infix ">>" := andThen (at level 61, left associativity).

Definition lift (f : View -> View) : Async :=
  fun w => (mkWorld (f (view w)) (storage w), []).

Definition emit (a : Action) : Async := fun w => (w, [a]).

(** The removal is not awaited; the store applies it when it is requested. *)
Definition storage_remove (key : string) : Async :=
  fun w => (mkWorld (view w) (delete key (storage w)), [Fire (StorageRemove key)]).

Definition hex_digit (n : nat) : ascii :=
  if (n <? 10)%nat then ascii_of_nat (48 + n) else ascii_of_nat (55 + n).

Definition percent (byte : nat) : string :=
  String "%" (String (hex_digit (byte / 16)) (String (hex_digit (byte mod 16)) "")).

Definition unreserved (c : ascii) : bool :=
  RegExp.is_word c ||
  existsb (Ascii.eqb c) ["-"; "."; "!"; "~"; "*"; "'"; "("; ")"]%char.

(** [encodeURIComponent]: unreserved characters are kept, the others are
    written as the escaped bytes of their UTF-8 encoding. *)
Fixpoint encodeURIComponent (s : string) : string :=
  match s with
  | EmptyString => EmptyString
  | String c s' =>
      let n := nat_of_ascii c in
      (if unreserved c then String c ""
       else if (n <? 128)%nat then percent n
       else percent (192 + n / 64) +:+ percent (128 + n mod 64))
      +:+ encodeURIComponent s'
  end.

Definition api_url (query : string) : string :=
  "https://api.webstatus.dev/v1/features?q=" +:+ encodeURIComponent query.

(** [searchFeatures(query, isUserSearch)], up to its first [await]. *)
Definition searchFeatures (query : string) (isUserSearch : bool) : Async :=
  emit (SearchFeatures query isUserSearch) >>
  lift showLoading >>
  emit (Await (Fetch (api_url query)) (K_fetch isUserSearch)).

Definition handleSearch : Async :=
  fun w =>
    let query := JS.trim (searchInput_value (view w)) in
    if JS.truthy query
    then searchFeatures ("name:" +:+ query +:+ " OR id:" +:+ query) true w
    else (w, []).

Definition checkPendingSearch : Async :=
  emit (Await (StorageGet "pendingSearch") K_checkPendingSearch).

Definition loadDetectedFeatures : Async :=
  emit (Await TabsQuery K_tabs).

(** [init()], after the listeners are attached. *)
Definition init : Async :=
  checkPendingSearch >>
  loadDetectedFeatures >>
  searchFeatures "baseline_status:newly" false.

Definition value_truthy (v : Coordinator.StorageValue) : bool :=
  match v with
  | Coordinator.SVString s => JS.truthy s
  | Coordinator.SVSnapshot _ _ _ _ => true
  end.

(** The string an input's [value] takes when it is assigned [v]. *)
Definition value_string (v : Coordinator.StorageValue) : string :=
  match v with
  | Coordinator.SVString s => s
  | Coordinator.SVSnapshot _ _ _ _ => "[object Object]"
  end.

Definition search_failed : string := "Failed to search features. Please try again.".

(** The rest of each method after its [await], given the answer. *)
Definition resume (B : Builtins) (k : Cont) (a : Answer) : Async :=
  match k with
  | K_checkPendingSearch =>
      match a with
      | StorageItems (Some v) =>
          if value_truthy v then
            lift (set_searchInput (value_string v)) >>
            handleSearch >>
            storage_remove "pendingSearch"
          else ret
      | _ => ret
      end
  | K_tabs =>
      match a with
      | Tabs (Some tabId) => emit (Await (TabsSendMessage tabId) K_message)
      | _ => lift hideDetectedFeatures
      end
  | K_message =>
      match a with
      | MessageResponse (Some (Some features)) =>
          if (0 <? length features)%nat
          then lift (displayDetectedFeatures features)
          else lift hideDetectedFeatures
      | _ => lift hideDetectedFeatures
      end
  | K_fetch isUserSearch =>
      match a with
      | HttpResponse true _ => emit (Await ReadJson (K_json isUserSearch))
      | _ => lift (showError search_failed) >> lift hideLoading
      end
  | K_json isUserSearch =>
      match a with
      | JsonBody data =>
          lift (displayResults B (match data with Some l => l | None => [] end)
                               isUserSearch) >>
          lift hideLoading
      | _ => lift (showError search_failed) >> lift hideLoading
      end
  end.

(** *** The event loop *)

Inductive Event :=
| StorageReply (rid : nat)           (* the store answers a get *)
| Settle (rid : nat) (a : Answer)    (* a request is settled from outside *)
| Click                              (* on the search button *)
| KeyPress (key : string).           (* in the search field *)

Record State := mkState {
  world : World;
  pending : list (nat * (Request * Cont));
  next_id : nat;
  log : list Action
}.

Fixpoint park (n : nat) (acts : list Action) : list (nat * (Request * Cont)) :=
  match acts with
  | [] => []
  | Await r k :: rest => (n, (r, k)) :: park (S n) rest
  | _ :: rest => park n rest
  end.

(** Run a synchronous turn. *)
Definition turn (a : Async) (st : State) : State :=
  let '(w, acts) := a (world st) in
  mkState w (pending st ++ park (next_id st) acts)
          (next_id st + length (park (next_id st) acts))
          (log st ++ acts).

Definition lookup_pending (rid : nat) (st : State) : option (Request * Cont) :=
  match List.find (fun p => Nat.eqb (fst p) rid) (pending st) with
  | Some p => Some (snd p)
  | None => None
  end.

Definition unpark (rid : nat) (st : State) : State :=
  mkState (world st)
          (List.filter (fun p => negb (Nat.eqb (fst p) rid)) (pending st))
          (next_id st) (log st).

(** The answers the outside can give to a request. *)
Definition accepts (r : Request) (a : Answer) : bool :=
  match r, a with
  | StorageGet _, Rejected => true
  | TabsQuery, (Rejected | Tabs _) => true
  | TabsSendMessage _, (Rejected | MessageResponse _) => true
  | Fetch _, (Rejected | HttpResponse _ _) => true
  | ReadJson, (Rejected | JsonBody _) => true
  | _, _ => false
  end.

Definition step (B : Builtins) (ev : Event) (st : State) : State :=
  match ev with
  | StorageReply rid =>
      match lookup_pending rid st with
      | Some (StorageGet key, k) =>
          turn (resume B k (StorageItems (storage (world st) !! key)))
               (unpark rid st)
      | _ => st
      end
  | Settle rid a =>
      match lookup_pending rid st with
      | Some (r, k) =>
          if accepts r a then turn (resume B k a) (unpark rid st) else st
      | None => st
      end
  | Click => turn handleSearch st
  | KeyPress key =>
      if String.eqb key "Enter" then turn handleSearch st else st
  end.

Definition exec (B : Builtins) (evs : list Event) (st : State) : State :=
  fold_left (fun s ev => step B ev s) evs st.

(** Opening the panel: [new BaselinePopup()] on the session store. *)
Definition open (store : gmap string Coordinator.StorageValue) : State :=
  turn init (mkState (mkWorld fresh store) [] 0 []).

(** *** Vocabulary for the startup properties *)

Definition input (st : State) : string := searchInput_value (view (world st)).
Definition store (st : State) : gmap string Coordinator.StorageValue :=
  storage (world st).

(** What a fresh panel has logged when the constructor returns. *)
Definition startup_log : list Action :=
  [Await (StorageGet "pendingSearch") K_checkPendingSearch;
   Await TabsQuery K_tabs;
   SearchFeatures "baseline_status:newly" false;
   Await (Fetch (api_url "baseline_status:newly")) (K_fetch false)].

Definition is_user_search (a : Action) : bool :=
  match a with SearchFeatures _ true => true | _ => false end.

Definition is_default_search (a : Action) : bool :=
  match a with
  | SearchFeatures q false => String.eqb q "baseline_status:newly"
  | _ => false
  end.

(** Position of the first action satisfying [p]. *)
Fixpoint index_where (p : Action -> bool) (l : list Action) : option nat :=
  match l with
  | [] => None
  | a :: rest =>
      if p a then Some 0
      else match index_where p rest with
           | Some n => Some (S n)
           | None => None
           end
  end.

(** The query [handleSearch] builds from the text of the search field. *)
Definition user_query (text : string) : string :=
  "name:" +:+ JS.trim text +:+ " OR id:" +:+ JS.trim text.

(** The request an event settles. *)
Definition targets (ev : Event) : option nat :=
  match ev with
  | StorageReply rid => Some rid
  | Settle rid _ => Some rid
  | _ => None
  end.

Definition is_check (k : Cont) : bool :=
  match k with K_checkPendingSearch => true | _ => false end.

(** Claim C5 as stated: a search triggered by a pending value is made
    before the default search. *)
Definition pending_search_before_default (l : list Action) : Prop :=
  match index_where is_user_search l, index_where is_default_search l with
  | Some i, Some j => i < j
  | Some _, None => False
  | None, _ => True
  end.

(** The actions park no continuation of [checkPendingSearch]. *)
Definition no_new_checks (acts : list Action) : Prop :=
  forall r k, Await r k ∈ acts -> is_check k = false.

(** The actions enter no search. *)
Definition no_search (acts : list Action) : Prop :=
  forall q b, SearchFeatures q b ∉ acts.

(** The only parked continuation of [checkPendingSearch] is request 0,
    the read of [pendingSearch]. *)
Definition checks_ok (st : State) : Prop :=
  forall p, p ∈ pending st -> is_check (snd (snd p)) = true ->
            p = (0, (StorageGet "pendingSearch", K_checkPendingSearch)).

Definition no_checks (st : State) : Prop :=
  forall p, p ∈ pending st -> is_check (snd (snd p)) = false.

Definition no_user_search (l : list Action) : Prop :=
  forall q, SearchFeatures q true ∉ l.

(** Claim C6 as stated, for the turn in which the store replies. *)
Definition pending_value_consumed (B : Builtins)
           (s0 : gmap string Coordinator.StorageValue) (v : string) : Prop :=
  s0 !! "pendingSearch" = Some (Coordinator.SVString v) ->
  let st := exec B [StorageReply 0] (open s0) in
  input st = v /\
  SearchFeatures (user_query v) true ∈ log st /\
  store st !! "pendingSearch" = None.

(** *** Vocabulary for the panel's invariants *)

(** Exactly one of the loading indicator, the result container and the
    empty-state view is shown; the other two are hidden. *)
Definition one_visible (v : View) : Prop :=
  (loadingState_display v = block /\ results_display v = none /\
   noResults_display v = none) \/
  (loadingState_display v = none /\ results_display v = block /\
   noResults_display v = none) \/
  (loadingState_display v = none /\ results_display v = none /\
   noResults_display v = block).

(** The markup of the cards of a list of catalog features. *)
Definition cards_markup (B : Builtins) (fs : list CatalogFeature) : string :=
  JS.join "" (List.map (fun f => card_html (createFeatureCard B f)) fs).

(** The values the cards of the features interpolate hold no markup. *)
Definition plain_features (B : Builtins) (fs : list CatalogFeature) : Prop :=
  Forall (fun f => plain_card (createFeatureCard B f) = true) fs.


(** The result container holds nothing, the error notice, or the markup of
    the cards of at most 8 catalog features; at most one footer is
    appended, and only after the cards of exactly 8 features; where the
    values of those features hold no markup, the container has one card
    element for each. *)
Definition tidy (B : Builtins) (v : View) : Prop :=
  (results_innerHTML v = "" /\ results_appended v = []) \/
  (exists m, results_innerHTML v = error_html m /\ results_appended v = []) \/
  (exists fs,
      length fs <= 8 /\
      results_innerHTML v = cards_markup B fs /\
      length (results_appended v) <= 1 /\
      (results_appended v <> [] -> length fs = 8) /\
      (plain_features B fs -> card_elements v = Some (length fs))).

(** Every request for a URL in the actions goes to the catalog, for a query
    whose search is entered in the same actions; none is fired unawaited. *)
Definition catalog_only (l : list Action) : Prop :=
  (forall url k, Await (Fetch url) k ∈ l ->
     exists q b, url = api_url q /\ k = K_fetch b /\ SearchFeatures q b ∈ l) /\
  (forall url, Fire (Fetch url) ∉ l).

End Panel.

(** ** From the Scanner to the Coordinator *)

Module Wire.

(** A detected feature as the Coordinator receives it: the message carries
    the four fields of the object, and no [baseline]. *)
Definition to_message (f : Scanner.Feature) : Coordinator.Feature :=
  Coordinator.mkFeature (Scanner.id f) (Scanner.name f) (Scanner.type f)
                        (Scanner.evidence f) None.

(** The [FEATURES_DETECTED] message for a report. *)
Definition message (r : Scanner.Report) : Coordinator.Message :=
  Coordinator.FEATURES_DETECTED
    (Some (List.map to_message (Scanner.features r)))
    (Scanner.url r) (Scanner.page_title r).

End Wire.

(** ** Sample data *)

Module Fixtures.

Import DOM.

Definition plain : ComputedStyle := mkComputedStyle "block" "none" "none".

Definition el (tag : string) (cs : ComputedStyle) (ch : list Tree) : Tree :=
  Node (mkElement tag [] (Some "") cs "") ch.

(** A page whose only sheet is cross-origin and whose [div] is blurred. *)
Definition blurred_page : Document :=
  mkDocument
    (el "HTML" plain
        [el "HEAD" (mkComputedStyle "none" "none" "none") [];
         el "BODY" plain
            [el "DIV" (mkComputedStyle "block" "none" "blur(4px)") []]])
    [None] "https://example.org/" "Example".

Definition window : Window :=
  mkWindow true true true true true true true true true true true true (Some []).

(** A page with one readable sheet, an inline script, a grid container and
    a [details] element. *)
Definition sample_page : Document :=
  mkDocument
    (el "HTML" plain
        [el "HEAD" (mkComputedStyle "none" "none" "none")
            [el "STYLE" (mkComputedStyle "none" "none" "none") [];
             Node (mkElement "SCRIPT" [] (Some "")
                     (mkComputedStyle "none" "none" "none")
                     "const f = async () => { const r = await fetch('/api'); return r?.ok ?? false; };")
                  []];
         el "BODY" plain
            [el "DIV" (mkComputedStyle "grid" "none" "none") [];
             el "DETAILS" plain []]])
    [Some [".grid { display: grid; gap: 8px; }"]; None]
    "https://example.org/" "Example".

(** The [k]-th draw picks the [k]-th element. *)
Definition draws_each : nat -> nat := fun k => k.

(** Every draw picks the root; every draw picks the fourth element. *)
Definition draws_root : nat -> nat := fun _ => 0.
Definition draws_div : nat -> nat := fun _ => 3.

(** A page on which an earlier request has highlighted the grid: the
    shared style rule is in the head and the [div] carries the marker. *)
Definition highlighted_page : Document :=
  mkDocument
    (el "HTML" plain
        [Node (mkElement "HEAD" [] (Some "") (mkComputedStyle "none" "none" "none") "")
              [Node (Scanner.style_element (mkComputedStyle "none" "none" "none")) []];
         el "BODY" plain
            [Node (mkElement "DIV"
                             [("class", "baseline-highlight");
                              ("data-baseline-feature", "CSS Grid")]
                             (Some "")
                             (mkComputedStyle "grid" "none" "none") "") []]])
    [] "https://example.org/" "Example".

(** Built-ins for examples: no link parses, dates are shown as given, no
    status names a property of the prototype. *)
Definition builtins : Panel.Builtins :=
  Panel.mkBuiltins (fun _ => None) (fun s => s) (fun _ => None).

Definition catalog_entry (n : string) : Panel.CatalogFeature :=
  Panel.mkCatalogFeature (Some n) (Some n) None None.

(** A session store holding the pending search "grid". *)
Definition store_grid : gmap string Coordinator.StorageValue :=
  <["pendingSearch" := Coordinator.SVString "grid"]> ∅.

(** The session store after the context-menu action on a selection that
    is a single space: the Coordinator stores the trimmed text. *)
Definition store_blank : gmap string Coordinator.StorageValue :=
  Coordinator.storage
    (Coordinator.onClicked "checkBaseline" (Some " ") (Coordinator.mkState ∅ [])).

(** A page whose body holds an element from a foreign namespace, with a
    [style] attribute and no [style] property, before a [div] with an
    inline grid. *)
Definition foreign_page : Document :=
  mkDocument
    (el "HTML" plain
        [el "HEAD" (mkComputedStyle "none" "none" "none") [];
         el "BODY" plain
            [Node (mkElement "x:note" [("style", "color: red")] None plain "") [];
             Node (mkElement "DIV" [("style", "display: grid")]
                             (Some "display: grid;")
                             (mkComputedStyle "grid" "none" "none") "") []]])
    [] "https://example.org/" "Example".

(** The same page with an ordinary [span] in the place of the foreign
    element. *)
Definition inline_grid_page : Document :=
  mkDocument
    (el "HTML" plain
        [el "HEAD" (mkComputedStyle "none" "none" "none") [];
         el "BODY" plain
            [Node (mkElement "SPAN" [("style", "color: red")]
                             (Some "color: red;") plain "") [];
             Node (mkElement "DIV" [("style", "display: grid")]
                             (Some "display: grid;")
                             (mkComputedStyle "grid" "none" "none") "") []]])
    [] "https://example.org/" "Example".

(** An environment without [fetch]. *)
Definition window_without_fetch : Window :=
  mkWindow true true true false true true true true true true true true (Some []).

(** An environment where [customElements.getNames] cannot be called. *)
Definition window_without_names : Window :=
  mkWindow true true true true true true true true true true true true None.

End Fixtures.

(** * Properties *)

(** ** Pattern matching *)

Section RegExpFacts.

Import RegExp.

Lemma append_cons c s1 s2 : String c s1 +:+ s2 = String c (s1 +:+ s2).
Proof. reflexivity. Qed.

Lemma append_nil_l s : "" +:+ s = s.
Proof. reflexivity. Qed.

Lemma append_eq_nil s1 s2 : s1 +:+ s2 = "" -> s1 = "" /\ s2 = "".
Proof. destruct s1; [done|]. rewrite append_cons. discriminate. Qed.

Lemma nullable_matches r : nullable r = true -> matches r "".
Proof.
  induction r; simpl; intros H; try discriminate H.
  - constructor.
  - apply andb_true_iff in H as [H1 H2].
    change "" with ("" +:+ ""). constructor; auto.
  - apply orb_true_iff in H as [H|H]; [apply m_alt_l | apply m_alt_r]; auto.
  - constructor.
Qed.

Lemma matches_nullable r s : matches r s -> s = "" -> nullable r = true.
Proof.
  induction 1 as [| | | |r1 r2 s1 s2 _ IH1 _ IH2|r1 r2 s _ IH|r1 r2 s _ IH| |];
    intros E; simpl; try discriminate E; try done.
  - apply append_eq_nil in E as [-> ->]. by rewrite IH1, IH2.
  - by rewrite IH.
  - rewrite IH by done. apply orb_true_r.
Qed.

Lemma mkAlt_spec r1 r2 s : matches (mkAlt r1 r2) s <-> matches r1 s \/ matches r2 s.
Proof.
  split.
  - destruct r1, r2; simpl; intros H; auto; inversion H; subst; auto.
  - intros [H|H]; destruct r1, r2; simpl; auto using matches;
      inversion H.
Qed.

Lemma mkSeq_spec r1 r2 s :
  matches (mkSeq r1 r2) s <->
  exists s1 s2, s = s1 +:+ s2 /\ matches r1 s1 /\ matches r2 s2.
Proof.
  split.
  - destruct r1; simpl; intros H.
    1: inversion H.
    1: exists "", s; split; [done|]; split; [constructor | done].
    all: inversion H; subst; eexists _, _; split; [reflexivity | by split].
  - intros (s1 & s2 & -> & H1 & H2).
    destruct r1; simpl; try (by constructor); inversion H1; subst. done.
Qed.

Lemma deriv_sound c r s : matches (deriv c r) s -> matches r (String c s).
Proof.
  revert s. induction r as [| |c'| |negated items|r1 IH1 r2 IH2|r1 IH1 r2 IH2|r1 IH1];
    simpl; intros s H.
  - inversion H.
  - inversion H.
  - destruct (Ascii.eqb c c') eqn:E; [|inversion H].
    apply Ascii.eqb_eq in E as ->. inversion H; subst. constructor.
  - destruct (dot_matches c) eqn:E; [|inversion H].
    inversion H; subst. by constructor.
  - destruct (step_char negated items c) eqn:E; [|inversion H].
    inversion H; subst. by constructor.
  - apply mkAlt_spec in H as [H|H].
    + apply mkSeq_spec in H as (s1 & s2 & -> & H1 & H2).
      change (String c (s1 +:+ s2)) with (String c s1 +:+ s2).
      constructor; auto.
    + destruct (nullable r1) eqn:E; [|inversion H].
      change (String c s) with ("" +:+ String c s).
      constructor; [by apply nullable_matches | auto].
  - apply mkAlt_spec in H as [H|H]; [apply m_alt_l | apply m_alt_r]; auto.
  - apply mkSeq_spec in H as (s1 & s2 & -> & H1 & H2).
    change (String c (s1 +:+ s2)) with (String c s1 +:+ s2).
    constructor; auto.
Qed.

Lemma deriv_complete c r s0 :
  matches r s0 -> forall s, s0 = String c s -> matches (deriv c r) s.
Proof.
  induction 1 as [|c'|c'|negated items c'|r1 r2 s1 s2 H1 IH1 H2 IH2
                  |r1 r2 s0 _ IH|r1 r2 s0 _ IH|r|r s1 s2 H1 IH1 H2 IH2];
    intros s E; simpl.
  - discriminate E.
  - injection E as -> <-. rewrite Ascii.eqb_refl. constructor.
  - injection E as -> <-. rewrite H. constructor.
  - injection E as -> <-. rewrite H. constructor.
  - apply mkAlt_spec. destruct s1 as [|c1 s1]; [rewrite append_nil_l in E | rewrite append_cons in E].
    + right. rewrite (matches_nullable _ _ H1 eq_refl). by apply IH2.
    + injection E as -> <-. left. apply mkSeq_spec.
      exists s1, s2. split; [done|]. split; [by apply IH1 | done].
  - apply mkAlt_spec. left. by apply IH.
  - apply mkAlt_spec. right. by apply IH.
  - discriminate E.
  - destruct s1 as [|c1 s1]; [rewrite append_nil_l in E | rewrite append_cons in E].
    + by apply IH2.
    + injection E as -> <-. apply mkSeq_spec.
      exists s1, s2. split; [done|]. split; [by apply IH1 | done].
Qed.

Lemma prefix_match_spec r s :
  prefix_match r s = true <-> exists s1 s2, s = s1 +:+ s2 /\ matches r s1.
Proof.
  revert r. induction s as [|c s IH]; intros r; simpl.
  - rewrite orb_false_r. split.
    + intros H. exists "", "". split; [done | by apply nullable_matches].
    + intros (s1 & s2 & E & H). symmetry in E.
      apply append_eq_nil in E as [-> ->]. by apply (matches_nullable r "").
  - rewrite orb_true_iff, IH. split.
    + intros [H | (s1 & s2 & -> & H)].
      * exists "", (String c s). split; [done | by apply nullable_matches].
      * exists (String c s1), s2. split; [done | by apply deriv_sound].
    + intros (s1 & s2 & E & H). destruct s1 as [|c1 s1]; [rewrite append_nil_l in E | rewrite append_cons in E].
      * left. by apply (matches_nullable r "").
      * injection E as <- ->. right. exists s1, s2.
        split; [done | by apply (deriv_complete c r (String c s1))].
Qed.

(** [test] finds a pattern exactly when some substring is in its
    language. *)
Lemma test_spec r s :
  test r s = true <->
  exists s0 s1 s2, s = s0 +:+ (s1 +:+ s2) /\ matches r s1.
Proof.
  induction s as [|c s IH]; simpl.
  - rewrite orb_false_r, orb_false_r. split.
    + intros H. exists "", "", "". split; [done | by apply nullable_matches].
    + intros (s0 & s1 & s2 & E & H). symmetry in E.
      apply append_eq_nil in E as [-> E]. apply append_eq_nil in E as [-> ->].
      by apply (matches_nullable r "").
  - rewrite orb_true_iff, IH.
    change (nullable r || prefix_match (deriv c r) s)
      with (prefix_match r (String c s)).
    rewrite prefix_match_spec. split.
    + intros [(s1 & s2 & E & H) | (s0 & s1 & s2 & -> & H)].
      * by exists "", s1, s2.
      * by exists (String c s0), s1, s2.
    + intros (s0 & s1 & s2 & E & H). destruct s0 as [|c0 s0]; [rewrite append_nil_l in E | rewrite append_cons in E].
      * left. by exists s1, s2.
      * injection E as <- ->. right. by exists s0, s1, s2.
Qed.

Example test_grid :
  test Scanner.re_grid ".a { display:  grid; }" = true /\
  test Scanner.re_grid ".a { display: block; }" = false.
Proof. by vm_compute. Qed.

Example test_subgrid :
  test Scanner.re_subgrid "grid-template-columns: subgrid" = true /\
  test Scanner.re_custom_use "color: var(--main-color)" = true /\
  test Scanner.re_custom_def "color: red" = false.
Proof. by vm_compute. Qed.

Example test_syntax :
  test Scanner.re_arrow "x => x + 1" = true /\
  test Scanner.re_template "let s = `a${b}`;" = true /\
  test Scanner.re_destructuring "const { a, b } = o;" = true /\
  test Scanner.re_optional_chaining "a ? .5 : b" = false /\
  test Scanner.re_async "await f()" = true /\
  test Scanner.re_async "awaited(f)" = false.
Proof. by vm_compute. Qed.

End RegExpFacts.

(** ** The detected-feature set *)

Section AddFeature.

Import Scanner.

Lemma has_id_true i f : has_id i f = true <-> id f = i.
Proof. unfold has_id. apply String.eqb_eq. Qed.

Lemma has_id_false i f : has_id i f = false <-> id f <> i.
Proof. unfold has_id. apply String.eqb_neq. Qed.

Lemma find_has_id_None i s : List.find (has_id i) s = None <-> i ∉ ids s.
Proof.
  induction s as [|f s IH]; simpl.
  - split; [intros _; apply not_elem_of_nil | done].
  - destruct (has_id i f) eqn:E.
    + apply has_id_true in E. split; [done|].
      intros H. exfalso. apply H. subst. apply elem_of_cons. by left.
    + apply has_id_false in E. rewrite IH. rewrite not_elem_of_cons.
      split; [intros H; split; [congruence | done] | by intros [_ H]].
Qed.

Lemma find_has_id_Some i s f :
  List.find (has_id i) s = Some f -> f ∈ s /\ id f = i.
Proof.
  induction s as [|g s IH]; simpl; [done|].
  destruct (has_id i g) eqn:E.
  - intros [= <-]. apply has_id_true in E. split; [apply elem_of_cons; by left | done].
  - intros H. destruct (IH H) as [Hin Hid]. split; [apply elem_of_cons; by right | done].
Qed.

Lemma ids_set_evidence i ev s : ids (set_evidence i ev s) = ids s.
Proof.
  induction s as [|f s IH]; simpl; [done|].
  destruct (has_id i f); simpl; [done | by rewrite <- IH].
Qed.

Lemma ids_addFeature i n t ev s :
  ids (addFeature i n t ev s) =
  match List.find (has_id i) s with Some _ => ids s | None => ids s ++ [i] end.
Proof.
  unfold addFeature. destruct (List.find (has_id i) s).
  - apply ids_set_evidence.
  - unfold ids. by rewrite map_app.
Qed.

(** Adding a feature adds its id, and no other, to the set's ids. *)
Lemma elem_of_ids_addFeature j i n t ev s :
  j ∈ ids (addFeature i n t ev s) <-> j = i \/ j ∈ ids s.
Proof.
  rewrite ids_addFeature. destruct (List.find (has_id i) s) as [f|] eqn:E.
  - apply find_has_id_Some in E as [Hin Hid].
    split; [by right | intros [->|H]; [|done]].
    subst. unfold ids. apply list_elem_of_fmap. by exists f.
  - rewrite elem_of_app, list_elem_of_singleton. tauto.
Qed.

Lemma NoDup_ids_addFeature i n t ev s :
  NoDup (ids s) -> NoDup (ids (addFeature i n t ev s)).
Proof.
  intros H. rewrite ids_addFeature.
  destruct (List.find (has_id i) s) eqn:E; [done|].
  apply find_has_id_None in E. apply NoDup_app. split; [done|].
  split; [|apply NoDup_singleton].
  intros x Hx Hx'. apply list_elem_of_singleton in Hx'. by subst.
Qed.

(** Where the ids are distinct, [set_evidence] rewrites the entry with id
    [i] and leaves the others. *)
Lemma elem_of_set_evidence i ev s f' :
  NoDup (ids s) -> f' ∈ set_evidence i ev s ->
  (f' ∈ s /\ id f' <> i) \/
  (exists f, f ∈ s /\ id f = i /\ f' = mkFeature (id f) (name f) (type f) ev).
Proof.
  induction s as [|g s IH]; simpl; [intros _ H; by apply elem_of_nil in H|].
  intros Hnd. apply NoDup_cons in Hnd as [Hg Hnd].
  destruct (has_id i g) eqn:E.
  - apply has_id_true in E. intros H. apply elem_of_cons in H as [->|H].
    + right. exists g. split; [apply elem_of_cons; by left | done].
    + left. split; [apply elem_of_cons; by right|].
      intros Hid. apply Hg. rewrite E, <- Hid.
      unfold ids. apply list_elem_of_fmap. by exists f'.
  - apply has_id_false in E. intros H. apply elem_of_cons in H as [->|H].
    + left. split; [apply elem_of_cons; by left | done].
    + destruct (IH Hnd H) as [[Hin Hne]|(f & Hin & Hid & ->)].
      * left. split; [apply elem_of_cons; by right | done].
      * right. exists f. split; [apply elem_of_cons; by right | done].
Qed.

Lemma add_all_snoc cs c s : add_all (cs ++ [c]) s = apply_call (add_all cs s) c.
Proof. unfold add_all. by rewrite fold_left_app. Qed.

Lemma calls_for_snoc i cs c :
  calls_for i (cs ++ [c]) =
  calls_for i cs ++ (if String.eqb (call_id c) i then [c] else []).
Proof. unfold calls_for. by rewrite List.filter_app. Qed.

Lemma calls_for_nil_iff i cs : calls_for i cs = [] <-> i ∉ List.map call_id cs.
Proof.
  induction cs as [|c cs IH]; simpl.
  - split; [intros _; apply not_elem_of_nil | done].
  - destruct (String.eqb (call_id c) i) eqn:E.
    + apply String.eqb_eq in E. split; [done|].
      intros H. exfalso. apply H. rewrite E. apply elem_of_cons. by left.
    + apply String.eqb_neq in E. rewrite IH, not_elem_of_cons.
      split; [intros H; split; [congruence | done] | by intros [_ H]].
Qed.

Lemma head_app_some {A} (l k : list A) x : head l = Some x -> head (l ++ k) = Some x.
Proof. by destruct l. Qed.

Lemma reflects_snoc cs c s :
  reflects cs s -> reflects (cs ++ [c]) (apply_call s c).
Proof.
  intros (Hnd & Hids & Hent). unfold apply_call. split; [|split].
  - by apply NoDup_ids_addFeature.
  - intros i. rewrite elem_of_ids_addFeature, map_app, elem_of_app, Hids.
    simpl. rewrite list_elem_of_singleton. tauto.
  - intros f Hf. rewrite calls_for_snoc.
    unfold addFeature in Hf.
    destruct (List.find (has_id (call_id c)) s) as [g|] eqn:E.
    + apply elem_of_set_evidence in Hf; [|done].
      destruct Hf as [[Hin Hne]|(f0 & Hin & Hid & ->)].
      * destruct (Hent f Hin) as (c1 & cn & H1 & Hn & ? & ? & ?).
        apply not_eq_sym, String.eqb_neq in Hne. rewrite Hne, app_nil_r.
        by exists c1, cn.
      * destruct (Hent f0 Hin) as (c1 & cn & H1 & Hn & ? & ? & ?).
        simpl. rewrite Hid, String.eqb_refl. rewrite <- Hid.
        exists c1, c. split; [by apply head_app_some|].
        split; [by rewrite last_snoc | done].
    + apply find_has_id_None in E.
      apply elem_of_app in Hf as [Hin|Hf].
      * destruct (Hent f Hin) as (c1 & cn & H1 & Hn & ? & ? & ?).
        assert (call_id c <> id f) as Hne.
        { intros Heq. apply E. rewrite Heq. unfold ids.
          apply list_elem_of_fmap. by exists f. }
        apply String.eqb_neq in Hne. rewrite Hne, app_nil_r.
        by exists c1, cn.
      * apply list_elem_of_singleton in Hf as ->. simpl.
        rewrite String.eqb_refl.
        assert (calls_for (call_id c) cs = []) as ->.
        { apply calls_for_nil_iff. by rewrite <- Hids. }
        by exists c, c.
Qed.

(** C1. After any sequence of [addFeature] calls on a new Scanner, the
    detected-feature set holds exactly one entry per distinct id used; the
    entry's evidence is that of the last call with its id, and its name and
    type are those of the first call with its id. *)
Theorem addFeature_one_entry_per_id (calls : list AddCall) :
  let s := add_all calls [] in
  NoDup (ids s) /\
  (forall i, i ∈ ids s <-> i ∈ List.map call_id calls) /\
  (forall f, f ∈ s ->
     exists c1 cn,
       head (calls_for (id f) calls) = Some c1 /\
       last (calls_for (id f) calls) = Some cn /\
       name f = call_name c1 /\ type f = call_type c1 /\
       evidence f = call_evidence cn).
Proof.
  change (reflects calls (add_all calls [])).
  induction calls as [|c cs IH] using rev_ind.
  - split; [apply NoDup_nil_2|]. split; [done|].
    intros f Hf. by apply elem_of_nil in Hf.
  - rewrite add_all_snoc. by apply reflects_snoc.
Qed.

End AddFeature.

(** ** The badge *)

Section Badge.

Import Coordinator.

Lemma length_filter_limited fs :
  length (List.filter is_limited fs) = count_limited fs.
Proof.
  induction fs as [|f fs IH]; simpl; [done|].
  destruct (is_limited f); simpl; by rewrite IH.
Qed.

Lemma count_limited_pos fs :
  (exists f, f ∈ fs /\ is_limited f = true) -> 0 < count_limited fs.
Proof.
  intros (f & Hin & Hf). induction fs as [|g fs IH]; [by apply elem_of_nil in Hin|].
  simpl. apply elem_of_cons in Hin as [<-|Hin].
  - rewrite Hf. lia.
  - specialize (IH Hin). lia.
Qed.

Lemma count_limited_zero fs :
  (forall f, f ∈ fs -> is_limited f = false) -> count_limited fs = 0.
Proof.
  induction fs as [|g fs IH]; simpl; [done|].
  intros H. rewrite (H g) by (apply elem_of_cons; by left).
  apply IH. intros f Hf. apply H. apply elem_of_cons. by right.
Qed.

(** Without a tab id the badge is cleared whatever the list holds. *)
Lemma updateBadge_without_tab tabId features :
  tab_truthy tabId = false ->
  updateBadge tabId features = [setBadgeText "" tabId].
Proof. intros H. unfold updateBadge. destruct features; by rewrite ?H. Qed.

(** C2, as stated, fails where the message has no tab: a list with one
    limited feature clears the badge instead of showing the count. *)
Lemma badge_rule_fails_without_tab :
  ~ badge_rule None [with_status "limited"; with_status "widely"].
Proof.
  intros (_ & H & _).
  destruct H as [H _]; [done | |].
  - exists (with_status "limited"). split; [apply elem_of_cons; by left | done].
  - vm_compute in H. discriminate.
Qed.

(** C2 (amended). For a tab id that is present and not 0: an empty list
    clears the badge; a list with at least one limited feature shows the
    number of limited features, in red; any other list shows the number of
    features, at most 99, in green. *)
Theorem updateBadge_rule (tabId : option Z) (fs : list Feature)
        (Htab : tab_truthy tabId = true) :
  badge_rule tabId fs.
Proof.
  unfold badge_rule, updateBadge. rewrite Htab. simpl.
  split; [|split].
  - by intros ->.
  - intros Hne Hex. destruct fs as [|f0 fs']; [done|].
    change (length (f0 :: fs') =? 0)%nat with false. cbv iota.
    rewrite length_filter_limited.
    apply count_limited_pos in Hex.
    destruct (0 <? count_limited (f0 :: fs'))%nat eqn:E.
    + done.
    + apply Nat.ltb_ge in E. lia.
  - intros Hne Hall. destruct fs as [|f0 fs']; [done|].
    change (length (f0 :: fs') =? 0)%nat with false. cbv iota.
    rewrite length_filter_limited, (count_limited_zero _ Hall). done.
Qed.

Lemma updateBadge_rule_witness :
  badge_rule (Some 7%Z) [with_status "limited"; with_status "widely"].
Proof. apply updateBadge_rule. reflexivity. Defined.

(** The examples of the spec. *)
Example badge_empty :
  updateBadge (Some 7%Z) (Some []) = [setBadgeText "" (Some 7%Z)].
Proof. reflexivity. Qed.

Example badge_one_limited :
  updateBadge (Some 7%Z) (Some [with_status "limited"; with_status "widely"])
  = [setBadgeText "1" (Some 7%Z); setBadgeBackgroundColor red (Some 7%Z)].
Proof. vm_compute. reflexivity. Qed.

Example badge_two_green :
  updateBadge (Some 7%Z) (Some [with_status "widely"; with_status "newly"])
  = [setBadgeText "2" (Some 7%Z); setBadgeBackgroundColor green (Some 7%Z)].
Proof. vm_compute. reflexivity. Qed.

Example badge_capped :
  updateBadge (Some 7%Z) (Some (repeat (with_status "widely") 150))
  = [setBadgeText "99" (Some 7%Z); setBadgeBackgroundColor green (Some 7%Z)].
Proof. vm_compute. reflexivity. Qed.

(** The green branch caps the count, so its text has at most two
    characters. *)
Lemma toString_two_chars n : n <= 99 -> String.length (JS.toString n) <= 2.
Proof.
  intros H. do 100 (destruct n as [|n]; [vm_compute; lia|]). lia.
Qed.

Lemma updateBadge_green_two_chars tabId fs t :
  (forall f, f ∈ fs -> is_limited f = false) ->
  badge_text (updateBadge tabId (Some fs)) = Some t ->
  String.length t <= 2.
Proof.
  intros Hall. unfold updateBadge.
  destruct (negb (tab_truthy tabId) || (length fs =? 0)%nat).
  - simpl. intros [= <-]. simpl. lia.
  - rewrite length_filter_limited, (count_limited_zero _ Hall). simpl.
    intros [= <-]. apply toString_two_chars. lia.
Qed.

Example updateBadge_red_three_chars :
  let calls := updateBadge (Some 7%Z) (Some (repeat (with_status "limited") 100)) in
  badge_text calls = Some "100" /\ badge_color calls = Some red /\
  String.length "100" = 3.
Proof. vm_compute. done. Qed.





End Badge.

(** ** Re-running the detection pass *)

Section Rerun.

Import Scanner DOM.

Example sample_page_features :
  List.map (fun f => (id f, evidence f))
           (fst (analyzeDocument Fixtures.window Fixtures.draws_each
                                 Fixtures.sample_page []))
  = [("css-grid", "Active on div");
     ("flexbox-gap", "Found gap property");
     ("optional-chaining", "Found ?. syntax");
     ("nullish-coalescing", "Found ?? syntax");
     ("async-await", "Found async/await syntax");
     ("arrow-functions", "Found => syntax");
     ("fetch", "Found fetch() usage");
     ("details-summary", "Found 1 details elements")].
Proof. vm_compute. reflexivity. Qed.

Example first_run_misses_filter :
  ids (fst (analyzeDocument Fixtures.window Fixtures.draws_root
                            Fixtures.blurred_page [])) = [].
Proof. vm_compute. reflexivity. Qed.

Example second_run_finds_filter :
  ids (fst (analyzeDocument Fixtures.window Fixtures.draws_div
                            Fixtures.blurred_page [])) = ["css-filters"].
Proof. vm_compute. reflexivity. Qed.

(** C3 fails: on the blurred page a run that samples only the root finds
    nothing, and a second run that samples the [div] finds [css-filters]. *)
Lemma rerun_same_ids_fails :
  ~ rerun_same_ids Fixtures.window Fixtures.blurred_page.
Proof.
  intros H.
  specialize (H Fixtures.draws_root Fixtures.draws_div [] "css-filters").
  vm_compute in H. destruct H as [_ H].
  assert ("css-filters" ∈ ["css-filters"]) as Hin by (apply elem_of_cons; by left).
  apply H in Hin. by apply elem_of_nil in Hin.
Qed.

Lemma Agree_then a a' b b' : Agree a a' -> Agree b b' -> Agree (a >> b) (a' >> b').
Proof. intros Ha Hb s1 s2 H. unfold then_. by apply Hb, Ha. Qed.

Lemma Agree_when_add b i n t ev ev' :
  Agree (when b (addFeature i n t ev)) (when b (addFeature i n t ev')).
Proof.
  intros s1 s2 H j Hj. unfold when. destruct b; [|by apply H].
  rewrite !elem_of_ids_addFeature, (H j Hj). tauto.
Qed.

Lemma Agree_Sampling a a' : Sampling a -> Sampling a' -> Agree a a'.
Proof. intros Ha Ha' s1 s2 H i Hi. rewrite (Ha _ _ Hi), (Ha' _ _ Hi). by apply H. Qed.

Lemma Sampling_then a b : Sampling a -> Sampling b -> Sampling (a >> b).
Proof. intros Ha Hb s i Hi. unfold then_. by rewrite (Hb _ _ Hi), (Ha _ _ Hi). Qed.

Lemma Sampling_when_add b i n t ev :
  i ∈ sampled_ids -> Sampling (when b (addFeature i n t ev)).
Proof.
  intros Hin s j Hj. unfold when. destruct b; [|done].
  rewrite elem_of_ids_addFeature. split; [|by right].
  intros [->|H]; [done | done].
Qed.

Lemma Sampling_inspect e : Sampling (inspect e).
Proof.
  unfold inspect.
  repeat match goal with |- Sampling (_ >> _) => apply Sampling_then end;
    apply Sampling_when_add; unfold sampled_ids;
    rewrite !elem_of_cons; tauto.
Qed.

Lemma Sampling_analyzeComputedStyles draws d : Sampling (analyzeComputedStyles draws d).
Proof.
  unfold analyzeComputedStyles. cbv zeta.
  generalize (seq 0 (Nat.min (length (all_elements d)) 50)) as l.
  intros l s. revert s. induction l as [|k l IH]; intros s i Hi; simpl; [done|].
  rewrite (IH _ _ Hi).
  destruct (nth_error _ _); [by apply Sampling_inspect | done].
Qed.

Ltac agree_steps :=
  cbv zeta;
  repeat match goal with
         | |- Agree (_ >> _) (_ >> _) => apply Agree_then
         | |- Agree (when _ (addFeature _ _ _ _)) (when _ (addFeature _ _ _ _)) =>
             apply Agree_when_add
         end.

Lemma Agree_detectCSSFeatures draws1 draws2 d :
  Agree (detectCSSFeatures draws1 d) (detectCSSFeatures draws2 d).
Proof.
  unfold detectCSSFeatures, analyzeStyleSheets, detectCSSCustomProperties,
    detectModernCSSFeatures.
  agree_steps.
  apply Agree_Sampling; apply Sampling_analyzeComputedStyles.
Qed.

Lemma Agree_detectJavaScriptFeatures w d :
  Agree (detectJavaScriptFeatures w d) (detectJavaScriptFeatures w d).
Proof.
  unfold detectJavaScriptFeatures, detectPromiseFeatures, detectModernSyntax,
    detectWebAPIs, detectESModules.
  agree_steps.
Qed.

Lemma Agree_html_steps names d : Agree (html_steps names d) (html_steps names d).
Proof. unfold html_steps. agree_steps. Qed.

Lemma agree_analyzeDocument w draws1 draws2 d prev1 prev2 :
  agree (fst (analyzeDocument w draws1 d prev1))
        (fst (analyzeDocument w draws2 d prev2)).
Proof.
  unfold analyzeDocument, detectHTMLFeatures. cbv zeta.
  assert (agree (detectJavaScriptFeatures w d (detectCSSFeatures draws1 d []))
                (detectJavaScriptFeatures w d (detectCSSFeatures draws2 d [])))
    as H.
  { apply Agree_detectJavaScriptFeatures, Agree_detectCSSFeatures. done. }
  destruct (customElements_getNames w); simpl; [|done].
  by apply Agree_html_steps.
Qed.

(** C3 (amended). Two runs of the full pass on an unchanged document find
    the same ids apart from those that computed-style sampling adds, and a
    run does not depend on the set the previous run left: with the same
    draws the second run rebuilds the set of the first. *)
Theorem analyzeDocument_rerun (w : Window) (d : Document)
        (draws1 draws2 : nat -> nat) (prev : Features) :
  let r1 := fst (analyzeDocument w draws1 d prev) in
  let r2 := fst (analyzeDocument w draws2 d r1) in
  (forall i, i ∉ sampled_ids -> (i ∈ ids r1 <-> i ∈ ids r2)) /\
  fst (analyzeDocument w draws1 d r1) = r1.
Proof.
  cbv zeta. split; [apply agree_analyzeDocument | reflexivity].
Qed.

End Rerun.

(** ** Highlighting *)

Section Highlight.

Import Scanner DOM.

Lemma Tree_induction (P : Tree -> Prop) :
  (forall e ch, Forall P ch -> P (Node e ch)) -> forall t, P t.
Proof.
  intros H. fix IH 1. intros [e ch]. apply H.
  revert ch. fix IHch 1. intros [|t ch]; constructor; [apply IH | apply IHch].
Qed.

Lemma subtree_forEach f t : subtree (forEach f t) = List.map f (subtree t).
Proof.
  induction t as [e ch IH] using Tree_induction. simpl. f_equal.
  induction IH as [|t ch Ht _ IHch]; simpl; [done|].
  by rewrite map_app, Ht, IHch.
Qed.

Lemma all_elements_on_document f d :
  all_elements (on_document f d) = List.map f (all_elements d).
Proof. apply subtree_forEach. Qed.

Lemma subtree_append_to_first p new l l' :
  append_to_first p new l = Some l' ->
  (forall e, e ∈ flat_map subtree l' <-> e ∈ flat_map subtree l \/ e ∈ subtree new) /\
  length (flat_map subtree l') = length (flat_map subtree l) + length (subtree new).
Proof.
  revert l'. induction l as [|t l IH]; simpl; [done|]. intros l'.
  destruct (p (root t)).
  - intros [= <-]. destruct t as [e ch]. simpl.
    rewrite !flat_map_app. simpl. rewrite app_nil_r. split.
    + intros x. rewrite !elem_of_cons, !elem_of_app. tauto.
    + rewrite !length_app. simpl. lia.
  - destruct (append_to_first p new l) as [rest|]; [|done].
    intros [= <-]. destruct (IH rest eq_refl) as [Hin Hlen]. simpl. split.
    + intros x. rewrite !elem_of_app, Hin. tauto.
    + rewrite !length_app, Hlen. lia.
Qed.

Lemma all_elements_append_to_head new d d' :
  append_to_head new d = Some d' ->
  (forall e, e ∈ all_elements d' <-> e ∈ all_elements d \/ e = new) /\
  length (all_elements d') = S (length (all_elements d)).
Proof.
  unfold append_to_head, all_elements.
  destruct (is_tag "html" (root (documentElement d))); [|done].
  destruct (append_to_first _ _ _) as [ch|] eqn:E; [|done].
  intros [= <-]. simpl. apply subtree_append_to_first in E as [Hin Hlen].
  destruct (documentElement d) as [e ch0]. simpl in *. split.
  - intros x. rewrite !elem_of_cons, Hin, elem_of_cons.
    split; [intros [?|[?|[?|H]]]; [tauto..|by apply elem_of_nil in H] | tauto].
  - rewrite Hlen. simpl. lia.
Qed.

(** *** Token lists *)

Lemma split_token_then x s :
  is_token x = true ->
  split_ascii_whitespace (x +:+ " " +:+ s) = x :: split_ascii_whitespace s.
Proof.
  unfold is_token. induction x as [|c x IH]; [done|]. intros H.
  apply andb_true_iff in H as [_ H]. cbn [no_whitespace] in H.
  apply andb_true_iff in H as [Hc Hx]. apply negb_true_iff in Hc.
  rewrite append_cons. cbn [split_ascii_whitespace]. rewrite Hc.
  destruct x as [|c' x].
  - by rewrite append_nil_l.
  - rewrite append_cons. pose proof Hx as Hx'. cbn [no_whitespace] in Hx'.
    apply andb_true_iff in Hx' as [Hc' _]. apply negb_true_iff in Hc'.
    rewrite Hc'. rewrite <- append_cons. by rewrite IH.
Qed.

Lemma split_token x : is_token x = true -> split_ascii_whitespace x = [x].
Proof.
  unfold is_token. induction x as [|c x IH]; [done|]. intros H.
  apply andb_true_iff in H as [_ H]. cbn [no_whitespace] in H.
  apply andb_true_iff in H as [Hc Hx]. apply negb_true_iff in Hc.
  cbn [split_ascii_whitespace]. rewrite Hc.
  destruct x as [|c' x]; [done|].
  pose proof Hx as Hx'. cbn [no_whitespace] in Hx'.
  apply andb_true_iff in Hx' as [Hc' _]. apply negb_true_iff in Hc'.
  rewrite Hc'. by rewrite IH.
Qed.

(** Splitting the serialization of tokens gives the tokens back. *)
Lemma split_join l :
  Forall (fun t => is_token t = true) l ->
  split_ascii_whitespace (JS.join " " l) = l.
Proof.
  induction 1 as [|x l Hx Hl IH]; [done|].
  destruct l as [|y l]; [by apply split_token|].
  change (JS.join " " (x :: y :: l)) with (x +:+ " " +:+ JS.join " " (y :: l)).
  by rewrite split_token_then, IH.
Qed.

Lemma split_tokens s :
  Forall (fun t => is_token t = true) (split_ascii_whitespace s).
Proof.
  induction s as [|c s IH]; [constructor|].
  cbn [split_ascii_whitespace].
  destruct (is_ascii_whitespace c) eqn:Ec; [done|].
  assert (is_token (String c "") = true) as H1
      by (unfold is_token; cbn; by rewrite Ec).
  destruct s as [|c' s]; [by constructor|].
  destruct (is_ascii_whitespace c') eqn:Ec'; [by constructor|].
  destruct (split_ascii_whitespace (String c' s)) as [|t ts];
    [by constructor|].
  apply Forall_cons in IH as [Ht Hts]. constructor; [|done].
  unfold is_token in *. apply andb_true_iff in Ht as [_ Ht].
  cbn. by rewrite Ec, Ht.
Qed.

Lemma ordered_set_elem x l : x ∈ ordered_set l <-> x ∈ l.
Proof.
  induction l as [|y l IH]; [done|]. cbn [ordered_set].
  rewrite !elem_of_cons, list_elem_of_In, List.filter_In, <- list_elem_of_In, IH.
  rewrite negb_true_iff, String.eqb_neq.
  destruct (decide (x = y)); tauto.
Qed.

Lemma ordered_set_NoDup l : NoDup (ordered_set l).
Proof.
  induction l as [|y l IH]; [apply NoDup_nil_2|]. cbn [ordered_set].
  apply NoDup_cons. split.
  - rewrite list_elem_of_In, List.filter_In, String.eqb_refl. by intros [_ ?].
  - apply NoDup_ListNoDup, List.NoDup_filter, NoDup_ListNoDup, IH.
Qed.

Lemma filter_id {A} (f : A -> bool) (l : list A) :
  (forall x, x ∈ l -> f x = true) -> List.filter f l = l.
Proof.
  induction l as [|y l IH]; [done|]. intros H. simpl.
  rewrite (H y) by apply list_elem_of_here. f_equal. apply IH.
  intros x Hx. by apply H, list_elem_of_further.
Qed.

Lemma ordered_set_id l : NoDup l -> ordered_set l = l.
Proof.
  induction 1 as [|y l Hy Hl IH]; [done|]. cbn [ordered_set]. f_equal.
  rewrite IH. apply filter_id. intros x Hx.
  apply negb_true_iff, String.eqb_neq. by intros ->.
Qed.

Lemma ordered_set_tokens l :
  Forall (fun t => is_token t = true) l ->
  Forall (fun t => is_token t = true) (ordered_set l).
Proof.
  intros H. apply Forall_forall. intros x Hx.
  apply (proj1 (ordered_set_elem x l)) in Hx.
  by apply (proj1 (Forall_forall _ _) H).
Qed.

Lemma classList_tokens e :
  Forall (fun t => is_token t = true) (classList e) /\ NoDup (classList e).
Proof.
  unfold classList. destruct (getAttribute "class" e) as [v|].
  - split; [apply ordered_set_tokens, split_tokens | apply ordered_set_NoDup].
  - split; [constructor | apply NoDup_nil_2].
Qed.

(** *** Attributes *)

Lemma find_replace_attr n v (a : list (string * string)) :
  (exists kv, List.find (fun kv => String.eqb (fst kv) n) a = Some kv) ->
  List.find (fun kv => String.eqb (fst kv) n) (replace_attr n v a) = Some (n, v).
Proof.
  induction a as [|kv a IH]; simpl; [by intros [? ?]|].
  destruct (String.eqb (fst kv) n) eqn:E; simpl.
  - by rewrite String.eqb_refl.
  - by rewrite E.
Qed.

Lemma find_attr_app_new n v (a : list (string * string)) :
  List.find (fun kv => String.eqb (fst kv) n) a = None ->
  List.find (fun kv => String.eqb (fst kv) n) (a ++ [(n, v)]) = Some (n, v).
Proof.
  induction a as [|kv a IH]; simpl; [by rewrite String.eqb_refl|].
  by destruct (String.eqb (fst kv) n).
Qed.

Lemma getAttribute_setAttribute n v e : getAttribute n (setAttribute n v e) = Some v.
Proof.
  unfold setAttribute, hasAttribute, getAttribute.
  destruct (List.find _ (attributes e)) as [kv|] eqn:E; simpl.
  - rewrite find_replace_attr; [done | by exists kv].
  - by rewrite find_attr_app_new.
Qed.

Lemma find_attr_filter_ne n m (a : list (string * string)) :
  n <> m ->
  List.find (fun kv => String.eqb (fst kv) n)
            (List.filter (fun kv => negb (String.eqb (fst kv) m)) a)
  = List.find (fun kv => String.eqb (fst kv) n) a.
Proof.
  intros Hne. induction a as [|kv a IH]; simpl; [done|].
  destruct (String.eqb (fst kv) m) eqn:Em; simpl.
  - apply String.eqb_eq in Em.
    destruct (String.eqb (fst kv) n) eqn:En; [|done].
    apply String.eqb_eq in En. congruence.
  - by rewrite IH.
Qed.


Lemma find_attr_replace_ne n m v (a : list (string * string)) :
  n <> m ->
  List.find (fun kv => String.eqb (fst kv) n) (replace_attr m v a)
  = List.find (fun kv => String.eqb (fst kv) n) a.
Proof.
  intros Hne. induction a as [|kv a IH]; simpl; [done|].
  destruct (String.eqb (fst kv) m) eqn:Em; simpl.
  - apply String.eqb_eq in Em.
    assert (String.eqb m n = false) as -> by (apply String.eqb_neq; congruence).
    assert (String.eqb (fst kv) n = false) as ->
        by (apply String.eqb_neq; congruence).
    done.
  - by rewrite IH.
Qed.

Lemma find_attr_app_ne n m v (a : list (string * string)) :
  n <> m ->
  List.find (fun kv => String.eqb (fst kv) n) (a ++ [(m, v)])
  = List.find (fun kv => String.eqb (fst kv) n) a.
Proof.
  intros Hne. induction a as [|kv a IH]; simpl.
  - by assert (String.eqb m n = false) as -> by (apply String.eqb_neq; congruence).
  - by destruct (String.eqb (fst kv) n).
Qed.

Lemma getAttribute_setAttribute_ne n m v e :
  n <> m -> getAttribute n (setAttribute m v e) = getAttribute n e.
Proof.
  intros Hne. unfold setAttribute, getAttribute.
  destruct (hasAttribute m e); simpl;
    [by rewrite find_attr_replace_ne | by rewrite find_attr_app_ne].
Qed.

Lemma getAttribute_removeAttribute_ne n m e :
  n <> m -> getAttribute n (removeAttribute m e) = getAttribute n e.
Proof.
  intros Hne. unfold removeAttribute, getAttribute. simpl.
  by rewrite find_attr_filter_ne.
Qed.


Lemma getAttribute_classList_update n ts e :
  n <> "class" -> getAttribute n (classList_update ts e) = getAttribute n e.
Proof.
  intros Hne. unfold classList_update.
  destruct (negb (hasAttribute "class" e) && (length ts =? 0)%nat); [done|].
  by apply getAttribute_setAttribute_ne.
Qed.

(** *** The class list after [add] and [remove] *)

Lemma classList_classList_update ts e :
  Forall (fun t => is_token t = true) ts -> NoDup ts ->
  classList (classList_update ts e) = ts.
Proof.
  intros Hts Hnd. unfold classList_update.
  destruct (negb (hasAttribute "class" e) && (length ts =? 0)%nat) eqn:E.
  - apply andb_true_iff in E as [Ha Hl]. apply Nat.eqb_eq in Hl.
    destruct ts; [|done]. unfold classList.
    apply negb_true_iff in Ha. unfold hasAttribute in Ha.
    by destruct (getAttribute "class" e).
  - unfold classList. rewrite getAttribute_setAttribute, split_join by done.
    by apply ordered_set_id.
Qed.

Lemma classList_other_attribute f e :
  getAttribute "class" (f e) = getAttribute "class" e ->
  classList (f e) = classList e.
Proof. unfold classList. by intros ->. Qed.

Lemma classList_remove_spec c e :
  classList (classList_remove c e)
  = List.filter (fun x => negb (String.eqb c x)) (classList e).
Proof.
  destruct (classList_tokens e) as [Ht Hnd].
  apply classList_classList_update.
  - apply Forall_forall. intros x Hx%list_elem_of_In%List.filter_In.
    destruct Hx as [Hx _]. apply list_elem_of_In in Hx.
    by apply (proj1 (Forall_forall _ _) Ht).
  - by apply NoDup_ListNoDup, List.NoDup_filter, NoDup_ListNoDup.
Qed.

Lemma has_class_elem c e : has_class c e = true <-> c ∈ classList e.
Proof.
  unfold has_class. rewrite existsb_exists. split.
  - intros (x & Hx & ->%String.eqb_eq). by apply list_elem_of_In.
  - intros H. exists c. split; [by apply list_elem_of_In | apply String.eqb_refl].
Qed.

Lemma classList_add_spec c e :
  is_token c = true ->
  classList (classList_add c e)
  = if has_class c e then classList e else classList e ++ [c].
Proof.
  intros Hc. destruct (classList_tokens e) as [Ht Hnd].
  unfold classList_add. destruct (has_class c e) eqn:E.
  - by apply classList_classList_update.
  - apply classList_classList_update.
    + apply Forall_app. split; [done | by repeat constructor].
    + apply NoDup_app. split; [done|]. split; [|apply NoDup_singleton].
      intros x Hx ->%list_elem_of_singleton.
      apply has_class_elem in Hx. congruence.
Qed.

Lemma has_class_remove c e : has_class c (classList_remove c e) = false.
Proof.
  apply not_true_iff_false. rewrite has_class_elem, classList_remove_spec.
  rewrite list_elem_of_In, List.filter_In, String.eqb_refl. by intros [_ ?].
Qed.

Lemma has_class_remove_ne c c' e :
  c <> c' -> has_class c (classList_remove c' e) = has_class c e.
Proof.
  intros Hne. apply eq_true_iff_eq.
  rewrite !has_class_elem, classList_remove_spec.
  rewrite list_elem_of_In, List.filter_In, <- list_elem_of_In.
  rewrite negb_true_iff, String.eqb_neq. split; [tauto|]. intros H.
  split; [done | congruence].
Qed.


Lemma has_class_add_ne c c' e :
  is_token c' = true -> c <> c' ->
  has_class c (classList_add c' e) = has_class c e.
Proof.
  intros Hc Hne. apply eq_true_iff_eq.
  rewrite !has_class_elem, classList_add_spec by done.
  destruct (has_class c' e); [done|].
  rewrite elem_of_app, list_elem_of_singleton. tauto.
Qed.

Lemma has_class_other_attribute c f e :
  getAttribute "class" (f e) = getAttribute "class" e ->
  has_class c (f e) = has_class c e.
Proof. intros H. unfold has_class. by rewrite (classList_other_attribute f e H). Qed.

(** *** The marker *)

Lemma marker_class_token : is_token marker_class = true.
Proof. reflexivity. Qed.

Lemma marker_attr_not_class : marker_attr <> "class".
Proof. discriminate. Qed.

Lemma marked_clear_marker e : marked (clear_marker e) = false.
Proof.
  unfold marked, clear_marker. destruct (has_class marker_class e) eqn:E; [|done].
  rewrite (has_class_other_attribute _ (removeAttribute marker_attr)).
  - apply has_class_remove.
  - apply getAttribute_removeAttribute_ne. discriminate.
Qed.









Lemma highlightSpecificFeature_recognized featureId rule label d :
  recognized featureId = Some (rule, label) ->
  highlightSpecificFeature featureId d = on_document (mark rule label) d.
Proof.
  unfold recognized, highlightSpecificFeature. intros H.
  repeat match type of H with
         | (if ?b then _ else _) = _ => destruct b
         end; try done; by injection H as <- <-.
Qed.

Lemma highlightSpecificFeature_unrecognized featureId d :
  recognized featureId = None -> highlightSpecificFeature featureId d = d.
Proof.
  unfold recognized, highlightSpecificFeature. intros H.
  repeat match type of H with
         | (if ?b then _ else _) = _ => destruct b
         end; done.
Qed.

Lemma cleared_unmarked d e :
  e ∈ all_elements (on_document clear_marker d) -> marked e = false.
Proof.
  rewrite all_elements_on_document. intros He.
  apply list_elem_of_fmap in He as (e0 & -> & _). apply marked_clear_marker.
Qed.

Lemma with_styles_unmarked cs d d' e :
  append_to_head (style_element cs) (on_document clear_marker d) = Some d' ->
  e ∈ all_elements d' -> marked e = false.
Proof.
  intros H He. apply all_elements_append_to_head in H as [Hin _].
  apply Hin in He as [He| ->]; [by eapply cleared_unmarked | done].
Qed.

Lemma length_highlightSpecificFeature featureId d :
  length (all_elements (highlightSpecificFeature featureId d)) = length (all_elements d).
Proof.
  destruct (recognized featureId) as [[rule label]|] eqn:E.
  - rewrite (highlightSpecificFeature_recognized _ _ _ _ E),
      all_elements_on_document. apply length_map.
  - by rewrite (highlightSpecificFeature_unrecognized _ _ E).
Qed.

(** *** The style element and the head *)









(** *** The markers after a request *)


Example recognized_request_replaces_markers :
  List.map (fun e => (tagName e, getAttribute "class" e, getAttribute marker_attr e))
           (all_elements (fst (highlightFeatureUsage Fixtures.plain "flexbox"
                                                     Fixtures.highlighted_page)))
  = [("HTML", None, None); ("HEAD", None, None); ("STYLE", None, None);
     ("BODY", None, None); ("DIV", Some "", None)].
Proof. vm_compute. reflexivity. Qed.





End Highlight.

(** ** Result cards *)

Section Cards.

Import Panel.



(** *** Running the tokenizer over the card template *)

Lemma run_app cls st s1 s2 :
  HTML.run cls st (s1 +:+ s2) = HTML.run cls (HTML.run cls st s1) s2.
Proof.
  revert st. induction s1 as [|c s1 IH]; intros st; [done|].
  rewrite append_cons. cbn [HTML.run]. apply IH.
Qed.

(** Text without [<] leaves the tokenizer where it is. *)
Lemma run_text cls n a s :
  text_ok s = true ->
  HTML.run cls (HTML.mkState HTML.Data n a) s = HTML.mkState HTML.Data n a.
Proof.
  unfold text_ok. induction s as [|c s IH]; [done|]. cbn [lacks].
  intros [Hc Hs]%andb_true_iff. apply negb_true_iff in Hc.
  cbn [HTML.run]. unfold HTML.step at 1. cbn [HTML.mode].
  unfold HTML.is_char. rewrite Hc. by apply IH.
Qed.

Lemma append_nil_r s : s +:+ "" = s.
Proof. induction s as [|c s IH]; [done|]. by rewrite append_cons, IH. Qed.

Lemma snoc_append v c s : HTML.snoc v c +:+ s = v +:+ String c s.
Proof.
  unfold HTML.snoc. induction v as [|x v IH]; [done|].
  rewrite !append_cons. by rewrite IH.
Qed.

(** A value without quotation mark stays inside its double-quoted
    attribute; in a [class] value it must hold no ampersand either. *)
Lemma run_value cls n a closing name class_value an av s :
  lacks 34 s = true ->
  String.eqb an "class" = false \/ lacks 38 s = true ->
  HTML.run cls
    (HTML.mkState
       (HTML.ValueDoubleQuoted (HTML.mkTag closing name class_value (Some (an, av))))
       n a) s
  = HTML.mkState
      (HTML.ValueDoubleQuoted
         (HTML.mkTag closing name class_value (Some (an, av +:+ s))))
      n a.
Proof.
  revert av. induction s as [|c s IH]; intros av.
  - intros _ _. cbn [HTML.run]. by rewrite append_nil_r.
  - cbn [lacks]. intros [Hc Hs]%andb_true_iff Hamp. apply negb_true_iff in Hc.
    cbn [HTML.run]. unfold HTML.step at 1. cbn [HTML.mode].
    unfold HTML.is_char at 1. rewrite Hc.
    unfold HTML.value_char, HTML.reads_class. cbn [HTML.attribute].
    assert (HTML.is_char 38 c && String.eqb an "class" = false) as ->.
    { destruct Hamp as [-> | Hamp]; [apply andb_false_r|].
      cbn [lacks] in Hamp. apply andb_true_iff in Hamp as [Hamp _].
      apply negb_true_iff in Hamp. unfold HTML.is_char. by rewrite Hamp. }
    unfold HTML.set_mode, HTML.push_value. cbn [HTML.attribute HTML.closing
      HTML.tag_name HTML.class_value HTML.found HTML.in_a].
    rewrite IH.
    + by rewrite snoc_append.
    + done.
    + destruct Hamp as [? | Hamp]; [by left | right].
      cbn [lacks] in Hamp. by apply andb_true_iff in Hamp as [_ ?].
Qed.

Local Abbreviation D n := (HTML.mkState HTML.Data n false).
Local Abbreviation run := (HTML.run "feature-card").

Lemma run_card_head n : run (D n) card_head = D (S n).
Proof. vm_compute. reflexivity. Qed.

Lemma run_card_after_name n : run (D n) card_after_name = D n.
Proof. vm_compute. reflexivity. Qed.

Lemma run_card_after_id n :
  run (D n) card_after_id
  = HTML.mkState
      (HTML.ValueDoubleQuoted
         (HTML.mkTag false "div" None (Some ("class", "status-badge "))))
      n false.
Proof. vm_compute. reflexivity. Qed.

Lemma run_card_after_label n : run (D n) card_after_label = D n.
Proof. vm_compute. reflexivity. Qed.

Lemma run_card_after_description n : run (D n) card_after_description = D n.
Proof. vm_compute. reflexivity. Qed.

Lemma run_newly_open n : run (D n) newly_open = D n.
Proof. vm_compute. reflexivity. Qed.

Lemma run_widely_open n : run (D n) widely_open = D n.
Proof. vm_compute. reflexivity. Qed.

Lemma run_date_close n : run (D n) date_close = D n.
Proof. vm_compute. reflexivity. Qed.

Lemma run_card_gap n : run (D n) card_gap = D n.
Proof. vm_compute. reflexivity. Qed.

Lemma run_links_open n : run (D n) links_open = D n.
Proof. vm_compute. reflexivity. Qed.

Lemma run_links_close n : run (D n) links_close = D n.
Proof. vm_compute. reflexivity. Qed.

Lemma run_card_foot n : run (D n) card_foot = D n.
Proof. vm_compute. reflexivity. Qed.

Lemma run_link_open n :
  run (D n) link_open
  = HTML.mkState
      (HTML.ValueDoubleQuoted (HTML.mkTag false "a" None (Some ("href", ""))))
      n false.
Proof. vm_compute. reflexivity. Qed.

Lemma run_link_mid n href :
  run (HTML.mkState
         (HTML.ValueDoubleQuoted (HTML.mkTag false "a" None (Some ("href", href))))
         n false) link_mid
  = HTML.mkState HTML.Data n true.
Proof. vm_compute. reflexivity. Qed.

Lemma run_link_close n :
  run (HTML.mkState HTML.Data n true) link_close = D n.
Proof. vm_compute. reflexivity. Qed.

Lemma run_space n : run (D n) " " = D n.
Proof. reflexivity. Qed.

Lemma no_card_token sc :
  class_ok sc = true -> sc <> "feature-card" ->
  existsb (String.eqb "feature-card")
          (DOM.split_ascii_whitespace ("status-badge " +:+ sc)) = false.
Proof.
  unfold class_ok. intros [_ Hws]%andb_true_iff Hne.
  change ("status-badge " +:+ sc) with ("status-badge" +:+ " " +:+ sc).
  rewrite split_token_then by reflexivity.
  cbn [existsb]. change (String.eqb "feature-card" "status-badge") with false.
  destruct sc as [|c sc]; [done|].
  assert (DOM.is_token (String c sc) = true) as Htk by exact Hws.
  rewrite (split_token _ Htk).
  cbn [existsb orb]. rewrite orb_false_r. apply String.eqb_neq.
  congruence.
Qed.

Lemma emit_div_class cls m n v :
  HTML.emit cls (HTML.mkState m n false)
            (HTML.mkTag false "div" None (Some ("class", v)))
  = HTML.mkState HTML.Data
      (if existsb (String.eqb cls) (DOM.split_ascii_whitespace v)
       then S n else n)
      false.
Proof. reflexivity. Qed.

Lemma run_card_after_class n sc :
  class_ok sc = true -> sc <> "feature-card" ->
  run (HTML.mkState
         (HTML.ValueDoubleQuoted
            (HTML.mkTag false "div" None (Some ("class", "status-badge " +:+ sc))))
         n false) card_after_class
  = D n.
Proof.
  intros Hok Hne. pose proof (no_card_token sc Hok Hne) as Htok.
  unfold card_after_class. rewrite run_app.
  change (run ?st dq) with (HTML.step "feature-card" st (ascii_of_nat 34)).
  unfold HTML.step at 1. cbn [HTML.mode].
  change (HTML.is_char 34 (ascii_of_nat 34)) with true. cbn iota.
  unfold HTML.set_mode. cbn [HTML.found HTML.in_a].
  match goal with
  | |- HTML.run _ ?st (String ?c ?s) = _ =>
      change (HTML.run "feature-card" (HTML.step "feature-card" st c) s = D n)
  end.
  unfold HTML.step at 1. cbn [HTML.mode].
  change (DOM.is_ascii_whitespace ">") with false.
  change (HTML.is_char 47 ">") with false.
  change (HTML.is_char 62 ">") with true. cbn iota.
  rewrite emit_div_class, Htok. vm_compute. reflexivity.
Qed.

Lemma run_option_block n before x after :
  run (D n) before = D n -> run (D n) after = D n -> option_ok x = true ->
  run (D n) (option_block before x after) = D n.
Proof.
  intros Hb Ha Hx. destruct x as [text|]; [|done].
  unfold option_block. by rewrite !run_app, Hb, run_text, Ha.
Qed.

Lemma run_link n l :
  href_ok (fst l) && text_ok (snd l) = true -> run (D n) (link_html l) = D n.
Proof.
  intros [Hh Ht]%andb_true_iff. unfold link_html.
  rewrite !run_app, run_link_open, run_value; [|done|by left].
  by rewrite run_link_mid, run_text, run_link_close.
Qed.

Lemma run_links n links :
  forallb (fun l => href_ok (fst l) && text_ok (snd l)) links = true ->
  run (D n) (JS.join " " (List.map link_html links)) = D n.
Proof.
  induction links as [|l links IH]; [done|]. cbn [forallb].
  intros [Hl Hls]%andb_true_iff. specialize (IH Hls).
  destruct links as [|l' links]; [by apply run_link|].
  change (JS.join " " (List.map link_html (l :: l' :: links)))
    with (link_html l +:+ " " +:+ JS.join " " (List.map link_html (l' :: links))).
  by rewrite !run_app, run_link, run_space, IH.
Qed.

Lemma run_links_block n links :
  forallb (fun l => href_ok (fst l) && text_ok (snd l)) links = true ->
  run (D n) (links_block links) = D n.
Proof.
  intros H. destruct links as [|l links]; [done|]. unfold links_block.
  by rewrite !run_app, run_links_open, run_links, run_links_close.
Qed.

(** A card whose values hold no markup is one element of the class. *)
Lemma run_card n c :
  plain_card c = true -> card_statusClass c <> "feature-card" ->
  run (D n) (card_html c) = D (S n).
Proof.
  unfold plain_card. intros H Hne.
  apply andb_true_iff in H as [H Hlinks]. apply andb_true_iff in H as [H Hwidely].
  apply andb_true_iff in H as [H Hnewly]. apply andb_true_iff in H as [H Hdesc].
  apply andb_true_iff in H as [H Hlabel]. apply andb_true_iff in H as [H Hclass].
  apply andb_true_iff in H as [Hname Hid].
  pose proof Hclass as Hc. unfold class_ok in Hc.
  apply andb_true_iff in Hc as [Hc _]. apply andb_true_iff in Hc as [Hquote Hamp].
  unfold card_html. rewrite !run_app.
  rewrite run_card_head, run_text, run_card_after_name, run_text by done.
  rewrite run_card_after_id, run_value; [|done|by right].
  rewrite run_card_after_class by done.
  rewrite run_text, run_card_after_label, run_text, run_card_after_description
    by done.
  rewrite run_option_block;
    [|apply run_newly_open | apply run_date_close | done].
  rewrite run_card_gap.
  rewrite run_option_block;
    [|apply run_widely_open | apply run_date_close | done].
  rewrite run_card_gap, run_links_block by done.
  apply run_card_foot.
Qed.

Lemma created_statusClass B f :
  card_statusClass (createFeatureCard B f) <> "feature-card".
Proof. unfold createFeatureCard. cbn [card_statusClass]. discriminate. Qed.

Lemma run_cards n B fs :
  plain_features B fs ->
  run (D n) (cards_markup B fs) = D (length fs + n).
Proof.
  unfold cards_markup. intros H. revert n.
  induction H as [|f fs Hf Hfs IH]; intros n; [done|].
  destruct fs as [|f' fs].
  - cbn [List.map JS.join length]. rewrite run_card; [done | done |].
    apply created_statusClass.
  - change (JS.join "" (List.map (fun f => card_html (createFeatureCard B f))
                                 (f :: f' :: fs)))
      with (card_html (createFeatureCard B f) +:+ "" +:+
            JS.join "" (List.map (fun f => card_html (createFeatureCard B f))
                                 (f' :: fs))).
    rewrite !run_app, run_card; [|done|apply created_statusClass].
    cbn [HTML.run]. rewrite IH. cbn [length]. f_equal. lia.
Qed.

(** The markup of the cards of features whose values hold no markup gives
    one card element for each feature. *)
Lemma elements_of_cards B fs :
  plain_features B fs ->
  HTML.elements_of_class "feature-card" (cards_markup B fs) = Some (length fs).
Proof.
  intros H. unfold HTML.elements_of_class. rewrite (run_cards 0 B fs H).
  cbn. by rewrite Nat.add_0_r.
Qed.

Lemma elements_of_error m :
  text_ok m = true ->
  HTML.elements_of_class "feature-card" (error_html m) = Some 0.
Proof.
  intros H. unfold HTML.elements_of_class, error_html.
  rewrite !run_app.
  replace (run (D 0) error_open) with (D 0) by (vm_compute; reflexivity).
  rewrite run_text by done.
  replace (run (D 0) error_close) with (D 0) by (vm_compute; reflexivity).
  done.
Qed.

(** *** The cards in the container *)

Example markup_in_a_name :
  shown_cards (displayResults Fixtures.builtins
                 [Fixtures.catalog_entry "<div class=feature-card></div>"]
                 true fresh) = Some 3.
Proof. vm_compute. reflexivity. Qed.




Example no_results_view :
  let v' := displayResults Fixtures.builtins [] true fresh in
  noResults_display v' = block /\ results_display v' = none /\
  shown_cards v' = Some 0.
Proof. done. Qed.

Example default_search_url :
  api_url "baseline_status:newly"
  = "https://api.webstatus.dev/v1/features?q=baseline_status%3Anewly" /\
  api_url (user_query " css grid ")
  = "https://api.webstatus.dev/v1/features?q=name%3Acss%20grid%20OR%20id%3Acss%20grid".
Proof. by vm_compute. Qed.

End Cards.

(** ** The panel's event loop *)

Section EventLoop.

Import Panel.

Lemma trimStart_all_space s : JS.all_space s = true -> JS.trimStart s = "".
Proof.
  induction s as [|c s IH]; simpl; [done|].
  intros H. apply andb_true_iff in H as [Hc Hs]. rewrite Hc. by apply IH.
Qed.

Lemma trim_all_space s : JS.all_space s = true -> JS.trim s = "".
Proof. intros H. unfold JS.trim. by rewrite trimStart_all_space. Qed.

Lemma handleSearch_blank w :
  JS.trim (searchInput_value (view w)) = "" -> handleSearch w = (w, []).
Proof. intros H. unfold handleSearch. by rewrite H. Qed.

Lemma turn_nothing a st : a (world st) = (world st, []) -> turn a st = st.
Proof.
  intros H. unfold turn. rewrite H. destruct st. simpl.
  by rewrite !app_nil_r, Nat.add_0_r.
Qed.

(** C10. When the search field is empty or holds only white space, a click
    on the button or the Enter key leaves the panel as it is: nothing is
    requested, parked or logged, and no element changes. *)
Theorem blank_search_is_ignored (B : Builtins) (st : State)
        (H : JS.all_space (input st) = true) :
  step B Click st = st /\ step B (KeyPress "Enter") st = st.
Proof.
  apply trim_all_space in H. unfold input in H.
  split; simpl; apply turn_nothing; by apply handleSearch_blank.
Qed.

Lemma world_turn a st : world (turn a st) = fst (a (world st)).
Proof. unfold turn. by destruct (a (world st)). Qed.

Lemma log_turn a st : log (turn a st) = log st ++ snd (a (world st)).
Proof. unfold turn. by destruct (a (world st)). Qed.

Lemma pending_turn a st :
  pending (turn a st) = pending st ++ park (next_id st) (snd (a (world st))).
Proof. unfold turn. by destruct (a (world st)). Qed.

(** The log only grows. *)
Lemma log_step B ev st : exists rest, log (step B ev st) = log st ++ rest.
Proof.
  assert (exists rest, log st = log st ++ rest) as Hsame
      by (exists []; by rewrite app_nil_r).
  destruct ev as [rid|rid a| |key]; simpl.
  - destruct (lookup_pending rid st) as [[[] k]|]; try done.
    rewrite log_turn. by eexists.
  - destruct (lookup_pending rid st) as [[r k]|]; [|done].
    destruct (accepts r a); [|done]. rewrite log_turn. by eexists.
  - rewrite log_turn. by eexists.
  - destruct (String.eqb key "Enter"); [|done]. rewrite log_turn. by eexists.
Qed.

Lemma log_exec B evs st : exists rest, log (exec B evs st) = log st ++ rest.
Proof.
  revert st. induction evs as [|ev evs IH]; intros st; simpl.
  - exists []. by rewrite app_nil_r.
  - destruct (IH (step B ev st)) as [r1 H1].
    destruct (log_step B ev st) as [r2 H2].
    exists (r2 ++ r1). change (exec B (ev :: evs) st) with (exec B evs (step B ev st)).
    by rewrite H1, H2, app_assoc.
Qed.

Lemma log_open st0 : log (open st0) = startup_log.
Proof. reflexivity. Qed.

Example log_with_pending_grid :
  log (exec Fixtures.builtins [StorageReply 0] (open Fixtures.store_grid))
  = startup_log ++
    [SearchFeatures "name:grid OR id:grid" true;
     Await (Fetch (api_url "name:grid OR id:grid")) (K_fetch true);
     Fire (StorageRemove "pendingSearch")].
Proof. vm_compute. reflexivity. Qed.

(** C5 fails: with the pending value "grid" the default search is issued
    first, and the search for "grid" follows once the store has replied. *)
Lemma pending_search_follows_default :
  ~ pending_search_before_default
      (log (exec Fixtures.builtins [StorageReply 0] (open Fixtures.store_grid))).
Proof. rewrite log_with_pending_grid. vm_compute. lia. Qed.

(** C5 (amended). On every open the steps are started in the stated order
    within the constructor's turn: the pending-search value is requested,
    the active tab is queried, and the default search for
    [baseline_status:newly] is issued, not marked as a user search.  The
    default request is thus issued before the store replies, and every
    search marked as a user search comes after it. *)
Theorem startup_order (B : Builtins)
        (st0 : gmap string Coordinator.StorageValue) (evs : list Event) :
  let l := log (exec B evs (open st0)) in
  (exists rest, l = startup_log ++ rest) /\
  (forall i q, nth_error l i = Some (SearchFeatures q true) -> 4 <= i).
Proof.
  cbv zeta. destruct (log_exec B evs (open st0)) as [rest Hrest].
  rewrite log_open in Hrest. split; [by exists rest|].
  intros i q Hi. rewrite Hrest in Hi.
  do 4 (destruct i as [|i]; [discriminate Hi|]). lia.
Qed.

(** *** Frame properties of the continuations *)

Lemma searchInput_displayResults B fs b v :
  searchInput_value (displayResults B fs b v) = searchInput_value v.
Proof. unfold displayResults. by destruct (length fs =? 0)%nat. Qed.

(** Every continuation but that of [checkPendingSearch] leaves the store
    and the search field alone, starts no search and parks no check. *)
Lemma resume_frame B k a w :
  is_check k = false ->
  storage (fst (resume B k a w)) = storage w /\
  searchInput_value (view (fst (resume B k a w))) = searchInput_value (view w) /\
  no_new_checks (snd (resume B k a w)) /\
  no_search (snd (resume B k a w)).
Proof.
  intros Hk. unfold no_new_checks, no_search.
  destruct k; try discriminate Hk; destruct a; cbn;
    repeat (case_match; cbn);
    rewrite ?searchInput_displayResults;
    (split; [done|]); (split; [done|]);
    (split; [intros r k Hin | intros q b Hin]);
    repeat (apply elem_of_cons in Hin as [Hin|Hin];
            [first [discriminate Hin | by injection Hin as -> ->] | ]);
    by apply elem_of_nil in Hin.
Qed.

Lemma handleSearch_frame w :
  storage (fst (handleSearch w)) = storage w /\
  searchInput_value (view (fst (handleSearch w))) = searchInput_value (view w) /\
  no_new_checks (snd (handleSearch w)) /\
  (snd (handleSearch w) = [] \/
   JS.trim (searchInput_value (view w)) <> "" /\
   snd (handleSearch w)
   = [SearchFeatures (user_query (searchInput_value (view w))) true;
      Await (Fetch (api_url (user_query (searchInput_value (view w)))))
            (K_fetch true)]).
Proof.
  unfold handleSearch, no_new_checks, user_query. cbv zeta.
  set (q := JS.trim (searchInput_value (view w))).
  destruct (JS.truthy q) eqn:E; cbn.
  - split; [done|]. split; [done|]. split.
    + intros r k Hin.
      apply elem_of_cons in Hin as [Hin|Hin]; [discriminate Hin|].
      apply elem_of_cons in Hin as [Hin|Hin]; [by injection Hin as -> ->|].
      by apply elem_of_nil in Hin.
    + right. split; [|done]. intros Hq. by rewrite Hq in E.
  - split; [done|]. split; [done|]. split; [|by left].
    intros r k Hin. by apply elem_of_nil in Hin.
Qed.

Lemma elem_of_park n acts p :
  p ∈ park n acts -> exists r k, snd p = (r, k) /\ Await r k ∈ acts.
Proof.
  revert n. induction acts as [|act acts IH]; intros n; simpl.
  - intros H. by apply elem_of_nil in H.
  - destruct act as [r k|r|q b].
    + intros H. apply elem_of_cons in H as [->|H].
      * exists r, k. split; [done | apply elem_of_cons; by left].
      * destruct (IH _ H) as (r' & k' & ? & ?). exists r', k'.
        split; [done | apply elem_of_cons; by right].
    + intros H. destruct (IH _ H) as (r' & k' & ? & ?). exists r', k'.
      split; [done | apply elem_of_cons; by right].
    + intros H. destruct (IH _ H) as (r' & k' & ? & ?). exists r', k'.
      split; [done | apply elem_of_cons; by right].
Qed.

Lemma elem_of_pending_unpark rid st p :
  p ∈ pending (unpark rid st) <-> p ∈ pending st /\ fst p <> rid.
Proof.
  unfold unpark. simpl. rewrite !list_elem_of_In, List.filter_In.
  rewrite negb_true_iff, Nat.eqb_neq. tauto.
Qed.

Lemma lookup_pending_elem rid st r k :
  lookup_pending rid st = Some (r, k) -> (rid, (r, k)) ∈ pending st.
Proof.
  unfold lookup_pending.
  destruct (List.find _ (pending st)) as [[n x]|] eqn:E; [|done].
  intros [= ->]. apply List.find_some in E as [Hin Hn].
  apply Nat.eqb_eq in Hn. simpl in Hn. subst. by apply list_elem_of_In.
Qed.

Lemma lookup_pending_turn rid a st x :
  lookup_pending rid st = Some x -> lookup_pending rid (turn a st) = Some x.
Proof.
  unfold lookup_pending. rewrite pending_turn.
  destruct (List.find _ (pending st)) as [p|] eqn:E; [|done].
  intros [= <-].
  assert (List.find (fun p => Nat.eqb (fst p) rid)
                    (pending st ++ park (next_id st) (snd (a (world st))))
          = Some p) as ->; [|done].
  clear -E. induction (pending st) as [|y l IH]; simpl in *; [done|].
  destruct (Nat.eqb (fst y) rid); [done | by apply IH].
Qed.

Lemma lookup_pending_unpark rid rid' st :
  rid <> rid' -> lookup_pending rid (unpark rid' st) = lookup_pending rid st.
Proof.
  intros Hne. unfold lookup_pending, unpark. simpl.
  assert (List.find (fun p => Nat.eqb (fst p) rid)
            (List.filter (fun p => negb (Nat.eqb (fst p) rid')) (pending st))
          = List.find (fun p => Nat.eqb (fst p) rid) (pending st)) as ->; [|done].
  induction (pending st) as [|y l IH]; simpl; [done|].
  destruct (Nat.eqb (fst y) rid') eqn:E1; simpl.
  - apply Nat.eqb_eq in E1.
    destruct (Nat.eqb (fst y) rid) eqn:E2; [|done].
    apply Nat.eqb_eq in E2. congruence.
  - by rewrite IH.
Qed.

(** A step does nothing, resumes a parked continuation with the answer of
    the event, or runs [handleSearch]. *)
Lemma step_cases B ev st :
  step B ev st = st \/
  (exists rid r k a,
      targets ev = Some rid /\ lookup_pending rid st = Some (r, k) /\
      (a = Rejected \/
       (exists key, r = StorageGet key /\ a = StorageItems (store st !! key)) \/
       (forall key, r <> StorageGet key)) /\
      step B ev st = turn (resume B k a) (unpark rid st)) \/
  (targets ev = None /\ step B ev st = turn handleSearch st).
Proof.
  destruct ev as [rid|rid a| |key]; simpl.
  - destruct (lookup_pending rid st) as [[r k]|] eqn:E; [|by left].
    destruct r; try (by left).
    right. left. exists rid, (StorageGet key), k, (StorageItems (store st !! key)).
    split; [done|]. split; [done|]. split; [|done].
    right. left. by exists key.
  - destruct (lookup_pending rid st) as [[r k]|] eqn:E; [|by left].
    destruct (accepts r a) eqn:Ea; [|by left].
    right. left. exists rid, r, k, a.
    split; [done|]. split; [done|]. split; [|done].
    destruct r, a; try discriminate Ea; auto; right; right; by intros.
  - right. right. done.
  - destruct (String.eqb key "Enter"); [|by left]. right. right. done.
Qed.

(** *** The pending search *)

(** A step that wakes no [checkPendingSearch] continuation. *)
Lemma step_quiet B ev st :
  (forall rid r k, targets ev = Some rid -> lookup_pending rid st = Some (r, k) ->
                   is_check k = false) ->
  store (step B ev st) = store st /\
  input (step B ev st) = input st /\
  (forall p, p ∈ pending (step B ev st) ->
             p ∈ pending st \/ is_check (snd (snd p)) = false) /\
  (forall rid x, targets ev <> Some rid -> lookup_pending rid st = Some x ->
                 lookup_pending rid (step B ev st) = Some x) /\
  exists acts, log (step B ev st) = log st ++ acts /\
               (JS.trim (input st) = "" -> no_user_search acts).
Proof.
  intros Hq. unfold store, input.
  destruct (step_cases B ev st) as [-> | [(rid & r & k & a & Ht & Hl & _ & ->) | [Ht ->]]].
  - repeat split; try done; [by left|].
    exists []. split; [by rewrite app_nil_r|]. intros _ q H. by apply elem_of_nil in H.
  - specialize (Hq _ _ _ Ht Hl).
    destruct (resume_frame B k a (world (unpark rid st)) Hq) as (Hs & Hi & Hn & Hns).
    rewrite world_turn, Hs, Hi, log_turn, pending_turn. simpl.
    repeat split; try done.
    + intros p Hp. apply elem_of_app in Hp as [Hp|Hp].
      * left. change (p ∈ pending (unpark rid st)) in Hp.
        by apply elem_of_pending_unpark in Hp as [Hp _].
      * right. apply elem_of_park in Hp as (r' & k' & -> & Hin). simpl.
        by apply (Hn r' k').
    + intros rid' x Hne Hx. apply lookup_pending_turn.
      rewrite lookup_pending_unpark; [done | congruence].
    + eexists. split; [done|]. intros _ q. apply Hns.
  - destruct (handleSearch_frame (world st)) as (Hs & Hi & Hn & Hacts).
    rewrite world_turn, Hs, Hi, log_turn, pending_turn.
    repeat split; try done.
    + intros p Hp. apply elem_of_app in Hp as [Hp|Hp]; [by left|].
      right. apply elem_of_park in Hp as (r' & k' & -> & Hin). simpl.
      by apply (Hn r' k').
    + intros rid' x _ Hx. by apply lookup_pending_turn.
    + eexists. split; [done|]. intros Hblank q.
      destruct Hacts as [-> | [Hne _]]; [apply not_elem_of_nil | done].
Qed.

(** Waking the check when the store holds no pending value does nothing
    but unpark it. *)
Lemma step_check_absent B ev st rid :
  targets ev = Some rid ->
  lookup_pending rid st = Some (StorageGet "pendingSearch", K_checkPendingSearch) ->
  store st !! "pendingSearch" = None ->
  store (step B ev st) = store st /\
  input (step B ev st) = input st /\
  (forall p, p ∈ pending (step B ev st) -> p ∈ pending st) /\
  log (step B ev st) = log st.
Proof.
  intros Ht Hl Hnone. unfold store, input.
  destruct (step_cases B ev st)
    as [-> | [(rid' & r & k & a & Ht' & Hl' & Ha & ->) | [Ht' _]]];
    [done | | congruence].
  assert (rid' = rid) as -> by congruence.
  rewrite Hl in Hl'. injection Hl' as <- <-.
  assert (resume B K_checkPendingSearch a (world (unpark rid st))
          = (world (unpark rid st), [])) as Hret.
  { destruct Ha as [-> | [(key & [= <-] & ->) | Hno]]; [done | |].
    - by rewrite Hnone.
    - by destruct (Hno "pendingSearch"). }
  rewrite world_turn, log_turn, pending_turn, Hret. simpl.
  rewrite !app_nil_r. repeat split; try done.
  intros p Hp. change (p ∈ pending (unpark rid st)) in Hp.
  by apply elem_of_pending_unpark in Hp as [Hp _].
Qed.

(** The check resumed with a non-empty pending value: the field takes the
    value, the entry is removed, and a value with content beyond white
    space starts the search for it. *)
Lemma resume_check_present B v w :
  v <> "" ->
  let r := resume B K_checkPendingSearch
                  (StorageItems (Some (Coordinator.SVString v))) w in
  storage (fst r) = delete "pendingSearch" (storage w) /\
  searchInput_value (view (fst r)) = strip_newlines v /\
  no_new_checks (snd r) /\
  (JS.trim (strip_newlines v) <> "" ->
   SearchFeatures (user_query (strip_newlines v)) true ∈ snd r /\
   Await (Fetch (api_url (user_query (strip_newlines v)))) (K_fetch true) ∈ snd r).
Proof.
  intros Hv. cbv zeta. unfold resume, value_truthy, value_string.
  assert (JS.truthy v = true) as -> by (by destruct v).
  set (w1 := mkWorld (set_searchInput v (view w)) (storage w)).
  destruct (handleSearch_frame w1) as (Hs & Hi & Hn & Hacts).
  destruct (handleSearch w1) as [w2 acts] eqn:E. simpl in Hs, Hi, Hn, Hacts.
  assert ((lift (set_searchInput v) >> handleSearch >>
           storage_remove "pendingSearch") w
          = (mkWorld (view w2) (delete "pendingSearch" (storage w2)),
             acts ++ [Fire (StorageRemove "pendingSearch")])) as ->.
  { cbv [andThen lift storage_remove]. fold w1. by rewrite E. }
  simpl.
  split; [by rewrite Hs|]. split; [done|]. split.
  - intros r k Hin. apply elem_of_app in Hin as [Hin|Hin]; [by apply (Hn r k)|].
    apply elem_of_cons in Hin as [Hin|Hin]; [discriminate Hin|].
    by apply elem_of_nil in Hin.
  - intros Ht. destruct Hacts as [-> | [_ ->]].
    + unfold handleSearch in E. simpl in E.
      destruct (JS.trim (strip_newlines v)); [done | discriminate E].
    + split; apply elem_of_app; left;
        [apply elem_of_cons; by left
        | apply elem_of_cons; right; apply elem_of_cons; by left].
Qed.

Lemma exec_app B evs1 evs2 st :
  exec B (evs1 ++ evs2) st = exec B evs2 (exec B evs1 st).
Proof. unfold exec. by rewrite fold_left_app. Qed.

(** While the read is parked and unanswered, nothing touches the store or
    the search field. *)
Lemma waiting_exec B evs s0 st :
  Forall (fun ev => targets ev <> Some 0) evs ->
  input st = "" -> store st = s0 -> checks_ok st ->
  lookup_pending 0 st = Some (StorageGet "pendingSearch", K_checkPendingSearch) ->
  let st' := exec B evs st in
  input st' = "" /\ store st' = s0 /\ checks_ok st' /\
  lookup_pending 0 st' = Some (StorageGet "pendingSearch", K_checkPendingSearch) /\
  (no_user_search (log st) -> no_user_search (log st')).
Proof.
  intros Hevs. revert st.
  induction Hevs as [|ev evs Hev _ IH]; intros st Hi Hs Hc Hl; [done|].
  cbv zeta. change (exec B (ev :: evs) st) with (exec B evs (step B ev st)).
  destruct (step_quiet B ev st) as (Hs' & Hi' & Hp' & Hl' & acts & Hlog & Hns).
  { intros rid r k Ht Hlk. destruct (is_check k) eqn:Ek; [|done].
    apply lookup_pending_elem in Hlk. pose proof (Hc _ Hlk Ek) as Heq.
    injection Heq as -> _ _. congruence. }
  destruct (IH (step B ev st)) as (H1 & H2 & H3 & H4 & H5).
  - congruence.
  - congruence.
  - intros p Hp Hk. destruct (Hp' p Hp) as [Hin|Hno]; [by apply Hc | congruence].
  - by apply Hl'.
  - repeat split; try done. intros Hno. apply H5. rewrite Hlog.
    intros q Hq. apply elem_of_app in Hq as [Hq|Hq]; [by apply (Hno q)|].
    apply (Hns (f_equal JS.trim Hi) q Hq).
Qed.

(** Once the check has run, the store and the search field stay as it
    left them. *)
Lemma consumed_exec B evs v s st :
  input st = v -> store st = s -> no_checks st ->
  let st' := exec B evs st in
  input st' = v /\ store st' = s /\ no_checks st'.
Proof.
  revert st. induction evs as [|ev evs IH]; intros st Hi Hs Hc; [done|].
  cbv zeta. change (exec B (ev :: evs) st) with (exec B evs (step B ev st)).
  destruct (step_quiet B ev st) as (Hs' & Hi' & Hp' & _).
  { intros rid r k _ Hlk. apply lookup_pending_elem in Hlk. apply (Hc _ Hlk). }
  apply IH; [congruence | congruence |].
  intros p Hp. destruct (Hp' p Hp) as [Hin|Hno]; [by apply Hc | done].
Qed.

(** A panel opened on a store without pending value never starts a user
    search by itself. *)
Lemma idle_exec B evs st :
  input st = "" -> store st !! "pendingSearch" = None -> checks_ok st ->
  no_user_search (log st) ->
  let st' := exec B evs st in
  input st' = "" /\ store st' !! "pendingSearch" = None /\
  no_user_search (log st').
Proof.
  revert st. induction evs as [|ev evs IH]; intros st Hi Hs Hc Hno; [done|].
  cbv zeta. change (exec B (ev :: evs) st) with (exec B evs (step B ev st)).
  assert (input (step B ev st) = "" /\
          store (step B ev st) !! "pendingSearch" = None /\
          checks_ok (step B ev st) /\
          no_user_search (log (step B ev st))) as (H1 & H2 & H3 & H4);
    [|by apply IH].
  destruct (targets ev) as [rid|] eqn:Et.
  - destruct (lookup_pending rid st) as [[r k]|] eqn:El.
    + destruct (is_check k) eqn:Ek.
      * pose proof (Hc _ (lookup_pending_elem _ _ _ _ El) Ek) as Heq.
        injection Heq as -> -> ->.
        destruct (step_check_absent B ev st 0 Et El Hs) as (Hs' & Hi' & Hp' & Hlog).
        repeat split; [congruence | congruence | | by rewrite Hlog].
        intros p Hp. apply Hc. by apply Hp'.
      * destruct (step_quiet B ev st) as (Hs' & Hi' & Hp' & _ & acts & Hlog & Hns).
        { intros rid' r' k' Ht' Hlk. congruence. }
        repeat split; [congruence | congruence | |].
        -- intros p Hp Hk. destruct (Hp' p Hp) as [Hin|Hn]; [by apply Hc | congruence].
        -- rewrite Hlog. intros q Hq.
           apply elem_of_app in Hq as [Hq|Hq]; [by apply (Hno q)|].
           apply (Hns (f_equal JS.trim Hi) q Hq).
    + destruct (step_quiet B ev st) as (Hs' & Hi' & Hp' & _ & acts & Hlog & Hns).
      { intros rid' r' k' Ht' Hlk. congruence. }
      repeat split; [congruence | congruence | |].
      * intros p Hp Hk. destruct (Hp' p Hp) as [Hin|Hn]; [by apply Hc | congruence].
      * rewrite Hlog. intros q Hq.
        apply elem_of_app in Hq as [Hq|Hq]; [by apply (Hno q)|].
        apply (Hns (f_equal JS.trim Hi) q Hq).
  - destruct (step_quiet B ev st) as (Hs' & Hi' & Hp' & _ & acts & Hlog & Hns).
    { intros rid' r' k' Ht' Hlk. congruence. }
    repeat split; [congruence | congruence | |].
    + intros p Hp Hk. destruct (Hp' p Hp) as [Hin|Hn]; [by apply Hc | congruence].
    + rewrite Hlog. intros q Hq.
      apply elem_of_app in Hq as [Hq|Hq]; [by apply (Hno q)|].
      apply (Hns (f_equal JS.trim Hi) q Hq).
Qed.

Lemma open_ready s0 :
  input (open s0) = "" /\ store (open s0) = s0 /\ checks_ok (open s0) /\
  lookup_pending 0 (open s0)
  = Some (StorageGet "pendingSearch", K_checkPendingSearch) /\
  no_user_search (log (open s0)).
Proof.
  repeat split; try done.
  - intros p Hp Hk. cbn in Hp.
    repeat (apply elem_of_cons in Hp as [->|Hp]; [done || discriminate Hk|]).
    by apply elem_of_nil in Hp.
  - intros q Hq. cbn in Hq.
    repeat (apply elem_of_cons in Hq as [Hq|Hq]; [discriminate Hq|]).
    by apply elem_of_nil in Hq.
Qed.

(** The store's reply to the parked read, when it holds a non-empty
    value. *)
Lemma step_consume B v st :
  v <> "" ->
  lookup_pending 0 st = Some (StorageGet "pendingSearch", K_checkPendingSearch) ->
  checks_ok st ->
  store st !! "pendingSearch" = Some (Coordinator.SVString v) ->
  let st' := step B (StorageReply 0) st in
  input st' = strip_newlines v /\ store st' = delete "pendingSearch" (store st) /\
  no_checks st' /\
  (JS.trim (strip_newlines v) <> "" ->
   SearchFeatures (user_query (strip_newlines v)) true ∈ log st' /\
   Await (Fetch (api_url (user_query (strip_newlines v)))) (K_fetch true) ∈ log st').
Proof.
  intros Hv Hl Hc Hs. cbv zeta. unfold input, store in *. simpl. rewrite Hl.
  change (storage (world st)) with (storage (world (unpark 0 st))) in Hs.
  change (storage (world st)) with (storage (world (unpark 0 st))).
  rewrite Hs.
  destruct (resume_check_present B v (world (unpark 0 st)) Hv)
    as (Hst & Hin & Hn & Hsearch).
  rewrite world_turn, log_turn.
  split; [done|]. split; [done|]. split.
  - intros p Hp. rewrite pending_turn in Hp. apply elem_of_app in Hp as [Hp|Hp].
    + apply elem_of_pending_unpark in Hp as [Hp Hne].
      destruct (is_check (snd (snd p))) eqn:Ek; [|done].
      specialize (Hc _ Hp Ek). by subst.
    + apply elem_of_park in Hp as (r & k & -> & Hin'). by apply (Hn r k).
  - intros Ht. destruct (Hsearch Ht) as [H1 H2].
    split; apply elem_of_app; by right.
Qed.

Lemma elem_of_log_exec B evs st a : a ∈ log st -> a ∈ log (exec B evs st).
Proof.
  intros H. destruct (log_exec B evs st) as [rest ->].
  apply elem_of_app. by left.
Qed.

(** C6 fails for the empty value, which the Coordinator stores for a
    selection of white space: the panel starts no search for it and
    leaves it in the store. *)
Lemma blank_pending_value_stays :
  ~ pending_value_consumed Fixtures.builtins Fixtures.store_blank "".
Proof.
  intros H. destruct H as (_ & _ & H).
  - vm_compute. reflexivity.
  - vm_compute in H. discriminate H.
Qed.

Lemma strip_newlines_plain v : has_newline v = false -> strip_newlines v = v.
Proof.
  induction v as [|c v IH]; [done|]. cbn [has_newline strip_newlines].
  destruct (is_newline c); [done|]. intros H. by rewrite IH.
Qed.

(** C6 (amended). A non-empty pending value is consumed exactly once: when
    the store replies, the text search field takes the value, which it
    holds without its line breaks (so as it is, when it has none), and the
    entry is removed; if what the field holds has content beyond white space
    the search for it is started.  A panel opened on the resulting store
    finds no pending value and starts no user search by itself. *)
Theorem pending_search_consumed_once (B : Builtins)
        (s0 : gmap string Coordinator.StorageValue) (v : string)
        (evs1 evs2 : list Event)
        (Hv : v <> "")
        (Hs0 : s0 !! "pendingSearch" = Some (Coordinator.SVString v))
        (Hevs1 : Forall (fun ev => targets ev <> Some 0) evs1) :
  let st := exec B (evs1 ++ StorageReply 0 :: evs2) (open s0) in
  input st = strip_newlines v /\
  (has_newline v = false -> input st = v) /\
  store st !! "pendingSearch" = None /\
  (JS.trim (input st) <> "" ->
   SearchFeatures (user_query (input st)) true ∈ log st /\
   Await (Fetch (api_url (user_query (input st)))) (K_fetch true) ∈ log st) /\
  forall evs',
    let st' := exec B evs' (open (store st)) in
    store st' !! "pendingSearch" = None /\ no_user_search (log st').
Proof.
  cbv zeta. rewrite exec_app.
  change (exec B (StorageReply 0 :: evs2) ?s)
    with (exec B evs2 (step B (StorageReply 0) s)).
  destruct (open_ready s0) as (Hi0 & Hst0 & Hc0 & Hl0 & _).
  destruct (waiting_exec B evs1 s0 (open s0) Hevs1 Hi0 Hst0 Hc0 Hl0)
    as (Hi1 & Hst1 & Hc1 & Hl1 & _).
  set (st1 := exec B evs1 (open s0)) in *.
  assert (store st1 !! "pendingSearch" = Some (Coordinator.SVString v)) as Hs1
      by (by rewrite Hst1).
  destruct (step_consume B v st1 Hv Hl1 Hc1 Hs1) as (Hi2 & Hst2 & Hc2 & Hsearch).
  set (st2 := step B (StorageReply 0) st1) in *.
  destruct (consumed_exec B evs2 (strip_newlines v) _ st2 Hi2 Hst2 Hc2)
    as (Hi3 & Hst3 & _).
  set (st3 := exec B evs2 st2) in *.
  assert (store st3 !! "pendingSearch" = None) as Hnone
      by (rewrite Hst3; apply lookup_delete_eq).
  split; [done|]. split; [intros Hplain; by rewrite Hi3, strip_newlines_plain|].
  split; [done|]. split.
  - rewrite Hi3. intros Ht. destruct (Hsearch Ht) as [H1 H2].
    split; by apply elem_of_log_exec.
  - intros evs'.
    destruct (open_ready (store st3)) as (Hi4 & Hst4 & Hc4 & _ & Hno4).
    destruct (idle_exec B evs' (open (store st3))) as (_ & H1 & H2);
      [done | by rewrite Hst4 | done | done | done].
Qed.

Lemma pending_search_consumed_once_witness :
  let st := exec Fixtures.builtins ([] ++ StorageReply 0 :: [])
                 (open Fixtures.store_grid) in
  input st = strip_newlines "grid" /\
  (has_newline "grid" = false -> input st = "grid") /\
  store st !! "pendingSearch" = None /\
  (JS.trim (input st) <> "" ->
   SearchFeatures (user_query (input st)) true ∈ log st /\
   Await (Fetch (api_url (user_query (input st)))) (K_fetch true) ∈ log st) /\
  forall evs',
    let st' := exec Fixtures.builtins evs' (open (store st)) in
    store st' !! "pendingSearch" = None /\ no_user_search (log st').
Proof.
  apply (pending_search_consumed_once Fixtures.builtins Fixtures.store_grid
           "grid" [] []).
  - discriminate.
  - vm_compute. reflexivity.
  - constructor.
Defined.

Lemma blank_search_is_ignored_witness :
  step Fixtures.builtins Click (open ∅) = open ∅ /\
  step Fixtures.builtins (KeyPress "Enter") (open ∅) = open ∅.
Proof. apply blank_search_is_ignored. reflexivity. Defined.

End EventLoop.

(** * Further properties *)

(** ** Trimming *)

Section Trim.

Lemma trimStart_head s :
  JS.trimStart s = "" \/
  exists c t, JS.trimStart s = String c t /\ JS.is_space c = false.
Proof.
  induction s as [|c s IH]; simpl; [by left|].
  destruct (JS.is_space c) eqn:E; [done|]. right. by exists c, s.
Qed.

Lemma trimEnd_head c t :
  JS.is_space c = false -> exists t', JS.trimEnd (String c t) = String c t'.
Proof.
  intros H. simpl. destruct (JS.trimEnd t); rewrite ?H; by eexists.
Qed.

Lemma trimEnd_idem s : JS.trimEnd (JS.trimEnd s) = JS.trimEnd s.
Proof.
  induction s as [|c s IH]; simpl; [done|].
  destruct (JS.trimEnd s) as [|d u] eqn:E.
  - destruct (JS.is_space c) eqn:Ec; simpl; [done | by rewrite Ec].
  - change (JS.trimEnd (String c (String d u))) with
      (match JS.trimEnd (String d u) with
       | EmptyString => if JS.is_space c then EmptyString else String c EmptyString
       | t => String c t
       end).
    by rewrite IH.
Qed.

Lemma trimStart_nil_all_space s : JS.trimStart s = "" -> JS.all_space s = true.
Proof.
  induction s as [|c s IH]; simpl; [done|].
  destruct (JS.is_space c); [by apply IH | discriminate].
Qed.

(** Trimming twice is trimming once: the result has no white space left at
    either end. *)
Lemma trim_idem s : JS.trim (JS.trim s) = JS.trim s.
Proof.
  unfold JS.trim. destruct (trimStart_head s) as [-> | (c & t & -> & Hc)]; [done|].
  destruct (trimEnd_head c t Hc) as [t' E]. rewrite E.
  simpl JS.trimStart. rewrite Hc, <- E. apply trimEnd_idem.
Qed.

(** The trimmed text is empty exactly when the text is all white space. *)
Lemma trim_nil_iff s : JS.trim s = "" <-> JS.all_space s = true.
Proof.
  split.
  - unfold JS.trim. intros H.
    destruct (trimStart_head s) as [E | (c & t & E & Hc)].
    + by apply trimStart_nil_all_space.
    + rewrite E in H. destruct (trimEnd_head c t Hc) as [t' E'].
      rewrite E' in H. discriminate H.
  - intros H. unfold JS.trim.
    assert (JS.trimStart s = "") as ->; [|done].
    induction s as [|c s IH]; simpl in *; [done|].
    apply andb_true_iff in H as [-> Hs]. by apply IH.
Qed.

End Trim.

(** ** More on the panel's event loop *)

Section PanelFacts.

Import Panel.

Lemma handleSearch_content w :
  JS.all_space (searchInput_value (view w)) = false ->
  handleSearch w
  = (mkWorld (showLoading (view w)) (storage w),
     [SearchFeatures (user_query (searchInput_value (view w))) true;
      Await (Fetch (api_url (user_query (searchInput_value (view w)))))
            (K_fetch true)]).
Proof.
  intros H. unfold handleSearch, user_query. cbv zeta.
  destruct (JS.trim (searchInput_value (view w))) as [|c q] eqn:E.
  - apply trim_nil_iff in E. congruence.
  - reflexivity.
Qed.

(** X1. A click on the search button, or Enter in the field, with text
    that has content beyond white space starts exactly one search: the
    loading view is shown, one request for the trimmed text is issued and
    parked under the next id, and nothing else changes. *)
Theorem search_with_content (B : Builtins) (st : State)
        (H : JS.all_space (input st) = false) :
  let after :=
    mkState (mkWorld (showLoading (view (world st))) (store st))
            (pending st ++
             [(next_id st, (Fetch (api_url (user_query (input st))), K_fetch true))])
            (next_id st + 1)
            (log st ++
             [SearchFeatures (user_query (input st)) true;
              Await (Fetch (api_url (user_query (input st)))) (K_fetch true)]) in
  step B Click st = after /\ step B (KeyPress "Enter") st = after.
Proof.
  cbv zeta. unfold input, store in *.
  assert (turn handleSearch st
          = mkState (mkWorld (showLoading (view (world st))) (storage (world st)))
              (pending st ++
               [(next_id st,
                 (Fetch (api_url (user_query (searchInput_value (view (world st))))),
                  K_fetch true))])
              (next_id st + 1)
              (log st ++
               [SearchFeatures (user_query (searchInput_value (view (world st)))) true;
                Await (Fetch (api_url (user_query
                                         (searchInput_value (view (world st))))))
                      (K_fetch true)])) as E.
  { unfold turn. by rewrite (handleSearch_content _ H). }
  split; simpl; exact E.
Qed.

Lemma search_with_content_witness :
  let st := exec Fixtures.builtins [StorageReply 0] (open Fixtures.store_grid) in
  exists after,
    step Fixtures.builtins Click st = after /\
    step Fixtures.builtins (KeyPress "Enter") st = after.
Proof.
  cbv zeta. eexists.
  apply (search_with_content Fixtures.builtins
           (exec Fixtures.builtins [StorageReply 0] (open Fixtures.store_grid))).
  vm_compute. reflexivity.
Defined.

Lemma view_handleSearch w :
  view (fst (handleSearch w)) = view w \/
  view (fst (handleSearch w)) = showLoading (view w).
Proof.
  unfold handleSearch. cbv zeta.
  destruct (JS.truthy (JS.trim (searchInput_value (view w)))); [by right | by left].
Qed.

(** A property of the panel's elements that every method keeps is kept by
    every step of the event loop. *)
Lemma view_step (P : View -> Prop) B :
  (forall v, P v -> P (showLoading v)) ->
  (forall s v, P v -> P (set_searchInput s v)) ->
  (forall m v, P v -> P (hideLoading (showError m v))) ->
  (forall fs b v, P v -> P (hideLoading (displayResults B fs b v))) ->
  (forall v, P v -> P (hideDetectedFeatures v)) ->
  (forall fs v, P v -> P (displayDetectedFeatures fs v)) ->
  forall ev st, P (view (world st)) -> P (view (world (step B ev st))).
Proof.
  intros Hl Hi He Hr Hh Hd ev st HP.
  destruct (step_cases B ev st) as [-> | [(rid & r & k & a & _ & _ & _ & ->) | [_ ->]]];
    [done | |].
  - rewrite world_turn. change (world (unpark rid st)) with (world st).
    destruct k.
    + destruct a as [|[v|]| | | |]; try exact HP.
      cbn [resume]. destruct (value_truthy v); [|exact HP].
      cbv [andThen lift storage_remove].
      set (w1 := mkWorld (set_searchInput (value_string v) (view (world st)))
                         (storage (world st))).
      pose proof (view_handleSearch w1) as Hv.
      destruct (handleSearch w1) as [w2 acts]. simpl in *.
      destruct Hv as [-> | ->]; [apply Hi | apply Hl, Hi]; exact HP.
    + destruct a as [| |[t|]| | |]; cbn; try (by apply Hh). exact HP.
    + destruct a as [| | |[[fs|]|]| |]; try (cbn; by apply Hh).
      cbn [resume]. destruct (0 <? length fs)%nat; cbn; [by apply Hd | by apply Hh].
    + destruct a as [| | | |[] status|]; cbn; try (by apply He). exact HP.
    + destruct a as [| | | | |data]; cbn; try (by apply He). by apply Hr.
  - rewrite world_turn. destruct (view_handleSearch (world st)) as [-> | ->];
      [done | by apply Hl].
Qed.

Lemma view_exec (P : View -> Prop) B :
  (forall v, P v -> P (showLoading v)) ->
  (forall s v, P v -> P (set_searchInput s v)) ->
  (forall m v, P v -> P (hideLoading (showError m v))) ->
  (forall fs b v, P v -> P (hideLoading (displayResults B fs b v))) ->
  (forall v, P v -> P (hideDetectedFeatures v)) ->
  (forall fs v, P v -> P (displayDetectedFeatures fs v)) ->
  forall evs st, P (view (world st)) -> P (view (world (exec B evs st))).
Proof.
  intros Hl Hi He Hr Hh Hd evs.
  induction evs as [|ev evs IH]; intros st HP; [done|].
  change (exec B (ev :: evs) st) with (exec B evs (step B ev st)).
  apply IH. by apply view_step.
Qed.

(** X2. At every moment after the panel has opened, exactly one of the
    loading indicator, the result container and the empty-state view is
    shown, whatever answers arrive and in whatever order. *)
Theorem one_visible_always (B : Builtins)
        (s0 : gmap string Coordinator.StorageValue) (evs : list Event) :
  one_visible (view (world (exec B evs (open s0)))).
Proof.
  apply view_exec.
  - intros v _. left. done.
  - intros s v H. exact H.
  - intros m v _. right. left. done.
  - intros fs b v _. unfold displayResults.
    destruct (length fs =? 0)%nat; [right; right; done | right; left; done].
  - intros v H. exact H.
  - intros fs v H. exact H.
  - left. done.
Qed.

Lemma tidy_displayResults B fs b v :
  tidy B v -> tidy B (displayResults B fs b v).
Proof.
  intros Hv. unfold displayResults.
  destruct (length fs =? 0)%nat eqn:E0; [exact Hv|].
  right. right. exists (firstn 8 fs).
  cbn [results_innerHTML results_appended]. unfold card_elements.
  cbn [results_innerHTML]. fold (cards_markup B (firstn 8 fs)).
  rewrite length_firstn.
  split; [lia|]. split; [done|].
  destruct (8 <? length fs)%nat eqn:E8.
  - apply Nat.ltb_lt in E8. split; [simpl; lia|]. split; [lia|].
    intros Hp. rewrite (elements_of_cards B _ Hp). by rewrite length_firstn.
  - split; [simpl; lia|]. split; [done|].
    intros Hp. rewrite (elements_of_cards B _ Hp). by rewrite length_firstn.
Qed.

(** X3. At every moment after the panel has opened, the result container
    holds nothing, the error notice, or the markup of the cards of at most
    8 catalog features, with at most one footer appended, and a footer only
    after the cards of exactly 8 features; where the values of those
    features hold no markup, the container has exactly one card element for
    each of them. *)
Theorem results_bounded_always (B : Builtins)
        (s0 : gmap string Coordinator.StorageValue) (evs : list Event) :
  tidy B (view (world (exec B evs (open s0)))).
Proof.
  apply view_exec.
  - intros v H. exact H.
  - intros s v H. exact H.
  - intros m v _. right. left. by exists m.
  - intros fs b v H. apply (tidy_displayResults B fs b v H).
  - intros v H. exact H.
  - intros fs v H. exact H.
  - by left.
Qed.

Lemma resume_storage B k a w :
  storage (fst (resume B k a w)) = storage w \/
  storage (fst (resume B k a w)) = delete "pendingSearch" (storage w).
Proof.
  destruct (is_check k) eqn:Ek.
  - destruct k; try discriminate Ek.
    destruct a as [|[v|]| | | |]; try (by left).
    cbn [resume]. destruct (value_truthy v); [|by left].
    cbv [andThen lift storage_remove].
    set (w1 := mkWorld (set_searchInput (value_string v) (view w)) (storage w)).
    destruct (handleSearch_frame w1) as (Hs & _).
    destruct (handleSearch w1) as [w2 acts]. simpl in *. right. by rewrite Hs.
  - left. by destruct (resume_frame B k a w Ek) as (Hs & _).
Qed.

Lemma store_step B ev st :
  store (step B ev st) = store st \/
  store (step B ev st) = delete "pendingSearch" (store st).
Proof.
  unfold store.
  destruct (step_cases B ev st) as [-> | [(rid & r & k & a & _ & _ & _ & ->) | [_ ->]]];
    [by left | |].
  - rewrite world_turn. apply (resume_storage B k a (world (unpark rid st))).
  - rewrite world_turn. left. by destruct (handleSearch_frame (world st)) as (Hs & _).
Qed.

(** X4. The panel never writes to the session store: whatever happens,
    every key keeps its value, except that [pendingSearch] may have been
    removed. *)
Theorem panel_storage_frame (B : Builtins) (evs : list Event) (st : State)
        (k : string) :
  store (exec B evs st) !! k = store st !! k \/
  (k = "pendingSearch" /\ store (exec B evs st) !! k = None).
Proof.
  revert st. induction evs as [|ev evs IH]; intros st; [by left|].
  change (exec B (ev :: evs) st) with (exec B evs (step B ev st)).
  destruct (IH (step B ev st)) as [-> | Hr]; [|by right].
  destruct (store_step B ev st) as [-> | ->]; [by left|].
  destruct (decide (k = "pendingSearch")) as [-> | Hne].
  - right. split; [done | apply lookup_delete_eq].
  - left. by apply lookup_delete_ne.
Qed.

Lemma catalog_only_app l1 l2 :
  catalog_only l1 -> catalog_only l2 -> catalog_only (l1 ++ l2).
Proof.
  intros [H1 F1] [H2 F2]. split.
  - intros url k Hin. apply elem_of_app in Hin as [Hin|Hin].
    + destruct (H1 _ _ Hin) as (q & b & ? & ? & ?). exists q, b.
      repeat split; try done. apply elem_of_app. by left.
    + destruct (H2 _ _ Hin) as (q & b & ? & ? & ?). exists q, b.
      repeat split; try done. apply elem_of_app. by right.
  - intros url Hin. apply elem_of_app in Hin as [Hin|Hin];
      [by apply (F1 url) | by apply (F2 url)].
Qed.

Lemma catalog_only_search q b :
  catalog_only [SearchFeatures q b; Await (Fetch (api_url q)) (K_fetch b)].
Proof.
  split.
  - intros url k Hin.
    apply elem_of_cons in Hin as [Hin|Hin]; [discriminate Hin|].
    apply elem_of_cons in Hin as [Hin|Hin]; [|by apply elem_of_nil in Hin].
    injection Hin as -> ->. exists q, b. repeat split. apply elem_of_cons. by left.
  - intros url Hin.
    repeat (apply elem_of_cons in Hin as [Hin|Hin]; [discriminate Hin|]).
    by apply elem_of_nil in Hin.
Qed.

Lemma catalog_only_other (l : list Action) :
  (forall act, act ∈ l ->
     match act with
     | Await (Fetch _) _ | Fire (Fetch _) => False
     | _ => True
     end) ->
  catalog_only l.
Proof.
  intros H. split.
  - intros url k Hin. by destruct (H _ Hin).
  - intros url Hin. by destruct (H _ Hin).
Qed.

Lemma catalog_only_handleSearch w : catalog_only (snd (handleSearch w)).
Proof.
  unfold handleSearch. cbv zeta.
  destruct (JS.truthy _); cbn; [apply catalog_only_search|].
  apply catalog_only_other. intros act H. by apply elem_of_nil in H.
Qed.

Lemma catalog_only_resume B k a w : catalog_only (snd (resume B k a w)).
Proof.
  destruct (is_check k) eqn:Ek.
  - destruct k; try discriminate Ek.
    assert (catalog_only []) as Hnil.
    { apply catalog_only_other. intros act H. by apply elem_of_nil in H. }
    destruct a as [|[v|]| | | |]; try exact Hnil.
    cbn [resume]. destruct (value_truthy v); [|exact Hnil].
    cbv [andThen lift storage_remove].
    set (w1 := mkWorld (set_searchInput (value_string v) (view w)) (storage w)).
    pose proof (catalog_only_handleSearch w1) as Hh.
    destruct (handleSearch w1) as [w2 acts]. simpl in *.
    apply catalog_only_app; [exact Hh|].
    apply catalog_only_other. intros act H.
    apply elem_of_cons in H as [->|H]; [done | by apply elem_of_nil in H].
  - apply catalog_only_other. intros act Hin.
    destruct act as [r k'|r|q b]; [| |done]; (destruct r; try done);
      destruct k; try discriminate Ek; destruct a; cbn in Hin; repeat case_match;
        repeat (apply elem_of_cons in Hin as [Hin|Hin]; [discriminate Hin|]);
        by apply elem_of_nil in Hin.
Qed.

(** X6. The panel requests no URL but the catalog's: every request it ever
    issues is for [api_url q], for a query [q] whose search was entered
    before, and each such request is awaited. *)
Theorem fetches_go_to_catalog (B : Builtins)
        (s0 : gmap string Coordinator.StorageValue) (evs : list Event) :
  catalog_only (log (exec B evs (open s0))).
Proof.
  assert (forall st, catalog_only (log st) -> catalog_only (log (exec B evs st))) as H.
  { induction evs as [|ev evs IH]; intros st Hst; [done|].
    change (exec B (ev :: evs) st) with (exec B evs (step B ev st)).
    apply IH.
    destruct (step_cases B ev st)
      as [-> | [(rid & r & k & a & _ & _ & _ & ->) | [_ ->]]]; [done | |];
      rewrite log_turn; apply catalog_only_app; try done.
    - apply catalog_only_resume.
    - apply catalog_only_handleSearch. }
  apply H. rewrite log_open. unfold startup_log.
  apply (catalog_only_app [Await (StorageGet "pendingSearch") K_checkPendingSearch;
                           Await TabsQuery K_tabs]).
  - apply catalog_only_other. intros act Hin.
    repeat (apply elem_of_cons in Hin as [->|Hin]; [done|]).
    by apply elem_of_nil in Hin.
  - apply catalog_only_search.
Qed.

End PanelFacts.

(** ** More on the Coordinator *)

Section CoordinatorFacts.

Import Coordinator.

(** Different tabs have different keys, and no tab's key is the key of the
    pending search. *)
Lemma features_key_inj a b : features_key a = features_key b -> a = b.
Proof.
  unfold features_key. intros H.
  apply (inj (String.append "features_")) in H. by apply (inj pretty) in H.
Qed.

Lemma features_key_not_pending t : features_key t <> "pendingSearch".
Proof. unfold features_key. intros H. inversion H. Qed.

(** X7. A report from a tab is stored under that tab's key with its url,
    title and the time of arrival; the snapshots of all other tabs and the
    pending search stay as they were. *)
Theorem snapshot_stored (now tid : Z) (features : option (list Feature))
        (url title : string) (st : State) (Htid : tid <> 0%Z) :
  let st' := onMessage now (FEATURES_DETECTED features url title) (Some tid) st in
  storage st' !! features_key tid = Some (SVSnapshot features url title now) /\
  (forall tid', tid' <> tid ->
     storage st' !! features_key tid' = storage st !! features_key tid') /\
  storage st' !! "pendingSearch" = storage st !! "pendingSearch".
Proof.
  cbv zeta. unfold onMessage, tab_truthy.
  destruct (tid =? 0)%Z eqn:E; [apply Z.eqb_eq in E; done|]. simpl.
  split; [apply lookup_insert_eq|]. split.
  - intros tid' Hne. apply lookup_insert_ne. intros H.
    apply features_key_inj in H. congruence.
  - apply lookup_insert_ne, features_key_not_pending.
Qed.

Lemma snapshot_stored_witness :
  let st' := onMessage 5 (FEATURES_DETECTED (Some []) "u" "t") (Some 7%Z)
                       (mkState ∅ []) in
  storage st' !! features_key 7 = Some (SVSnapshot (Some []) "u" "t" 5) /\
  (forall tid', tid' <> 7%Z ->
     storage st' !! features_key tid' = (∅ : gmap string StorageValue) !! features_key tid') /\
  storage st' !! "pendingSearch" = (∅ : gmap string StorageValue) !! "pendingSearch".
Proof.
  apply (snapshot_stored 5 7 (Some []) "u" "t" (mkState ∅ [])). lia.
Defined.

(** X8. Closing a tab removes its snapshot and nothing else; a tab that
    reported once and is then closed leaves the store as it was before the
    report. *)
Theorem tab_closed_forgets (now tid : Z) (features : option (list Feature))
        (url title : string) (st : State) :
  let st1 := onMessage now (FEATURES_DETECTED features url title) (Some tid) st in
  let st2 := onRemoved tid st1 in
  storage st2 !! features_key tid = None /\
  (forall k, k <> features_key tid -> storage st2 !! k = storage st !! k) /\
  (storage st !! features_key tid = None -> storage st2 = storage st).
Proof.
  cbv zeta. unfold onRemoved. cbn [storage].
  assert (delete (features_key tid)
            (storage (onMessage now (FEATURES_DETECTED features url title)
                                (Some tid) st))
          = delete (features_key tid) (storage st)) as ->.
  { unfold onMessage. destruct (tab_truthy (Some tid)); simpl; [|done].
    apply delete_insert_eq. }
  split; [apply lookup_delete_eq|]. split.
  - intros k Hk. by apply lookup_delete_ne.
  - apply delete_id.
Qed.

(** X9. A selection of white space only stores the empty string as pending
    search; any other selection stores its trimmed text, which is not empty
    and has no white space at either end.  Snapshots are not touched. *)
Theorem context_menu_stores_trimmed (sel : string) (st : State) :
  let st' := onClicked "checkBaseline" (Some sel) st in
  (sel <> "" ->
   storage st' !! "pendingSearch" = Some (SVString (JS.trim sel)) /\
   JS.trimmed (JS.trim sel) /\
   (JS.trim sel = "" <-> JS.all_space sel = true)) /\
  (sel = "" -> st' = st) /\
  (forall tid, storage st' !! features_key tid = storage st !! features_key tid).
Proof.
  cbv zeta. unfold onClicked. simpl. split; [|split].
  - intros Hs. destruct sel as [|c sel]; [done|]. simpl.
    split; [apply lookup_insert_eq|]. split; [apply trim_idem | apply trim_nil_iff].
  - by intros ->.
  - intros tid. destruct sel as [|c sel]; [done|]. simpl.
    apply lookup_insert_ne. apply not_eq_sym, features_key_not_pending.
Qed.

Lemma pretty_N_go_length x s :
  String.length s <= String.length (pretty_N_go x s).
Proof.
  revert s. induction (N.lt_wf_0 x) as [x _ IH]; intros s.
  destruct (decide (x = 0)%N) as [->|Hx]; [by rewrite pretty_N_go_0|].
  rewrite pretty_N_go_step by lia.
  etrans; [|apply IH; apply N.div_lt; lia]. simpl. lia.
Qed.

(** The decimal text of a positive count is neither empty nor "0". *)
Lemma toString_pos n : 0 < n -> JS.toString n <> "0" /\ JS.toString n <> "".
Proof.
  intros Hn. unfold JS.toString. split.
  - intros H. change "0" with (pretty 0) in H. apply (inj pretty) in H. lia.
  - unfold pretty, pretty_nat, pretty, pretty_N.
    destruct (decide (N.of_nat n = 0%N)) as [E|E]; [lia|].
    rewrite pretty_N_go_step by lia. intros H.
    pose proof (pretty_N_go_length (N.of_nat n `div` 10)
                  (String (pretty_N_char (N.of_nat n `mod` 10)) "")) as Hl.
    rewrite H in Hl. simpl in Hl. lia.
Qed.

(** X10. The badge carries a colour only together with a positive count:
    after every update either the text is empty and no colour was set, or
    the text is the decimal of a number above 0 (never "0" and never empty)
    and the colour is red or green. *)
Theorem badge_colour_with_count (tabId : option Z)
        (features : option (list Feature)) :
  let calls := updateBadge tabId features in
  (badge_text calls = Some "" /\ badge_color calls = None) \/
  (exists n, 0 < n /\ badge_text calls = Some (JS.toString n) /\
             JS.toString n <> "0" /\ JS.toString n <> "" /\
             (badge_color calls = Some red \/ badge_color calls = Some green)).
Proof.
  cbv zeta. unfold updateBadge.
  destruct features as [fs|]; [|by left].
  destruct (negb (tab_truthy tabId) || (length fs =? 0)%nat) eqn:E; [by left|].
  apply orb_false_iff in E as [_ E]. apply Nat.eqb_neq in E. right.
  destruct (0 <? length (List.filter is_limited fs))%nat eqn:El.
  - apply Nat.ltb_lt in El. exists (length (List.filter is_limited fs)).
    destruct (toString_pos _ El) as [H0 Hn]. repeat split; try done. by left.
  - assert (0 < Nat.min (length fs) 99) as Hpos by lia.
    exists (Nat.min (length fs) 99).
    destruct (toString_pos _ Hpos) as [H0 Hn]. repeat split; try done. by right.
Qed.

End CoordinatorFacts.

(** ** More on the detection pass *)

Section ScannerFacts.

Import Scanner DOM RegExp.

Lemma known_set_evidence i ev s :
  Forall (fun f => known f = true) s ->
  Forall (fun f => known f = true) (set_evidence i ev s).
Proof.
  induction 1 as [|f s Hf Hs IH]; simpl; [constructor|].
  destruct (has_id i f); constructor; done.
Qed.

Lemma Keeps_then a b : Keeps a -> Keeps b -> Keeps (a >> b).
Proof. intros Ha Hb s H. unfold then_. by apply Hb, Ha. Qed.

Lemma Keeps_when_add b i n t ev :
  known (mkFeature i n t ev) = true -> Keeps (when b (addFeature i n t ev)).
Proof.
  intros Hk s [Hnd Hall]. unfold when. destruct b; [|done].
  split; [by apply NoDup_ids_addFeature|].
  unfold addFeature. destruct (List.find (has_id i) s).
  - by apply known_set_evidence.
  - apply Forall_app. split; [done | by constructor].
Qed.

Lemma Keeps_inspect e : Keeps (inspect e).
Proof.
  unfold inspect.
  repeat match goal with |- Keeps (_ >> _) => apply Keeps_then end;
    by apply Keeps_when_add.
Qed.

Lemma Keeps_analyzeComputedStyles draws d : Keeps (analyzeComputedStyles draws d).
Proof.
  unfold analyzeComputedStyles. cbv zeta.
  generalize (seq 0 (Nat.min (length (all_elements d)) 50)) as l.
  intros l s. revert s. induction l as [|k l IH]; intros s Hs; simpl; [done|].
  apply IH. destruct (nth_error _ _); [by apply Keeps_inspect | done].
Qed.

Ltac keeps_steps :=
  cbv zeta;
  repeat match goal with
         | |- Keeps (_ >> _) => apply Keeps_then
         | |- Keeps (when _ (addFeature _ _ _ _)) =>
             apply Keeps_when_add; reflexivity
         end.

Lemma Keeps_detectCSSFeatures draws d : Keeps (detectCSSFeatures draws d).
Proof.
  unfold detectCSSFeatures, analyzeStyleSheets, detectCSSCustomProperties,
    detectModernCSSFeatures.
  keeps_steps. apply Keeps_analyzeComputedStyles.
Qed.

Lemma Keeps_detectJavaScriptFeatures w d : Keeps (detectJavaScriptFeatures w d).
Proof.
  unfold detectJavaScriptFeatures, detectPromiseFeatures, detectModernSyntax,
    detectWebAPIs, detectESModules.
  keeps_steps.
Qed.

Lemma Keeps_html_steps names d : Keeps (html_steps names d).
Proof. unfold html_steps. keeps_steps. Qed.

Lemma well_formed_analyzeDocument w draws d prev :
  well_formed (fst (analyzeDocument w draws d prev)).
Proof.
  unfold analyzeDocument, detectHTMLFeatures. cbv zeta.
  assert (well_formed (detectJavaScriptFeatures w d (detectCSSFeatures draws d [])))
    as H.
  { apply Keeps_detectJavaScriptFeatures, Keeps_detectCSSFeatures.
    split; [apply NoDup_nil_2 | constructor]. }
  destruct (customElements_getNames w); simpl; [|done].
  by apply Keeps_html_steps.
Qed.

Lemma known_spec f :
  known f = true -> id f ∈ catalogue /\ type f ∈ categories.
Proof.
  unfold known. intros H. apply andb_true_iff in H as [H1 H2].
  apply existsb_exists in H1 as (x & Hx & E1).
  apply existsb_exists in H2 as (y & Hy & E2).
  apply String.eqb_eq in E1, E2. subst.
  split; by apply list_elem_of_In.
Qed.

Lemma length_well_formed s : well_formed s -> length s <= 47.
Proof.
  intros [Hnd Hall]. change 47 with (length catalogue).
  replace (length s) with (length (ids s)) by apply length_map.
  apply submseteq_length, NoDup_submseteq; [done|].
  intros i Hi. apply list_elem_of_fmap in Hi as (f & -> & Hf).
  apply known_spec. by apply (proj1 (Forall_forall _ _) Hall).
Qed.

(** X11. Whatever the page, the environment and the elements drawn, the
    set a full pass leaves has one entry per id, every id is one of the 47
    of the catalogue and every entry carries one of the four category tags;
    so a pass reports at most 47 features. *)
Theorem analyzeDocument_well_formed (w : Window) (draws : nat -> nat)
        (d : Document) (prev : Features) :
  let s := fst (analyzeDocument w draws d prev) in
  NoDup (ids s) /\
  (forall f, f ∈ s -> id f ∈ catalogue /\ type f ∈ categories) /\
  length s <= 47.
Proof.
  cbv zeta. destruct (well_formed_analyzeDocument w draws d prev) as [Hnd Hall].
  assert (forall f, f ∈ fst (analyzeDocument w draws d prev) ->
                    id f ∈ catalogue /\ type f ∈ categories) as Hk.
  { intros f Hf. apply known_spec. by apply (proj1 (Forall_forall _ _) Hall). }
  split; [done|]. split; [done|].
  by apply length_well_formed.
Qed.

Lemma Avoids_then i a b : Avoids i a -> Avoids i b -> Avoids i (a >> b).
Proof. intros Ha Hb s H. unfold then_ in H. by apply Ha, Hb. Qed.

Lemma Avoids_when_other b i i' n t ev :
  i' <> i -> Avoids i (when b (addFeature i' n t ev)).
Proof.
  intros Hne s H. unfold when in H. destruct b; [|done].
  apply elem_of_ids_addFeature in H as [->|H]; done.
Qed.

Lemma Avoids_when_false i k : Avoids i (when false k).
Proof. by intros s H. Qed.

Lemma Avoids_Sampling i a : Sampling a -> i ∉ sampled_ids -> Avoids i a.
Proof. intros Ha Hi s H. by apply (Ha s i Hi). Qed.

Lemma Grows_then a b : Grows a -> Grows b -> Grows (a >> b).
Proof. intros Ha Hb s i H. unfold then_. by apply Hb, Ha. Qed.

Lemma Grows_when_add b i n t ev : Grows (when b (addFeature i n t ev)).
Proof.
  intros s j H. unfold when. destruct b; [|done].
  apply elem_of_ids_addFeature. by right.
Qed.

Lemma Grows_inspect e : Grows (inspect e).
Proof.
  unfold inspect.
  repeat match goal with |- Grows (_ >> _) => apply Grows_then end;
    apply Grows_when_add.
Qed.

Lemma Grows_analyzeComputedStyles draws d : Grows (analyzeComputedStyles draws d).
Proof.
  unfold analyzeComputedStyles. cbv zeta.
  generalize (seq 0 (Nat.min (length (all_elements d)) 50)) as l.
  intros l s. revert s. induction l as [|k l IH]; intros s i Hi; simpl; [done|].
  apply IH. destruct (nth_error _ _); [by apply Grows_inspect | done].
Qed.

Ltac grows_steps :=
  cbv zeta;
  repeat match goal with
         | |- Grows (_ >> _) => apply Grows_then
         | |- Grows (when _ (addFeature _ _ _ _)) => apply Grows_when_add
         | |- Grows (analyzeComputedStyles _ _) => apply Grows_analyzeComputedStyles
         end.

Lemma Grows_detectCSSFeatures draws d : Grows (detectCSSFeatures draws d).
Proof.
  unfold detectCSSFeatures, analyzeStyleSheets, detectCSSCustomProperties,
    detectModernCSSFeatures.
  grows_steps.
Qed.

Lemma Grows_detectJavaScriptFeatures w d : Grows (detectJavaScriptFeatures w d).
Proof.
  unfold detectJavaScriptFeatures, detectPromiseFeatures, detectModernSyntax,
    detectWebAPIs, detectESModules.
  grows_steps.
Qed.

Lemma Grows_html_steps names d : Grows (html_steps names d).
Proof. unfold html_steps. grows_steps. Qed.

(** No pass removes an id: what the style pass or the script pass has found
    is in the set the full pass leaves. *)
Lemma found_by_css_stays w draws d prev i :
  i ∈ ids (detectCSSFeatures draws d []) ->
  i ∈ ids (fst (analyzeDocument w draws d prev)).
Proof.
  intros H. unfold analyzeDocument, detectHTMLFeatures. cbv zeta.
  apply (Grows_detectJavaScriptFeatures w d) in H.
  destruct (customElements_getNames w); simpl; [|done].
  by apply Grows_html_steps.
Qed.

Lemma found_by_js_stays w draws d prev i :
  (forall s, i ∈ ids (detectJavaScriptFeatures w d s)) ->
  i ∈ ids (fst (analyzeDocument w draws d prev)).
Proof.
  intros H. unfold analyzeDocument, detectHTMLFeatures. cbv zeta.
  specialize (H (detectCSSFeatures draws d [])).
  destruct (customElements_getNames w); simpl; [|done].
  by apply Grows_html_steps.
Qed.

Lemma avoided_by_all w draws d prev i :
  Avoids i (detectCSSFeatures draws d) ->
  Avoids i (detectJavaScriptFeatures w d) ->
  (forall names, Avoids i (html_steps names d)) ->
  i ∉ ids (fst (analyzeDocument w draws d prev)).
Proof.
  intros Hc Hj Hh H. unfold analyzeDocument, detectHTMLFeatures in H.
  cbv zeta in H.
  assert (i ∈ ids (detectJavaScriptFeatures w d (detectCSSFeatures draws d [])))
    as H'.
  { destruct (customElements_getNames w); simpl in H; [by apply Hh in H | done]. }
  apply Hj, Hc in H'. by apply elem_of_nil in H'.
Qed.

Lemma Adds_when_add i n t ev : Adds i (when true (addFeature i n t ev)).
Proof. intros s. unfold when. apply elem_of_ids_addFeature. by left. Qed.

Lemma Adds_then_r i a b : Adds i b -> Adds i (a >> b).
Proof. intros Hb s. unfold then_. apply Hb. Qed.

Lemma Adds_then_l i a b : Adds i a -> Grows b -> Adds i (a >> b).
Proof. intros Ha Hb s. unfold then_. apply Hb, Ha. Qed.

Ltac adds_step :=
  lazymatch goal with
  | |- Adds _ (_ >> _) =>
      first [ apply Adds_then_r; adds_step
            | apply Adds_then_l; [adds_step | grows_steps] ]
  | |- Adds ?i (when true (addFeature ?i _ _ _)) => apply Adds_when_add
  end.

Lemma append_assoc s1 s2 s3 : (s1 +:+ s2) +:+ s3 = s1 +:+ (s2 +:+ s3).
Proof.
  induction s1 as [|c s1 IH]; [done|]. rewrite !append_cons. by f_equal.
Qed.

(** A pattern found in a text is found in every text that contains it. *)
Lemma test_mono r s s1 s2 : test r s = true -> test r (s1 +:+ s +:+ s2) = true.
Proof.
  intros H. apply test_spec in H as (a & m & b & -> & Hm). apply test_spec.
  exists (s1 +:+ a), m, (b +:+ s2). split; [|done].
  by rewrite !append_assoc.
Qed.

Lemma with_space_cons x l : with_space (x :: l) = x +:+ " " +:+ with_space l.
Proof. reflexivity. Qed.

Lemma with_space_contains x l :
  x ∈ l -> exists s1 s2, with_space l = s1 +:+ x +:+ s2.
Proof.
  induction l as [|y l IH]; intros H; [by apply elem_of_nil in H|].
  rewrite with_space_cons. apply elem_of_cons in H as [->|H].
  - by exists "", (" " +:+ with_space l).
  - destruct (IH H) as (s1 & s2 & ->).
    exists (y +:+ " " +:+ s1), s2. by rewrite !append_assoc.
Qed.

Lemma with_space_app l1 l2 : with_space (l1 ++ l2) = with_space l1 +:+ with_space l2.
Proof.
  induction l1 as [|y l1 IH]; [done|].
  change ((y :: l1) ++ l2) with (y :: (l1 ++ l2)).
  by rewrite !with_space_cons, IH, !append_assoc.
Qed.

Lemma test_getAllCSSText re rule d :
  rule ∈ readable_css d -> test re rule = true -> test re (getAllCSSText d) = true.
Proof.
  intros Hin Ht.
  assert (getAllCSSText d = with_space (readable_css d)) as ->.
  { unfold getAllCSSText, readable_css. by rewrite with_space_app. }
  destruct (with_space_contains _ _ Hin) as (s1 & s2 & ->). by apply test_mono.
Qed.

Lemma test_getAllScriptText re txt d :
  txt ∈ inline_scripts d -> test re txt = true ->
  test re (getAllScriptText d) = true.
Proof.
  intros Hin Ht. unfold getAllScriptText. fold (inline_scripts d).
  destruct (with_space_contains _ _ Hin) as (s1 & s2 & ->). by apply test_mono.
Qed.

Lemma inline_styles_read l text :
  (exists before e after,
      l = before ++ e :: after /\
      Forall (fun x => style x <> None) before /\ style e = Some text) ->
  text ∈ inline_styles l.
Proof.
  intros (before & e & after & -> & Hb & He).
  induction Hb as [|x before Hx Hb IH]; simpl.
  - rewrite He. apply list_elem_of_here.
  - destruct (style x) as [t|]; [|done]. by apply list_elem_of_further.
Qed.

(** The loop over the styled elements ends at the first one without a
    [style] property: the inline grid that follows it is not read, and a
    pass whose draws miss the [div] does not report the grid. *)
Example inline_style_after_failure :
  getAllCSSText Fixtures.foreign_page = "" /\
  "css-grid" ∉ ids (fst (analyzeDocument Fixtures.window Fixtures.draws_root
                                         Fixtures.foreign_page [])).
Proof.
  split; [reflexivity|]. vm_compute. intros H.
  repeat (apply elem_of_cons in H as [H|H]; [discriminate H|]).
  by apply elem_of_nil in H.
Qed.

(** X12. Every pattern of the style pass is found wherever the pass reads
    it: if the pattern matches a rule of a readable style sheet, or the
    inline style of an element that the loop over the styled elements
    reaches (every styled element before it has a [style] property), the
    full pass reports the pattern's id, whatever else the page holds
    (unreadable sheets included) and whatever elements are drawn. *)
Theorem css_pattern_detected (w : Window) (draws : nat -> nat) (d : Document)
        (prev : Features) (re : regex) (i rule : string)
        (Hre : (re, i) ∈ css_patterns)
        (Hrule : rule ∈ flat_map sheet_rules (styleSheets d) \/
                 inline_style_read d rule)
        (Hmatch : test re rule = true) :
  i ∈ ids (fst (analyzeDocument w draws d prev)).
Proof.
  assert (rule ∈ readable_css d) as Hin.
  { unfold readable_css. apply elem_of_app.
    destruct Hrule as [H|H]; [by left | right; by apply inline_styles_read]. }
  pose proof (test_getAllCSSText re rule d Hin Hmatch) as H.
  apply found_by_css_stays.
  assert (Adds i (detectCSSFeatures draws d)) as Ha; [|by apply Ha].
  unfold css_patterns in Hre.
  unfold detectCSSFeatures, analyzeStyleSheets, detectCSSCustomProperties,
    detectModernCSSFeatures. cbv zeta.
  repeat (apply elem_of_cons in Hre as [Hre|Hre];
          [injection Hre as -> ->; rewrite H; adds_step|]).
  by apply elem_of_nil in Hre.
Qed.

Lemma css_pattern_detected_witness :
  "css-grid" ∈ ids (fst (analyzeDocument Fixtures.window Fixtures.draws_root
                                          Fixtures.inline_grid_page [])).
Proof.
  apply (css_pattern_detected Fixtures.window Fixtures.draws_root
           Fixtures.inline_grid_page [] re_grid "css-grid" "display: grid;").
  - unfold css_patterns. rewrite !elem_of_cons. tauto.
  - right. eexists [_], _, []. split; [reflexivity|].
    split; [repeat constructor; discriminate | reflexivity].
  - vm_compute. reflexivity.
Defined.

(** X13. Every pattern of the script pass is found wherever it occurs, as
    long as its existence check passes: if the text of an inline script
    matches the pattern and the environment has the method or interface the
    pattern is guarded by, the full pass reports the pattern's id. *)
Theorem script_pattern_detected (w : Window) (draws : nat -> nat) (d : Document)
        (prev : Features) (g : Window -> bool) (re : regex) (i txt : string)
        (Hre : (g, re, i) ∈ script_patterns)
        (Hg : g w = true)
        (Htxt : txt ∈ inline_scripts d)
        (Hmatch : test re txt = true) :
  i ∈ ids (fst (analyzeDocument w draws d prev)).
Proof.
  pose proof (test_getAllScriptText re txt d Htxt Hmatch) as H.
  apply found_by_js_stays.
  assert (Adds i (detectJavaScriptFeatures w d)) as Ha; [|by apply Ha].
  unfold script_patterns in Hre.
  unfold detectJavaScriptFeatures, detectPromiseFeatures, detectModernSyntax,
    detectWebAPIs, detectESModules. cbv zeta.
  repeat (apply elem_of_cons in Hre as [Hre|Hre];
          [pose proof (f_equal (fun x => fst (fst x)) Hre) as E1;
           pose proof (f_equal (fun x => snd (fst x)) Hre) as E2;
           pose proof (f_equal snd Hre) as E3;
           cbn [fst snd] in E1, E2, E3; subst g re i;
           rewrite ?Hg, H; cbn [andb]; adds_step|]).
  by apply elem_of_nil in Hre.
Qed.

Lemma script_pattern_detected_witness :
  "fetch" ∈ ids (fst (analyzeDocument Fixtures.window Fixtures.draws_root
                                       Fixtures.sample_page [])).
Proof.
  apply (script_pattern_detected Fixtures.window Fixtures.draws_root
           Fixtures.sample_page [] has_fetch re_fetch "fetch"
           "const f = async () => { const r = await fetch('/api'); return r?.ok ?? false; };").
  - unfold script_patterns. rewrite !elem_of_cons. tauto.
  - reflexivity.
  - vm_compute. apply elem_of_cons. by left.
  - vm_compute. reflexivity.
Defined.

Ltac not_sampled :=
  unfold sampled_ids; rewrite !not_elem_of_cons;
  repeat split; first [discriminate | apply not_elem_of_nil].

Ltac avoid_steps :=
  cbv zeta;
  repeat match goal with
         | |- Avoids _ (_ >> _) => apply Avoids_then
         | |- Avoids _ (analyzeComputedStyles _ _) =>
             apply Avoids_Sampling;
             [apply Sampling_analyzeComputedStyles | not_sampled]
         | |- Avoids _ (when _ (addFeature _ _ _ _)) =>
             first [ apply Avoids_when_other; discriminate
                   | match goal with Hg : _ = false |- _ => rewrite Hg end;
                     apply Avoids_when_false ]
         end.

(** X14. A feature whose detection is guarded by an existence check is
    never reported where the check fails: if the environment lacks the
    method or interface, the id is absent from the set whatever the scripts
    of the page contain. *)
Theorem guarded_feature_absent (w : Window) (draws : nat -> nat) (d : Document)
        (prev : Features) (g : Window -> bool) (re : regex) (i : string)
        (Hre : (g, re, i) ∈ script_patterns)
        (Hg : g w = false) :
  i ∉ ids (fst (analyzeDocument w draws d prev)).
Proof.
  unfold script_patterns in Hre.
  repeat (apply elem_of_cons in Hre as [Hre|Hre];
          [pose proof (f_equal (fun x => fst (fst x)) Hre) as E1;
           pose proof (f_equal snd Hre) as E3;
           cbn [fst snd] in E1, E3; clear Hre; subst g i;
           first
             [ by cbv in Hg
             | apply avoided_by_all;
               [unfold detectCSSFeatures, analyzeStyleSheets,
                  detectCSSCustomProperties, detectModernCSSFeatures
               |unfold detectJavaScriptFeatures, detectPromiseFeatures,
                  detectModernSyntax, detectWebAPIs, detectESModules
               |intros names; unfold html_steps];
               avoid_steps ]|]).
  by apply elem_of_nil in Hre.
Qed.

Lemma guarded_feature_absent_witness :
  "fetch" ∉ ids (fst (analyzeDocument Fixtures.window_without_fetch
                                       Fixtures.draws_root Fixtures.sample_page [])).
Proof.
  apply (guarded_feature_absent Fixtures.window_without_fetch Fixtures.draws_root
           Fixtures.sample_page [] has_fetch re_fetch "fetch").
  - unfold script_patterns. rewrite !elem_of_cons. tauto.
  - reflexivity.
Defined.

Lemma filters_inspect e s :
  "css-filters" ∈ ids (inspect e s) ->
  "css-filters" ∈ ids s \/ is_filtered e = true.
Proof.
  unfold inspect, then_. intros H.
  unfold when at 1 in H. destruct (is_filtered e) eqn:E; [by right|]. left.
  revert H. generalize s.
  change (Avoids "css-filters"
            (when (is_grid e)
               (addFeature "css-grid" "CSS Grid Layout" "css" (active_on e)) >>
             when (is_flex e)
               (addFeature "flexbox" "CSS Flexible Box Layout" "css" (active_on e)) >>
             when (is_transformed e)
               (addFeature "css-transforms" "CSS Transforms" "css" (active_on e)))).
  avoid_steps.
Qed.

Lemma filters_sampling draws d s :
  "css-filters" ∈ ids (analyzeComputedStyles draws d s) ->
  "css-filters" ∈ ids s \/ exists e, e ∈ all_elements d /\ is_filtered e = true.
Proof.
  unfold analyzeComputedStyles. cbv zeta.
  generalize (seq 0 (Nat.min (length (all_elements d)) 50)) as l.
  intros l. revert s. induction l as [|k l IH]; intros s H; simpl in H; [by left|].
  apply IH in H as [H|H]; [|by right].
  destruct (nth_error _ _) as [e|] eqn:E; [|by left].
  apply filters_inspect in H as [H|H]; [by left|].
  right. exists e. split; [|done].
  apply list_elem_of_In. by apply nth_error_In in E.
Qed.

(** X15. [css-filters] is reported only for a page on which some element
    has a filter in its computed style: no text of a style sheet or a
    script makes the pass report it. *)
Theorem filters_only_when_used (w : Window) (draws : nat -> nat) (d : Document)
        (prev : Features)
        (H : "css-filters" ∈ ids (fst (analyzeDocument w draws d prev))) :
  exists e, e ∈ all_elements d /\ is_filtered e = true.
Proof.
  unfold analyzeDocument, detectHTMLFeatures in H. cbv zeta in H.
  assert ("css-filters" ∈ ids (detectCSSFeatures draws d [])) as Hc.
  { assert (Avoids "css-filters" (detectJavaScriptFeatures w d)) as Hj.
    { unfold detectJavaScriptFeatures, detectPromiseFeatures, detectModernSyntax,
        detectWebAPIs, detectESModules. avoid_steps. }
    apply Hj.
    destruct (customElements_getNames w) as [names|]; simpl in H; [|done].
    assert (Avoids "css-filters" (html_steps names d)) as Hh
        by (unfold html_steps; avoid_steps).
    by apply Hh. }
  unfold detectCSSFeatures, then_ in Hc.
  assert (Avoids "css-filters" (detectModernCSSFeatures d)) as Hm
      by (unfold detectModernCSSFeatures; avoid_steps).
  assert (Avoids "css-filters" (detectCSSCustomProperties d)) as Hp
      by (unfold detectCSSCustomProperties; avoid_steps).
  assert (Avoids "css-filters" (analyzeStyleSheets d)) as Hs
      by (unfold analyzeStyleSheets; avoid_steps).
  apply Hm, Hp, filters_sampling in Hc as [Hc|Hc]; [|done].
  apply Hs in Hc. by apply elem_of_nil in Hc.
Qed.

Lemma filters_only_when_used_witness :
  exists e, e ∈ all_elements Fixtures.blurred_page /\ is_filtered e = true.
Proof.
  apply (filters_only_when_used Fixtures.window Fixtures.draws_div
           Fixtures.blurred_page []).
  vm_compute. apply elem_of_cons. by left.
Defined.

Lemma set_evidence_idem i ev s :
  set_evidence i ev (set_evidence i ev s) = set_evidence i ev s.
Proof.
  induction s as [|f s IH]; simpl; [done|].
  destruct (has_id i f) eqn:E; simpl.
  - unfold has_id in *. simpl. by rewrite E.
  - by rewrite E, IH.
Qed.

Lemma set_evidence_new i n t ev s :
  List.find (has_id i) s = None ->
  set_evidence i ev (s ++ [mkFeature i n t ev]) = s ++ [mkFeature i n t ev].
Proof.
  induction s as [|f s IH]; simpl.
  - intros _. unfold has_id. simpl. by rewrite String.eqb_refl.
  - destruct (has_id i f); [done|]. intros H. by rewrite IH.
Qed.

Lemma find_app_new i n t ev s :
  List.find (has_id i) s = None ->
  List.find (has_id i) (s ++ [mkFeature i n t ev]) = Some (mkFeature i n t ev).
Proof.
  induction s as [|f s IH]; simpl.
  - intros _. unfold has_id. simpl. by rewrite String.eqb_refl.
  - destruct (has_id i f); [done | exact IH].
Qed.

Lemma others_set_evidence i ev s : others i (set_evidence i ev s) = others i s.
Proof.
  unfold others. induction s as [|f s IH]; simpl; [done|].
  destruct (has_id i f) eqn:E; simpl.
  - unfold has_id in *. simpl. by rewrite E.
  - by rewrite E, IH.
Qed.

(** X16. [addFeature] touches only the entry of its id: the entries with
    another id keep their value and their order, and making the same call
    again changes nothing. *)
Theorem addFeature_local (i n t ev : string) (s : Features) :
  others i (addFeature i n t ev s) = others i s /\
  addFeature i n t ev (addFeature i n t ev s) = addFeature i n t ev s.
Proof.
  unfold addFeature at 1 3 4.
  destruct (List.find (has_id i) s) as [f|] eqn:E.
  - split; [apply others_set_evidence|].
    unfold addFeature.
    destruct (List.find (has_id i) (set_evidence i ev s)) eqn:E'.
    + apply set_evidence_idem.
    + apply find_has_id_None in E'. rewrite ids_set_evidence in E'.
      apply find_has_id_None in E'. congruence.
  - split.
    + unfold others. rewrite List.filter_app. simpl.
      unfold has_id at 2. simpl. rewrite String.eqb_refl. simpl.
      by rewrite app_nil_r.
    + unfold addFeature. rewrite (find_app_new _ _ _ _ _ E).
      by apply set_evidence_new.
Qed.

Lemma querySelectorAll_nonempty sel d :
  (0 <? length (querySelectorAll sel d))%nat = true <->
  exists e, e ∈ all_elements d /\ sel e = true.
Proof.
  unfold querySelectorAll. split.
  - intros H. apply Nat.ltb_lt in H.
    destruct (List.filter sel (all_elements d)) as [|e l] eqn:E;
      [simpl in H; lia|].
    assert (In e (List.filter sel (all_elements d))) as Hin
        by (rewrite E; by left).
    apply List.filter_In in Hin as [Hin He]. exists e.
    split; [by apply list_elem_of_In | done].
  - intros (e & Hin & He). apply Nat.ltb_lt.
    assert (In e (List.filter sel (all_elements d))) as H
        by (apply List.filter_In; split; [by apply list_elem_of_In | done]).
    destruct (List.filter sel (all_elements d)); [done | simpl; lia].
Qed.

(** X17. The element checks of the markup pass are exact: where the
    pass can run, [details-summary], [picture-element] and [dialog-element]
    are reported exactly when the document holds an element of the tag,
    whatever the style and script passes found. *)
Theorem html_element_detected (w : Window) (draws : nat -> nat) (d : Document)
        (prev : Features) (tag i : string) (names : list string)
        (Hi : (tag, i) ∈ html_elements)
        (Hn : customElements_getNames w = Some names) :
  i ∈ ids (fst (analyzeDocument w draws d prev)) <->
  exists e, e ∈ all_elements d /\ is_tag tag e = true.
Proof.
  rewrite <- querySelectorAll_nonempty.
  unfold html_elements in Hi.
  repeat (apply elem_of_cons in Hi as [Hi|Hi];
          [injection Hi as -> ->;
           match goal with
           | |- _ <-> ?c = true => destruct c eqn:Hc
           end;
           [ split; [done|]; intros _;
             unfold analyzeDocument, detectHTMLFeatures; cbv zeta;
             rewrite Hn; cbn [fst];
             match goal with
             | |- ?x ∈ ids (html_steps ?n ?d ?s) =>
                 assert (Adds x (html_steps n d)) as Ha; [|by apply Ha]
             end;
             unfold html_steps; cbv zeta; rewrite Hc; adds_step
           | split; [|done]; intros H; exfalso; revert H;
             apply avoided_by_all;
             [unfold detectCSSFeatures, analyzeStyleSheets,
                detectCSSCustomProperties, detectModernCSSFeatures
             |unfold detectJavaScriptFeatures, detectPromiseFeatures,
                detectModernSyntax, detectWebAPIs, detectESModules
             |intros names'; unfold html_steps];
             avoid_steps ]
          |]).
  by apply elem_of_nil in Hi.
Qed.

Lemma html_element_detected_witness :
  "details-summary" ∈ ids (fst (analyzeDocument Fixtures.window Fixtures.draws_root
                                                 Fixtures.sample_page [])) <->
  exists e, e ∈ all_elements Fixtures.sample_page /\ is_tag "details" e = true.
Proof.
  apply (html_element_detected Fixtures.window Fixtures.draws_root
           Fixtures.sample_page [] "details" "details-summary" []).
  - unfold html_elements. rewrite !elem_of_cons. tauto.
  - reflexivity.
Defined.

(** X18. The markup pass is all or nothing: where
    [customElements.getNames] cannot be called the pass throws before its
    first check, so the full pass sends no report and its set holds none of
    the six markup ids, whatever the document contains. *)
Theorem markup_pass_throws (w : Window) (draws : nat -> nat) (d : Document)
        (prev : Features) (Hn : customElements_getNames w = None) :
  snd (analyzeDocument w draws d prev) = None /\
  forall i, i ∈ html_ids -> i ∉ ids (fst (analyzeDocument w draws d prev)).
Proof.
  unfold analyzeDocument, detectHTMLFeatures. cbv zeta. rewrite Hn.
  split; [done|]. cbn [fst]. intros i Hi H.
  assert (Avoids i (detectCSSFeatures draws d) /\
          Avoids i (detectJavaScriptFeatures w d)) as [Hc Hj].
  { unfold html_ids in Hi.
    repeat (apply elem_of_cons in Hi as [->|Hi];
            [split;
             [unfold detectCSSFeatures, analyzeStyleSheets,
                detectCSSCustomProperties, detectModernCSSFeatures
             |unfold detectJavaScriptFeatures, detectPromiseFeatures,
                detectModernSyntax, detectWebAPIs, detectESModules];
             avoid_steps|]).
    by apply elem_of_nil in Hi. }
  apply Hj, Hc in H. by apply elem_of_nil in H.
Qed.

Lemma markup_pass_throws_witness :
  snd (analyzeDocument Fixtures.window_without_names Fixtures.draws_root
         Fixtures.sample_page []) = None /\
  forall i, i ∈ html_ids ->
            i ∉ ids (fst (analyzeDocument Fixtures.window_without_names
                            Fixtures.draws_root Fixtures.sample_page [])).
Proof.
  apply (markup_pass_throws Fixtures.window_without_names Fixtures.draws_root
           Fixtures.sample_page []). reflexivity.
Defined.

Lemma subtree_outside_all a t :
  (forall e, e ∈ subtree t -> hasAttribute a e = false) ->
  subtree_outside a t = subtree t.
Proof.
  induction t as [e ch IH] using Tree_induction. intros H. simpl.
  rewrite (H e) by (simpl; apply list_elem_of_here). f_equal.
  assert (forall x, x ∈ flat_map subtree ch -> hasAttribute a x = false) as Hch.
  { intros x Hx. apply H. simpl. by apply list_elem_of_further. }
  clear H. induction IH as [|t ch Ht _ IHch]; simpl; [done|].
  simpl in Hch. rewrite Ht, IHch; [done | |].
  - intros x Hx. apply Hch, elem_of_app. by right.
  - intros x Hx. apply Hch, elem_of_app. by left.
Qed.

(** X19. Shadow DOM is reported on the attribute alone: the comparison of
    the two element counts never decides, since the counts differ only
    where some element carries [shadowroot]. *)
Theorem shadow_dom_iff_attribute (d : Document) :
  uses_shadow_dom d = true <->
  exists e, e ∈ all_elements d /\ hasAttribute "shadowroot" e = true.
Proof.
  unfold uses_shadow_dom.
  destruct (List.find (hasAttribute "shadowroot") (all_elements d)) as [e|] eqn:E.
  - split; [|done]. intros _. apply List.find_some in E as [Hin He].
    exists e. split; [by apply list_elem_of_In | done].
  - assert (forall e, e ∈ all_elements d -> hasAttribute "shadowroot" e = false)
      as Hno.
    { intros e He. apply (List.find_none _ _ E). by apply list_elem_of_In. }
    unfold not_below_shadowroot, all_elements in *.
    rewrite subtree_outside_all by done. rewrite Nat.eqb_refl. simpl.
    split; [done|]. intros (e & He & Ha). by rewrite (Hno e He) in Ha.
Qed.

End ScannerFacts.

(** ** More on highlighting *)

Section HighlightFacts.

Import Scanner DOM.

Lemma fields_setAttribute n v e :
  tagName (setAttribute n v e) = tagName e /\
  style (setAttribute n v e) = style e /\
  computedStyle (setAttribute n v e) = computedStyle e /\
  textContent (setAttribute n v e) = textContent e.
Proof. unfold setAttribute. by destruct (hasAttribute n e). Qed.

Lemma fields_classList_update ts e :
  tagName (classList_update ts e) = tagName e /\
  style (classList_update ts e) = style e /\
  computedStyle (classList_update ts e) = computedStyle e /\
  textContent (classList_update ts e) = textContent e.
Proof.
  unfold classList_update. destruct (negb _ && _); [done|].
  apply fields_setAttribute.
Qed.

Lemma same_but_marker_refl e : same_but_marker e e.
Proof. by repeat split. Qed.

Lemma same_but_marker_trans e1 e2 e3 :
  same_but_marker e1 e2 -> same_but_marker e2 e3 -> same_but_marker e1 e3.
Proof.
  intros (A1 & A2 & A4 & A5 & A6) (B1 & B2 & B4 & B5 & B6).
  repeat split; try congruence.
  - intros n Hn Hc. by rewrite B5, A5.
  - intros c Hc. by rewrite B6, A6.
Qed.

Lemma same_but_marker_setAttribute v e :
  same_but_marker e (setAttribute marker_attr v e).
Proof.
  destruct (fields_setAttribute marker_attr v e) as (H1 & H2 & H3 & H4).
  repeat split; try done.
  - intros n Hn _. by apply getAttribute_setAttribute_ne.
  - intros c _. apply (has_class_other_attribute c (setAttribute marker_attr v)).
    apply getAttribute_setAttribute_ne. discriminate.
Qed.

Lemma same_but_marker_removeAttribute e :
  same_but_marker e (removeAttribute marker_attr e).
Proof.
  repeat split.
  - intros n Hn _. by apply getAttribute_removeAttribute_ne.
  - intros c _. apply (has_class_other_attribute c (removeAttribute marker_attr)).
    apply getAttribute_removeAttribute_ne. discriminate.
Qed.

Lemma same_but_marker_classList_add e :
  same_but_marker e (classList_add marker_class e).
Proof.
  destruct (fields_classList_update
              (if has_class marker_class e then classList e
               else classList e ++ [marker_class]) e) as (H1 & H2 & H3 & H4).
  repeat split; try done.
  - intros n _ Hn. by apply getAttribute_classList_update.
  - intros c Hc. by apply has_class_add_ne.
Qed.

Lemma same_but_marker_classList_remove e :
  same_but_marker e (classList_remove marker_class e).
Proof.
  destruct (fields_classList_update
              (List.filter (fun x => negb (String.eqb marker_class x)) (classList e))
              e) as (H1 & H2 & H3 & H4).
  repeat split; try done.
  - intros n _ Hn. by apply getAttribute_classList_update.
  - intros c Hc. by apply has_class_remove_ne.
Qed.

Lemma same_but_marker_clear e : same_but_marker e (clear_marker e).
Proof.
  unfold clear_marker. destruct (has_class marker_class e);
    [|apply same_but_marker_refl].
  eapply same_but_marker_trans;
    [apply same_but_marker_classList_remove | apply same_but_marker_removeAttribute].
Qed.

Lemma same_but_marker_mark rule label e : same_but_marker e (mark rule label e).
Proof.
  unfold mark. destruct (rule e); [|apply same_but_marker_refl].
  eapply same_but_marker_trans;
    [apply same_but_marker_classList_add | apply same_but_marker_setAttribute].
Qed.

Lemma same_but_marker_id i e e' :
  same_but_marker e e' -> attr_is "id" i e' = attr_is "id" i e.
Proof.
  intros (_ & _ & _ & Ha & _). unfold attr_is.
  by rewrite (Ha "id") by discriminate.
Qed.

Lemma getElementById_on_document f i d :
  (forall e, same_but_marker e (f e)) ->
  getElementById i d <> None -> getElementById i (on_document f d) <> None.
Proof.
  intros Hf. unfold getElementById. rewrite all_elements_on_document.
  induction (all_elements d) as [|e l IH]; simpl; [done|].
  rewrite (same_but_marker_id i e (f e) (Hf e)).
  by destruct (attr_is "id" i e).
Qed.

Lemma getElementById_highlightSpecificFeature i featureId d :
  getElementById i d <> None ->
  getElementById i (highlightSpecificFeature featureId d) <> None.
Proof.
  destruct (recognized featureId) as [[rule label]|] eqn:E.
  - rewrite (highlightSpecificFeature_recognized _ _ _ _ E).
    apply getElementById_on_document, same_but_marker_mark.
  - by rewrite (highlightSpecificFeature_unrecognized _ _ E).
Qed.

Lemma getElementById_elem i e d :
  e ∈ all_elements d -> attr_is "id" i e = true -> getElementById i d <> None.
Proof.
  unfold getElementById. intros He Hi H.
  rewrite (find_none _ _ H e) in Hi; [done|]. by apply list_elem_of_In.
Qed.

Lemma styles_after_highlight cs featureId d d' :
  highlightFeatureUsage cs featureId d = (d', Normal) ->
  getElementById styles_id d' <> None.
Proof.
  unfold highlightFeatureUsage.
  destruct (getElementById styles_id (on_document clear_marker d)) eqn:E.
  - intros [= <-]. apply getElementById_highlightSpecificFeature. by rewrite E.
  - destruct (append_to_head _ _) as [d2|] eqn:E2; [|done].
    intros [= <-]. apply getElementById_highlightSpecificFeature.
    apply all_elements_append_to_head in E2 as [Hin _].
    apply (getElementById_elem _ (style_element cs)); [|done].
    apply Hin. by right.
Qed.

(** X20. The highlight style element is injected at most once: after a
    highlight request that completed, any further request, for any feature
    id, completes as well and leaves the number of elements of the document
    as it is. *)
Theorem highlight_styles_injected_once cs cs' i j d d1 :
  highlightFeatureUsage cs i d = (d1, Normal) ->
  snd (highlightFeatureUsage cs' j d1) = Normal /\
  length (all_elements (fst (highlightFeatureUsage cs' j d1)))
  = length (all_elements d1).
Proof.
  intros H. apply styles_after_highlight in H.
  apply (getElementById_on_document clear_marker) in H;
    [|apply same_but_marker_clear].
  unfold highlightFeatureUsage.
  destruct (getElementById styles_id (on_document clear_marker d1)); [|done].
  simpl. split; [done|].
  by rewrite length_highlightSpecificFeature, all_elements_on_document, length_map.
Qed.

Lemma highlight_styles_injected_once_witness :
  snd (highlightFeatureUsage Fixtures.plain "flexbox"
         (fst (highlightFeatureUsage Fixtures.plain "css-grid" Fixtures.sample_page)))
  = Normal /\
  length (all_elements
            (fst (highlightFeatureUsage Fixtures.plain "flexbox"
               (fst (highlightFeatureUsage Fixtures.plain "css-grid"
                       Fixtures.sample_page)))))
  = length (all_elements
              (fst (highlightFeatureUsage Fixtures.plain "css-grid"
                      Fixtures.sample_page))).
Proof.
  apply (highlight_styles_injected_once Fixtures.plain Fixtures.plain
           "css-grid" "flexbox" Fixtures.sample_page). reflexivity.
Defined.

Lemma changed_on_document f d e' :
  (forall e, same_but_marker e (f e)) ->
  e' ∈ all_elements (on_document f d) ->
  exists e, e ∈ all_elements d /\ same_but_marker e e'.
Proof.
  intros Hf. rewrite all_elements_on_document.
  intros (e & -> & He)%list_elem_of_fmap. by exists e.
Qed.

Lemma changed_highlightSpecificFeature featureId d e' :
  e' ∈ all_elements (highlightSpecificFeature featureId d) ->
  exists e, e ∈ all_elements d /\ same_but_marker e e'.
Proof.
  destruct (recognized featureId) as [[rule label]|] eqn:E.
  - rewrite (highlightSpecificFeature_recognized _ _ _ _ E).
    apply changed_on_document, same_but_marker_mark.
  - rewrite (highlightSpecificFeature_unrecognized _ _ E).
    intros He. exists e'. split; [done | apply same_but_marker_refl].
Qed.

(** X21. Whatever the request and however it completes, highlighting only
    moves the marker: every element of the resulting document is an element
    of the document before (or the injected style element) with the same
    tag, text and inline style, the same attributes apart from
    [data-baseline-feature] and [class], and the same classes apart from
    [baseline-highlight]. *)
Theorem highlight_changes_only_marker cs featureId d e' :
  e' ∈ all_elements (fst (highlightFeatureUsage cs featureId d)) ->
  exists e, (e ∈ all_elements d \/ e = style_element cs) /\ same_but_marker e e'.
Proof.
  unfold highlightFeatureUsage.
  destruct (getElementById styles_id (on_document clear_marker d)) eqn:Es; simpl.
  - intros (e1 & H1 & S1)%changed_highlightSpecificFeature.
    apply changed_on_document in H1 as (e0 & He & S0);
      [|apply same_but_marker_clear].
    exists e0. split; [by left | by eapply same_but_marker_trans].
  - destruct (append_to_head _ _) as [d2|] eqn:E2; simpl.
    + intros (e1 & H1 & S1)%changed_highlightSpecificFeature.
      apply all_elements_append_to_head in E2 as [Hin _].
      apply Hin in H1 as [H1| ->].
      * apply changed_on_document in H1 as (e0 & He & S0);
          [|apply same_but_marker_clear].
        exists e0. split; [by left | by eapply same_but_marker_trans].
      * exists (style_element cs). split; [by right | done].
    + intros H1. apply changed_on_document in H1 as (e0 & He & S0);
        [|apply same_but_marker_clear].
      exists e0. split; [by left | done].
Qed.

Lemma highlight_changes_only_marker_witness :
  exists e,
    (e ∈ all_elements Fixtures.sample_page \/ e = style_element Fixtures.plain) /\
    same_but_marker e
      (mark is_grid "CSS Grid"
         (mkElement "DIV" [] (Some "") (mkComputedStyle "grid" "none" "none") "")).
Proof.
  apply (highlight_changes_only_marker Fixtures.plain "css-grid"
           Fixtures.sample_page).
  apply list_elem_of_In. vm_compute. do 6 right. left. reflexivity.
Defined.

End HighlightFacts.

(** ** From the Scanner's report to the badge *)

Section Pipeline.

Import Scanner.

Lemma report_features w draws d prev r :
  snd (analyzeDocument w draws d prev) = Some r ->
  features r = fst (analyzeDocument w draws d prev) /\
  url r = DOM.URL d /\ page_title r = DOM.title d.
Proof.
  unfold analyzeDocument. cbv zeta.
  destruct (detectHTMLFeatures _ _ _) as [s3 []]; simpl; [|done].
  by intros [= <-].
Qed.

Lemma no_limited_to_message s :
  List.filter Coordinator.is_limited (List.map Wire.to_message s) = [].
Proof. induction s as [|f s IH]; simpl; [done | exact IH]. Qed.

(** X22. The badge for a Scanner report is never red.  A report carries no
    baseline status, so for a tab with a usable id the Coordinator shows
    the exact number of detected features on green (a pass reports at most
    47, below the cap of 99) or, when nothing was detected, clears the
    badge; and the snapshot it stores holds the page's url and title. *)
Theorem report_badge_is_green (w : DOM.Window) (draws : nat -> nat)
        (d : DOM.Document) (prev : Features) (r : Report)
        (tid now : Z) (st : Coordinator.State)
        (Htid : tid <> 0%Z)
        (Hr : snd (analyzeDocument w draws d prev) = Some r) :
  let st' := Coordinator.onMessage now (Wire.message r) (Some tid) st in
  let calls := Coordinator.updateBadge (Some tid)
                 (Some (List.map Wire.to_message (features r))) in
  Coordinator.actions st' = Coordinator.actions st ++ calls /\
  Coordinator.badge_color calls <> Some Coordinator.red /\
  (features r = [] ->
   Coordinator.badge_text calls = Some "" /\ Coordinator.badge_color calls = None) /\
  (features r <> [] ->
   Coordinator.badge_text calls = Some (JS.toString (length (features r))) /\
   Coordinator.badge_color calls = Some Coordinator.green) /\
  Coordinator.storage st' !! Coordinator.features_key tid
  = Some (Coordinator.SVSnapshot (Some (List.map Wire.to_message (features r)))
            (DOM.URL d) (DOM.title d) now).
Proof.
  cbv zeta. destruct (report_features _ _ _ _ _ Hr) as (Hf & Hu & Ht).
  assert (length (features r) <= 47) as Hlen.
  { rewrite Hf. apply length_well_formed, well_formed_analyzeDocument. }
  unfold Wire.message, Coordinator.onMessage, Coordinator.updateBadge,
    Coordinator.tab_truthy.
  destruct (tid =? 0)%Z eqn:E; [apply Z.eqb_eq in E; done|].
  rewrite no_limited_to_message, length_map, Hu, Ht. cbn [negb orb].
  split; [done|].
  destruct (features r) as [|f fs] eqn:Efs.
  - cbn. split; [done|]. split; [done|]. split; [done|].
    apply lookup_insert_eq.
  - cbn [length Nat.eqb Nat.ltb Nat.leb].
    replace (Nat.min (S (length fs)) 99) with (S (length fs))
      by (cbn [length] in Hlen; lia).
    cbn [Coordinator.badge_color Coordinator.badge_text Coordinator.storage].
    split; [done|]. split; [done|]. split; [done|].
    apply lookup_insert_eq.
Qed.

Lemma report_badge_is_green_witness :
  let r := sendResultsToBackground Fixtures.sample_page
             (fst (analyzeDocument Fixtures.window Fixtures.draws_each
                     Fixtures.sample_page [])) in
  let st := Coordinator.mkState ∅ [] in
  let st' := Coordinator.onMessage 5 (Wire.message r) (Some 7%Z) st in
  let calls := Coordinator.updateBadge (Some 7%Z)
                 (Some (List.map Wire.to_message (features r))) in
  Coordinator.actions st' = Coordinator.actions st ++ calls /\
  Coordinator.badge_color calls <> Some Coordinator.red /\
  (features r = [] ->
   Coordinator.badge_text calls = Some "" /\ Coordinator.badge_color calls = None) /\
  (features r <> [] ->
   Coordinator.badge_text calls = Some (JS.toString (length (features r))) /\
   Coordinator.badge_color calls = Some Coordinator.green) /\
  Coordinator.storage st' !! Coordinator.features_key 7
  = Some (Coordinator.SVSnapshot (Some (List.map Wire.to_message (features r)))
            (DOM.URL Fixtures.sample_page) (DOM.title Fixtures.sample_page) 5).
Proof.
  apply (report_badge_is_green Fixtures.window Fixtures.draws_each
           Fixtures.sample_page []); [lia | reflexivity].
Defined.

End Pipeline.

(** ** The summary of detected features in the panel *)

Section DetectedSummary.

Import Panel.

Lemma map_set_new k f (m : list (string * Scanner.Feature)) :
  k ∉ List.map fst m -> map_set k f m = m ++ [(k, f)].
Proof.
  induction m as [|kv m IH]; simpl; [done|]. intros Hk.
  apply not_elem_of_cons in Hk as [Hne Hk].
  destruct (String.eqb (fst kv) k) eqn:E.
  - apply String.eqb_eq in E. congruence.
  - by rewrite IH.
Qed.

Lemma map_set_keys k f (m : list (string * Scanner.Feature)) :
  k ∈ List.map fst m -> List.map fst (map_set k f m) = List.map fst m.
Proof.
  induction m as [|kv m IH]; simpl; [by intros ?%elem_of_nil|]. intros Hk.
  destruct (String.eqb (fst kv) k) eqn:E; simpl.
  - apply String.eqb_eq in E. by rewrite E.
  - apply String.eqb_neq in E. apply elem_of_cons in Hk as [Hk|Hk];
      [congruence | by rewrite IH].
Qed.

Lemma map_set_NoDup k f (m : list (string * Scanner.Feature)) :
  NoDup (List.map fst m) -> NoDup (List.map fst (map_set k f m)).
Proof.
  intros Hnd. destruct (decide (k ∈ List.map fst m)) as [Hk|Hk].
  - by rewrite map_set_keys.
  - rewrite map_set_new, map_app by done. simpl.
    apply NoDup_app. split; [done|]. split; [|apply NoDup_singleton].
    intros x Hx ->%list_elem_of_singleton. done.
Qed.

Lemma elem_of_map_set k f (m : list (string * Scanner.Feature)) kv :
  NoDup (List.map fst m) ->
  kv ∈ map_set k f m <-> kv = (k, f) \/ (kv ∈ m /\ fst kv <> k).
Proof.
  induction m as [|kv0 m IH]; simpl; intros Hnd.
  - rewrite list_elem_of_singleton. split; [by left|].
    intros [H|[H _]]; [done | by apply elem_of_nil in H].
  - apply NoDup_cons in Hnd as [Hk0 Hnd].
    destruct (String.eqb (fst kv0) k) eqn:E.
    + apply String.eqb_eq in E. rewrite !elem_of_cons. split.
      * intros [H|H]; [by left|]. right. split; [by right|].
        intros Hk. apply Hk0. rewrite E, <- Hk.
        apply list_elem_of_fmap. by exists kv.
      * intros [H|[[H|H] Hne]]; [by left | congruence | by right].
    + apply String.eqb_neq in E. rewrite !elem_of_cons, (IH Hnd). split.
      * intros [H|[H|[H Hne]]]; [right; split; [by left | congruence]
                                | by left | right; split; [by right | done]].
      * intros [H|[[H|H] Hne]]; [right; by left | by left | right; by right].
Qed.

Lemma registry_snoc fs f :
  fold_left (fun m g => map_set (Scanner.id g) g m) (fs ++ [f]) []
  = map_set (Scanner.id f) f
      (fold_left (fun m g => map_set (Scanner.id g) g m) fs []).
Proof. by rewrite fold_left_app. Qed.

Lemma registry_spec fs :
  let m := fold_left (fun m g => map_set (Scanner.id g) g m) fs [] in
  NoDup (List.map fst m) /\
  forall kv, kv ∈ m <->
             List.find (Scanner.has_id (fst kv)) (rev fs) = Some (snd kv) /\
             fst kv = Scanner.id (snd kv).
Proof.
  cbv zeta. induction fs as [|f fs [Hnd IH]] using rev_ind.
  - simpl. split; [apply NoDup_nil_2|]. intros kv. split;
      [by intros ?%elem_of_nil | by intros [? _]].
  - rewrite registry_snoc. split; [by apply map_set_NoDup|].
    intros kv. rewrite (elem_of_map_set _ _ _ _ Hnd), rev_app_distr, IH.
    simpl. unfold Scanner.has_id at 2.
    destruct (String.eqb (Scanner.id f) (fst kv)) eqn:E.
    + apply String.eqb_eq in E. split.
      * intros [->|[_ Hne]]; [done | congruence].
      * intros [[= Hf] _]. left. destruct kv as [k g]. simpl in *. congruence.
    + apply String.eqb_neq in E. split.
      * intros [->|[H _]]; [done | exact H].
      * intros H. right. split; [exact H | congruence].
Qed.

(** X23. The summary keeps one entry per id, the last one received: the
    ids of [uniqueFeatures] are distinct, and a feature is among them
    exactly when it is the last feature of the list with its id. *)
Theorem uniqueFeatures_last_wins (fs : list Scanner.Feature) :
  NoDup (Scanner.ids (uniqueFeatures fs)) /\
  forall g, g ∈ uniqueFeatures fs <->
            List.find (Scanner.has_id (Scanner.id g)) (rev fs) = Some g.
Proof.
  destruct (registry_spec fs) as [Hnd Hin]. cbv zeta in *.
  unfold uniqueFeatures, Scanner.ids. split.
  - rewrite map_map.
    erewrite map_ext_in; [exact Hnd|].
    intros kv Hkv%list_elem_of_In. symmetry. by apply Hin.
  - intros g. split.
    + intros (kv & -> & Hkv)%list_elem_of_fmap.
      apply Hin in Hkv as [Hf <-]. exact Hf.
    + intros Hf. apply list_elem_of_fmap. exists (Scanner.id g, g).
      split; [done|]. by apply Hin.
Qed.

Lemma registry_distinct fs :
  NoDup (Scanner.ids fs) ->
  fold_left (fun m g => map_set (Scanner.id g) g m) fs []
  = List.map (fun g => (Scanner.id g, g)) fs.
Proof.
  induction fs as [|f fs IH] using rev_ind; [done|]. intros Hnd.
  unfold Scanner.ids in Hnd. rewrite map_app in Hnd.
  apply NoDup_app in Hnd as (Hnd & Hf & _).
  rewrite registry_snoc, (IH Hnd), map_app. apply map_set_new.
  rewrite map_map. simpl. intros H. apply (Hf _ H). simpl. apply list_elem_of_here.
Qed.

(** X24. On a list whose ids are distinct, as the Scanner's feature set
    always is, the summary drops nothing: [uniqueFeatures] returns the list
    itself, so the count in the panel is the length of the list. *)
Theorem uniqueFeatures_distinct (fs : list Scanner.Feature)
        (Hnd : NoDup (Scanner.ids fs)) (v : View) :
  uniqueFeatures fs = fs /\
  option_map unique_count (detectedCount_content (displayDetectedFeatures fs v))
  = Some (length fs).
Proof.
  assert (uniqueFeatures fs = fs) as H.
  { unfold uniqueFeatures. rewrite (registry_distinct _ Hnd), map_map. simpl.
    apply map_id. }
  split; [exact H|]. unfold displayDetectedFeatures. cbv zeta. simpl.
  by rewrite H.
Qed.

Lemma uniqueFeatures_distinct_witness :
  let fs := fst (Scanner.analyzeDocument Fixtures.window Fixtures.draws_each
                   Fixtures.sample_page []) in
  uniqueFeatures fs = fs /\
  option_map unique_count (detectedCount_content (displayDetectedFeatures fs fresh))
  = Some (length fs).
Proof.
  apply (uniqueFeatures_distinct
           (fst (Scanner.analyzeDocument Fixtures.window Fixtures.draws_each
                   Fixtures.sample_page []))).
  apply (bool_decide_unpack _). vm_compute. reflexivity.
Defined.

Lemma length_map_set k f (m : list (string * Scanner.Feature)) :
  length (map_set k f m) <= S (length m).
Proof.
  induction m as [|kv m IH]; simpl; [lia|].
  destruct (String.eqb (fst kv) k); simpl; lia.
Qed.

Lemma length_uniqueFeatures fs : length (uniqueFeatures fs) <= length fs.
Proof.
  unfold uniqueFeatures. rewrite length_map.
  induction fs as [|f fs IH] using rev_ind; [done|].
  rewrite registry_snoc, length_app. simpl.
  pose proof (length_map_set (Scanner.id f) f
                (fold_left (fun m g => map_set (Scanner.id g) g m) fs [])).
  lia.
Qed.

(** X25. The summary shows at most three chips; the chips and the
    [+n more] suffix together account for every entry counted, and no
    more entries are counted than features were received. *)
Theorem summary_accounts_for_all (fs : list Scanner.Feature) (v : View) :
  exists s, detectedCount_content (displayDetectedFeatures fs v) = Some s /\
            detectedFeatures_display (displayDetectedFeatures fs v) = block /\
            length (chips s) <= 3 /\
            length (chips s) + default 0 (more s) = unique_count s /\
            more s <> Some 0 /\
            unique_count s <= length fs.
Proof.
  eexists. split; [reflexivity|]. split; [reflexivity|].
  cbn [chips more unique_count]. rewrite length_map, length_firstn.
  pose proof (length_uniqueFeatures fs) as Hle.
  destruct (3 <? length (uniqueFeatures fs))%nat eqn:E;
    [apply Nat.ltb_lt in E | apply Nat.ltb_ge in E]; cbn [from_option id];
    (split; [lia|]); (split; [lia|]); (split; [|lia]).
  - intros [= H]. lia.
  - done.
Qed.

End DetectedSummary.

(** ** From the context menu to the panel *)

Section Selection.

Import Panel.

Lemma blank_step B ev st :
  store st !! "pendingSearch" = Some (Coordinator.SVString "") ->
  checks_ok st ->
  store (step B ev st) = store st /\ checks_ok (step B ev st).
Proof.
  intros Hs Hc. unfold store in *.
  destruct (step_cases B ev st)
    as [-> | [(rid & r & k & a & Ht & Hl & Ha & ->) | [Ht ->]]]; [done| |].
  - destruct (is_check k) eqn:Ek.
    + apply lookup_pending_elem in Hl. pose proof (Hc _ Hl Ek) as Heq.
      injection Heq as -> -> ->.
      assert (resume B K_checkPendingSearch a = ret) as ->.
      { destruct Ha as [-> | [(key & [= <-] & ->) | Hno]]; [done | |].
        - unfold store in *. change (storage (world st)) with (store st).
          unfold store. by rewrite Hs.
        - by destruct (Hno "pendingSearch"). }
      rewrite world_turn. split; [done|].
      intros p Hp. rewrite pending_turn in Hp. simpl in Hp.
      rewrite app_nil_r in Hp.
      apply elem_of_pending_unpark in Hp as [Hp _]. by apply Hc.
    + destruct (resume_frame B k a (world (unpark rid st)) Ek) as (Hst & _ & Hn & _).
      rewrite world_turn, Hst. split; [done|].
      intros p Hp. rewrite pending_turn in Hp.
      apply elem_of_app in Hp as [Hp|Hp].
      * apply elem_of_pending_unpark in Hp as [Hp _]. by apply Hc.
      * apply elem_of_park in Hp as (r' & k' & Hp & Hin). rewrite Hp. simpl.
        intros Hk. by rewrite (Hn r' k' Hin) in Hk.
  - destruct (handleSearch_frame (world st)) as (Hst & _ & Hn & _).
    rewrite world_turn, Hst. split; [done|].
    intros p Hp. rewrite pending_turn in Hp.
    apply elem_of_app in Hp as [Hp|Hp]; [by apply Hc|].
    apply elem_of_park in Hp as (r' & k' & Hp & Hin). rewrite Hp. simpl.
    intros Hk. by rewrite (Hn r' k' Hin) in Hk.
Qed.

Lemma blank_exec B evs st :
  store st !! "pendingSearch" = Some (Coordinator.SVString "") ->
  checks_ok st ->
  store (exec B evs st) = store st.
Proof.
  revert st. induction evs as [|ev evs IH]; intros st Hs Hc; [done|].
  change (exec B (ev :: evs) st) with (exec B evs (step B ev st)).
  destruct (blank_step B ev st Hs Hc) as [H1 H2].
  rewrite IH; [done | by rewrite H1 | done].
Qed.

Lemma is_newline_space c : is_newline c = true -> JS.is_space c = true.
Proof.
  unfold is_newline, JS.is_space.
  by destruct (nat_of_ascii c) as [|[|[|[|[|[|[|[|[|[|[|[|[|[|n]]]]]]]]]]]]]].
Qed.

Lemma all_space_strip_newlines s :
  JS.all_space (strip_newlines s) = JS.all_space s.
Proof.
  induction s as [|c s IH]; [done|]. cbn [strip_newlines JS.all_space].
  destruct (is_newline c) eqn:E.
  - by rewrite (is_newline_space c E).
  - cbn [JS.all_space]. by rewrite IH.
Qed.

Lemma has_newline_trimStart s :
  has_newline s = false -> has_newline (JS.trimStart s) = false.
Proof.
  induction s as [|c s IH]; [done|]. intros H. cbn [JS.trimStart].
  destruct (JS.is_space c); [|done]. apply IH.
  cbn [has_newline] in H. by apply orb_false_iff in H as [_ H].
Qed.

Lemma has_newline_trimEnd s :
  has_newline s = false -> has_newline (JS.trimEnd s) = false.
Proof.
  induction s as [|c s IH]; [done|]. intros H. cbn [has_newline] in H.
  apply orb_false_iff in H as [Hc Hs]. specialize (IH Hs).
  cbn [JS.trimEnd]. destruct (JS.trimEnd s) as [|c' t].
  - destruct (JS.is_space c); [done|]. cbn [has_newline]. by rewrite Hc.
  - cbn [has_newline] in *. by rewrite Hc, IH.
Qed.

Lemma has_newline_trim s : has_newline s = false -> has_newline (JS.trim s) = false.
Proof. intros H. by apply has_newline_trimEnd, has_newline_trimStart. Qed.

(** X26. A selection with content reaches the search: after the context
    menu entry was used on it, a panel opened on the Coordinator's store
    puts the trimmed selection, without its line breaks, into the text
    search field when the store replies, starts the user search for what
    the field holds, and removes the pending entry; the tab snapshots stay
    as the Coordinator left them. *)
Theorem selection_reaches_panel (B : Builtins) (sel : string)
        (cst : Coordinator.State) (evs1 evs2 : list Event)
        (Hsel : JS.all_space sel = false)
        (Hevs1 : Forall (fun ev => targets ev <> Some 0) evs1) :
  let s0 := Coordinator.storage
              (Coordinator.onClicked "checkBaseline" (Some sel) cst) in
  let st := exec B (evs1 ++ StorageReply 0 :: evs2) (open s0) in
  input st = strip_newlines (JS.trim sel) /\
  (has_newline sel = false -> input st = JS.trim sel) /\
  SearchFeatures (user_query (input st)) true ∈ log st /\
  Await (Fetch (api_url (user_query (input st)))) (K_fetch true) ∈ log st /\
  store st !! "pendingSearch" = None /\
  forall tid, store st !! Coordinator.features_key tid
              = Coordinator.storage cst !! Coordinator.features_key tid.
Proof.
  cbv zeta.
  set (s0 := Coordinator.storage
               (Coordinator.onClicked "checkBaseline" (Some sel) cst)).
  assert (JS.trim sel <> "") as Hv.
  { intros H. apply trim_nil_iff in H. congruence. }
  assert (JS.trim (strip_newlines (JS.trim sel)) <> "") as Hcontent.
  { intros H. apply trim_nil_iff in H. rewrite all_space_strip_newlines in H.
    apply trim_nil_iff in H. rewrite trim_idem in H. done. }
  assert (s0 !! "pendingSearch" = Some (Coordinator.SVString (JS.trim sel))) as Hs0.
  { subst s0. unfold Coordinator.onClicked.
    destruct sel as [|c sel]; [done|]. simpl. apply lookup_insert_eq. }
  assert (forall tid, s0 !! Coordinator.features_key tid
                      = Coordinator.storage cst !! Coordinator.features_key tid)
    as Hkeys.
  { intros tid. subst s0. unfold Coordinator.onClicked.
    destruct sel as [|c sel]; [done|]. simpl.
    apply lookup_insert_ne, not_eq_sym, features_key_not_pending. }
  rewrite exec_app.
  change (exec B (StorageReply 0 :: evs2) ?s)
    with (exec B evs2 (step B (StorageReply 0) s)).
  destruct (open_ready s0) as (Hi0 & Hst0 & Hc0 & Hl0 & _).
  destruct (waiting_exec B evs1 s0 (open s0) Hevs1 Hi0 Hst0 Hc0 Hl0)
    as (Hi1 & Hst1 & Hc1 & Hl1 & _).
  set (st1 := exec B evs1 (open s0)) in *.
  assert (store st1 !! "pendingSearch"
          = Some (Coordinator.SVString (JS.trim sel))) as Hs1
      by (by rewrite Hst1).
  destruct (step_consume B (JS.trim sel) st1 Hv Hl1 Hc1 Hs1)
    as (Hi2 & Hst2 & Hc2 & Hsearch).
  set (st2 := step B (StorageReply 0) st1) in *.
  destruct (consumed_exec B evs2 (strip_newlines (JS.trim sel)) _ st2 Hi2 Hst2 Hc2)
    as (Hi3 & Hst3 & _).
  destruct (Hsearch Hcontent) as [H1 H2].
  split; [done|]. split.
  { intros Hplain. rewrite Hi3. apply strip_newlines_plain.
    by apply has_newline_trim. }
  rewrite Hi3.
  split; [by apply elem_of_log_exec|].
  split; [by apply elem_of_log_exec|].
  rewrite Hst3, Hst1. split; [apply lookup_delete_eq|].
  intros tid. rewrite lookup_delete_ne; [apply Hkeys|].
  apply not_eq_sym, features_key_not_pending.
Qed.

Lemma selection_reaches_panel_witness :
  let s0 := Coordinator.storage
              (Coordinator.onClicked "checkBaseline" (Some " grid ")
                 (Coordinator.mkState ∅ [])) in
  let st := exec Fixtures.builtins ([Click] ++ StorageReply 0 :: []) (open s0) in
  input st = strip_newlines (JS.trim " grid ") /\
  (has_newline " grid " = false -> input st = JS.trim " grid ") /\
  SearchFeatures (user_query (input st)) true ∈ log st /\
  Await (Fetch (api_url (user_query (input st)))) (K_fetch true) ∈ log st /\
  store st !! "pendingSearch" = None /\
  forall tid, store st !! Coordinator.features_key tid
              = (∅ : gmap string Coordinator.StorageValue)
                  !! Coordinator.features_key tid.
Proof.
  apply (selection_reaches_panel Fixtures.builtins " grid "
           (Coordinator.mkState ∅ []) [Click] []); [reflexivity|].
  repeat constructor. discriminate.
Defined.

(** X27. A selection of white space only is never cleaned up: the
    Coordinator stores the empty string for it, and a panel opened on that
    store, whatever happens afterwards, leaves the entry where it is. *)
Theorem blank_selection_lingers (B : Builtins) (sel : string)
        (cst : Coordinator.State) (evs : list Event)
        (Hne : sel <> "") (Hsel : JS.all_space sel = true) :
  let s0 := Coordinator.storage
              (Coordinator.onClicked "checkBaseline" (Some sel) cst) in
  s0 !! "pendingSearch" = Some (Coordinator.SVString "") /\
  store (exec B evs (open s0)) = s0.
Proof.
  cbv zeta.
  set (s0 := Coordinator.storage
               (Coordinator.onClicked "checkBaseline" (Some sel) cst)).
  assert (s0 !! "pendingSearch" = Some (Coordinator.SVString "")) as Hs0.
  { subst s0. unfold Coordinator.onClicked.
    destruct sel as [|c sel]; [done|]. cbn [String.eqb JS.truthy_opt andb].
    apply trim_nil_iff in Hsel. simpl. rewrite Hsel. apply lookup_insert_eq. }
  split; [done|].
  destruct (open_ready s0) as (_ & Hst0 & Hc0 & _).
  rewrite blank_exec; [done | by rewrite Hst0 | done].
Qed.

Lemma blank_selection_lingers_witness :
  let s0 := Coordinator.storage
              (Coordinator.onClicked "checkBaseline" (Some "  ")
                 (Coordinator.mkState ∅ [])) in
  s0 !! "pendingSearch" = Some (Coordinator.SVString "") /\
  store (exec Fixtures.builtins [StorageReply 0; Click] (open s0)) = s0.
Proof.
  apply (blank_selection_lingers Fixtures.builtins "  "
           (Coordinator.mkState ∅ []) [StorageReply 0; Click]);
    [discriminate | reflexivity].
Defined.

End Selection.

(** ** The Scanner's answers to the panel *)

Section Messages.

Import Scanner DOM.

Lemma page_info_highlightSpecificFeature featureId d :
  URL (highlightSpecificFeature featureId d) = URL d /\
  title (highlightSpecificFeature featureId d) = title d.
Proof.
  destruct (recognized featureId) as [[rule label]|] eqn:E.
  - by rewrite (highlightSpecificFeature_recognized _ _ _ _ E).
  - by rewrite (highlightSpecificFeature_unrecognized _ _ E).
Qed.

Lemma page_info_append_to_head new d d' :
  append_to_head new d = Some d' -> URL d' = URL d /\ title d' = title d.
Proof.
  unfold append_to_head.
  destruct (is_tag "html" (root (documentElement d))); [|done].
  destruct (append_to_first _ _ _); [|done]. by intros [= <-].
Qed.

Lemma page_info_highlightFeatureUsage cs featureId d :
  URL (fst (highlightFeatureUsage cs featureId d)) = URL d /\
  title (fst (highlightFeatureUsage cs featureId d)) = title d.
Proof.
  unfold highlightFeatureUsage.
  destruct (getElementById styles_id (on_document clear_marker d)); simpl.
  - by destruct (page_info_highlightSpecificFeature featureId
                   (on_document clear_marker d)) as [-> ->].
  - destruct (append_to_head _ _) as [d2|] eqn:E; simpl; [|done].
    destruct (page_info_highlightSpecificFeature featureId d2) as [-> ->].
    by apply page_info_append_to_head in E.
Qed.

Lemma report_after_highlight w draws cs featureId p :
  let p1 := fst (fst (handleMessage w draws cs (HIGHLIGHT_FEATURE featureId) p)) in
  detectedFeatures p1 = detectedFeatures p /\
  URL (document p1) = URL (document p) /\
  title (document p1) = title (document p).
Proof.
  cbv zeta. unfold handleMessage.
  destruct (page_info_highlightFeatureUsage cs featureId (document p)) as [Hu Ht].
  by destruct (highlightFeatureUsage cs featureId (document p)) as [d []].
Qed.

(** X28. The panel is told what the Coordinator was sent: after a
    re-analysis that sent the report [r], and any number of highlight
    requests since, the answer to [GET_DETECTED_FEATURES] is [r], with the
    same features in the same order, url and title. *)
Theorem get_returns_last_report (w : Window) (draws : nat -> nat)
        (cs : ComputedStyle) (p p' : Page) (resp : option Response)
        (r : Report) (featureIds : list string)
        (Hr : handleMessage w draws cs REANALYZE_PAGE p = (p', resp, Some r)) :
  let p2 := fold_left
              (fun q i => fst (fst (handleMessage w draws cs (HIGHLIGHT_FEATURE i) q)))
              featureIds p' in
  handleMessage w draws cs GET_DETECTED_FEATURES p2
  = (p2, Some (FeaturesResponse r), None).
Proof.
  cbv zeta.
  assert (r = mkReport (detectedFeatures p') (URL (document p'))
                       (title (document p'))) as ->.
  { unfold handleMessage, analyzeDocument in Hr. cbv zeta in Hr.
    destruct (detectHTMLFeatures _ _ _) as [s3 []]; [|done].
    by injection Hr as <- _ <-. }
  clear Hr.
  assert (forall q,
             detectedFeatures q = detectedFeatures p' ->
             URL (document q) = URL (document p') ->
             title (document q) = title (document p') ->
             let q2 := fold_left
                         (fun q i => fst (fst (handleMessage w draws cs
                                                 (HIGHLIGHT_FEATURE i) q)))
                         featureIds q in
             detectedFeatures q2 = detectedFeatures p' /\
             URL (document q2) = URL (document p') /\
             title (document q2) = title (document p')) as H.
  { induction featureIds as [|i l IH]; intros q Hf Hu Ht; [done|].
    cbn [fold_left].
    destruct (report_after_highlight w draws cs i q) as (Hf' & Hu' & Ht').
    apply IH; congruence. }
  destruct (H p' eq_refl eq_refl eq_refl) as (Hf & Hu & Ht).
  unfold handleMessage at 1. by rewrite Hf, Hu, Ht.
Qed.

Lemma get_returns_last_report_witness :
  let w := Fixtures.window in
  let p := mkPage [] Fixtures.sample_page in
  let r := sendResultsToBackground Fixtures.sample_page
             (fst (analyzeDocument w Fixtures.draws_root Fixtures.sample_page [])) in
  let p' := mkPage (features r) Fixtures.sample_page in
  let p2 := fold_left
              (fun q i => fst (fst (handleMessage w Fixtures.draws_root Fixtures.plain
                                      (HIGHLIGHT_FEATURE i) q)))
              ["css-grid"] p' in
  handleMessage w Fixtures.draws_root Fixtures.plain GET_DETECTED_FEATURES p2
  = (p2, Some (FeaturesResponse r), None).
Proof.
  apply (get_returns_last_report Fixtures.window Fixtures.draws_root Fixtures.plain
           (mkPage [] Fixtures.sample_page) _
           (Some (StatusResponse "reanalyzed"))).
  reflexivity.
Defined.

End Messages.
